(** * MediaForge: media probing, transcoding decisions and context media search

    A shallow embedding of
      - [processing/ffmpeg/ffprobe.py]     (the media prober),
      - [processing/ffmpeg/conversion.py]  (the transcode operations),
      - [utils/scandiscord.py]             (the context media resolver),
    followed by the properties established about them.

    Conventions of the embedding.
      - A coroutine is a state transformer over [State] that either returns a
        value or raises a Python exception; the state survives a raise, as
        the Python objects do.
      - The external tools (ffprobe, ffmpeg, the apng reader, the network)
        are read through the oracle records [World] and [Net]; every
        [run_command] call is appended to the invocation log of the state.
      - Python floats are modelled by exact rationals ([Q]); rounding is not
        modelled.  Text printed by ffprobe is modelled by its parsed form. *)

From Stdlib Require Import ZArith QArith Qround Lqa String Ascii List Bool Lia DecimalString.
From stdpp Require Import base gmap.
Import ListNotations.

Open Scope string_scope.
Open Scope Z_scope.

(** ** Python values and exceptions *)

Inductive MediaType := VIDEO | AUDIO | IMAGE | GIF | UNKNOWN.

(** A ManagedFile: the [TempFile] string object of [utils.tempfiles].  The
    path is determined by the reservation number and the extension;
    [lock_codec] is the attribute set by [toapng]. *)
Record ManagedFile := mkFile {
  file_id : nat;
  extension : string;
  lock_codec : bool }.

Definition Path : Type := nat * string.
Definition path_of (f : ManagedFile) : Path := (file_id f, extension f).

(** An argument of [run_command]: a string literal or a file object. *)
Inductive Arg := Lit (s : string) | File (f : ManagedFile).

Record Command := mkCommand { prog : string; args : list Arg }.

Inductive exn :=
| RuntimeError (msg : string)
| NonBugError (msg : string)
| AssertionError (f : ManagedFile) (mt : MediaType)
| CannotBeReencoded (f : ManagedFile) (mt : MediaType)
| CommandError (c : Command)
| TypeError
| KeyError
| IndexError
| ValueError
| AttributeError
| ZeroDivisionError
| JSONDecodeError.

Inductive outcome (A : Type) := Return (a : A) | Raise (e : exn).
Arguments Return {A} a.
Arguments Raise {A} e.

(** ** Probe data *)

(** [float(s)] of a tag string. *)
Inductive FloatParse := FNum (q : Q) | FNonFinite | FBad.

Record Tags := mkTags { rotate : option FloatParse }.

(** One entry of the ["streams"] array of ffprobe's JSON output. *)
Record Stream := mkStream {
  codec_type : string;
  codec_name : string;
  r_frame_rate : list Z;
  width : Z;
  height : Z;
  tags : option Tags }.

(** The text printed for [format=duration]. *)
Inductive DurationText := NA | Printed (v : option Q).

(** The fcTL chunk of an APNG frame. *)
Record FrameControl := mkControl { delay : Z; delay_den : Z }.

(** ** The state of the process *)

Record State := mkState {
  next_id : nat;
  ledger : list Path;
  log : list Command;
  is_apng_cache : list Path;
  frame_rate_cache : list Path;
  duration_cache : list Path }.

Definition initial_state : State := mkState 0 [] [] [] [] [].

Definition set_log (l : list Command) (st : State) : State :=
  mkState (next_id st) (ledger st) l
          (is_apng_cache st) (frame_rate_cache st) (duration_cache st).

Definition set_is_apng_cache (c : list Path) (st : State) : State :=
  mkState (next_id st) (ledger st) (log st)
          c (frame_rate_cache st) (duration_cache st).

Definition set_frame_rate_cache (c : list Path) (st : State) : State :=
  mkState (next_id st) (ledger st) (log st)
          (is_apng_cache st) c (duration_cache st).

Definition set_duration_cache (c : list Path) (st : State) : State :=
  mkState (next_id st) (ledger st) (log st)
          (is_apng_cache st) (frame_rate_cache st) c.

(** ** The coroutine monad *)

Definition M (A : Type) : Type := State -> outcome A * State.

Definition ret {A} (a : A) : M A := fun st => (Return a, st).
Definition raise {A} (e : exn) : M A := fun st => (Raise e, st).
Definition bind {A B} (m : M A) (k : A -> M B) : M B :=
  fun st =>
    match m st with
    | (Return a, st') => k a st'
    | (Raise e, st') => (Raise e, st')
    end.
Definition lift {A} (o : outcome A) : M A := fun st => (o, st).

Notation "'let*' x ':=' c1 'in' c2" := (bind c1 (fun x => c2))
  (at level 10, x pattern, c1 at level 100, c2 at level 200).

(** Python's [str(n)] for an integer. *)
Definition str_int (n : Z) : string := NilZero.string_of_int (Z.to_int n).

(** [o is None] *)
Definition is_None {A} (o : option A) : bool :=
  match o with None => true | Some _ => false end.

Definition path_eqb (p q : Path) : bool :=
  Nat.eqb (fst p) (fst q) && String.eqb (snd p) (snd q).

(** ** The external world *)

Record World := mkWorld {
  (** [file.mediatype()] of [processing.mediatype]. *)
  mediatype : ManagedFile -> MediaType;
  (** [video.gif_loop_count()]. *)
  gif_loop_count : ManagedFile -> Z;
  (** whether an invocation of an external tool exits with status 0. *)
  exit_ok : Command -> bool;
  (** the ["streams"] array ffprobe prints for a file; [None] when the
      output has no such key. *)
  streams : Path -> option (list Stream);
  (** the text ffprobe prints for [format=duration]. *)
  format_duration : Path -> DurationText;
  (** [int(...)] of the text printed for [nb_read_packets]. *)
  nb_read_packets : Path -> option Z;
  (** [apng.APNG.open(file).frames]: the control chunk of each frame. *)
  apng_frames : Path -> option (list (option FrameControl)) }.

(** ** utils/tempfiles.py and processing/run_command.py *)

(** Modelled from the spec: [reserve_tempfile] of [utils/tempfiles.py] is not
    among the sources.  "[reserve(extension)] allocates a new unique path
    with the given extension and registers it; the file need not exist on
    disk yet", with "a monotonically increasing ... suffix per
    reservation". *)
Definition reserve_tempfile (ext : string) : M ManagedFile :=
  fun st =>
    let f := mkFile (next_id st) ext false in
    (Return f,
     mkState (S (next_id st)) (path_of f :: ledger st) (log st)
             (is_apng_cache st) (frame_rate_cache st) (duration_cache st)).

(** The handle was issued by an earlier reservation of this process. *)
Definition issued (st : State) (f : ManagedFile) : Prop :=
  (file_id f < next_id st)%nat.

Definition is_ffmpeg (c : Command) : bool := String.eqb (prog c) "ffmpeg".
Definition is_ffprobe (c : Command) : bool := String.eqb (prog c) "ffprobe".

(** The encoder invocations recorded so far. *)
Definition encoder_invocations (st : State) : list Command :=
  List.filter is_ffmpeg (log st).

(** The probe invocations recorded so far. *)
Definition probe_invocations (st : State) : list Command :=
  List.filter is_ffprobe (log st).

Definition lits (l : list string) : list Arg := List.map Lit l.

Section Processing.

Variable w : World.

(** Modelled from the spec: [run_command] of [processing/run_command.py] is
    not among the sources.  The tool is invoked as a subprocess; "exit
    status non-zero is a hard failure".  The text it prints is read from
    [w] by the caller. *)
Definition run_command (p : string) (a : list Arg) : M unit :=
  fun st =>
    let c := mkCommand p a in
    let st' := set_log (log st ++ [c]) st in
    if exit_ok w c then (Return tt, st') else (Raise (CommandError c), st').

(** [json.loads(out)["streams"]] *)
Definition json_streams (f : ManagedFile) : M (list Stream) :=
  match streams w (path_of f) with
  | Some l => ret l
  | None => raise KeyError
  end.

(** What [-select_streams v:0] and [-select_streams a:0] keep. *)
Definition select_streams (ty : string) (l : list Stream) : list Stream :=
  firstn 1 (List.filter (fun s => String.eqb (codec_type s) ty) l).

(** *** functools.lru_cache around a coroutine function

    [@lru_cache(maxsize=128)] decorates an [async def]: what is cached per
    key is the coroutine object the call creates, and every call site awaits
    the object at once.  A miss stores a new coroutine (evicting the least
    recently used key of a full cache) and the [await] runs its body; a hit
    moves the key to the front and hands out the stored coroutine, which has
    been awaited already, and awaiting it again raises [RuntimeError].
    The cache is the list of its keys, most recently used first. *)

Definition maxsize : nat := 128.

Definition cache_mem (k : Path) (c : list Path) : bool :=
  existsb (path_eqb k) c.

Definition cache_remove (k : Path) (c : list Path) : list Path :=
  List.filter (fun k' => negb (path_eqb k k')) c.

Definition cache_hit (k : Path) (c : list Path) : list Path :=
  k :: cache_remove k c.

Definition cache_miss (k : Path) (c : list Path) : list Path :=
  k :: (if (length c <? maxsize)%nat then c else removelast c).

Definition lru_cache {A} (get : State -> list Path)
    (set : list Path -> State -> State) (k : Path) (body : M A) : M A :=
  fun st =>
    if cache_mem k (get st)
    then (Raise (RuntimeError "cannot reuse already awaited coroutine"),
          set (cache_hit k (get st)) st)
    else body (set (cache_miss k (get st)) st).

(** ** processing/ffmpeg/ffprobe.py *)

Definition COMMON_PROBE_FLAGS : list string := ["-v"; "panic"].
Definition JSON_FORMAT_FLAGS : list string := ["-print_format"; "json"].

Definition is_apng (filename : ManagedFile) : M bool :=
  lru_cache is_apng_cache set_is_apng_cache (path_of filename)
    (let* _ := run_command "ffprobe"
       ([File filename] ++ lits COMMON_PROBE_FLAGS
        ++ lits ["-select_streams"; "v:0"] ++ lits JSON_FORMAT_FLAGS
        ++ lits ["-show_entries"; "stream=codec_name"]) in
     let* data := json_streams filename in
     match select_streams "video" data with
     | [] => ret false
     | s :: _ => ret (String.eqb (codec_name s) "apng")
     end).

(** [control.delay / (control.delay_den or 100)] *)
Definition frame_delay (control : FrameControl) : Q :=
  inject_Z (delay control)
  / inject_Z (if Z.eqb (delay_den control) 0 then 100 else delay_den control).

(** [sum(control.delay / (control.delay_den or 100) for _, control in frames)],
    the accumulator starting at 0. *)
Fixpoint sum_delays (acc : Q) (frames : list (option FrameControl)) : outcome Q :=
  match frames with
  | [] => Return acc
  | None :: _ => Raise AttributeError
  | Some control :: rest => sum_delays (acc + frame_delay control)%Q rest
  end.

(** [apng.APNG.open(filename).frames] *)
Definition open_apng (filename : ManagedFile) : outcome (list (option FrameControl)) :=
  match apng_frames w (path_of filename) with
  | Some frames => Return frames
  | None => Raise ValueError
  end.

Definition _get_apng_framerate (filename : ManagedFile) : outcome Q :=
  match open_apng filename with
  | Raise e => Raise e
  | Return frames =>
      match sum_delays 0 frames with
      | Raise e => Raise e
      | Return total_delay =>
          if Qeq_bool total_delay 0 then Raise ZeroDivisionError
          else Return (inject_Z (Z.of_nat (length frames)) / total_delay)%Q
      end
  end.

Definition _get_apng_duration (filename : ManagedFile) : outcome Q :=
  match open_apng filename with
  | Raise e => Raise e
  | Return frames => sum_delays 0 frames
  end.

(** [float(rate[0]) / float(rate[1]) if len(rate) == 2 else float(rate[0])] *)
Definition parse_rate (rate : list Z) : outcome Q :=
  match rate with
  | [a; b] => if Z.eqb b 0 then Raise ZeroDivisionError
              else Return (inject_Z a / inject_Z b)%Q
  | a :: _ => Return (inject_Z a)
  | [] => Raise ValueError
  end.

Definition get_frame_rate (filename : ManagedFile) : M Q :=
  lru_cache frame_rate_cache set_frame_rate_cache (path_of filename)
    (let* _ := run_command "ffprobe"
       ([File filename] ++ lits COMMON_PROBE_FLAGS
        ++ lits ["-select_streams"; "v:0"] ++ lits JSON_FORMAT_FLAGS
        ++ lits ["-show_entries"; "stream=r_frame_rate,codec_name"]) in
     let* data := json_streams filename in
     match select_streams "video" data with
     | [] => raise IndexError
     | s :: _ =>
         if String.eqb (codec_name s) "apng"
         then lift (_get_apng_framerate filename)
         else lift (parse_rate (r_frame_rate s))
     end).

Definition get_duration (filename : ManagedFile) : M Q :=
  lru_cache duration_cache set_duration_cache (path_of filename)
    (let* _ := run_command "ffprobe"
       (lits COMMON_PROBE_FLAGS
        ++ lits ["-show_entries"; "format=duration";
                 "-of"; "default=noprint_wrappers=1:nokey=1"]
        ++ [File filename]) in
     match format_duration w (path_of filename) with
     | NA => lift (_get_apng_duration filename)
     | Printed (Some d) => ret d
     | Printed None => raise ValueError
     end).

(** Python's [x % n] on floats, for a positive [n]. *)
Definition py_mod (x : Q) (n : Z) : Q :=
  (x - inject_Z n * inject_Z (Qfloor (x / inject_Z n)))%Q.

(** [rot % 90 == 0 and not rot % 180 == 0]; every comparison with the
    [nan] that a non-finite [rot] yields is false. *)
Definition rotation_swaps (rot : FloatParse) : outcome bool :=
  match rot with
  | FBad => Raise ValueError
  | FNonFinite => Return false
  | FNum r =>
      Return (Qeq_bool (py_mod r 90) 0 && negb (Qeq_bool (py_mod r 180) 0))
  end.

Definition get_resolution (filename : ManagedFile) : M (list Z) :=
  let* _ := run_command "ffprobe"
      (lits ["-v"; "panic"; "-select_streams"; "v:0"; "-show_entries";
             "stream=width,height:stream_tags=rotate";
             "-print_format"; "json"] ++ [File filename]) in
  let* out := json_streams filename in
  match select_streams "video" out with
  | [] => raise IndexError
  | s :: _ =>
      let w0 := width s in
      let h0 := height s in
      match tags s with
      | Some (mkTags (Some rot)) =>
          let* swap := lift (rotation_swaps rot) in
          if (swap : bool) then ret [h0; w0] else ret [w0; h0]
      | _ => ret [w0; h0]
      end
  end.

Definition get_vcodec (filename : ManagedFile) : M (option Stream) :=
  let* _ := run_command "ffprobe"
      (lits ["-v"; "panic"; "-select_streams"; "v:0"; "-show_entries";
             "stream=codec_name,codec_long_name";
             "-print_format"; "json"] ++ [File filename]) in
  let* out := json_streams filename in
  match select_streams "video" out with
  | s :: _ => ret (Some s)
  | [] => ret None
  end.

Definition get_acodec (filename : ManagedFile) : M (option Stream) :=
  let* _ := run_command "ffprobe"
      (lits ["-v"; "panic"; "-select_streams"; "a:0"; "-show_entries";
             "stream=codec_name,codec_long_name";
             "-print_format"; "json"] ++ [File filename]) in
  let* out := json_streams filename in
  match select_streams "audio" out with
  | s :: _ => ret (Some s)
  | [] => ret None
  end.

(** One round of the loop of [va_codecs] over [out["streams"]]. *)
Definition va_step (acc : option string * option string) (stream : Stream)
  : option string * option string :=
  let '(vcodec, acodec) := acc in
  if String.eqb (codec_type stream) "video" && is_None vcodec
  then (Some (codec_name stream), acodec)
  else if String.eqb (codec_type stream) "audio" && is_None acodec
  then (vcodec, Some (codec_name stream))
  else (vcodec, acodec).

Definition va_codecs (filename : ManagedFile)
  : M (option (option string * option string)) :=
  let* _ := run_command "ffprobe"
      (lits ["-v"; "panic"; "-show_entries"; "stream=codec_name,codec_type";
             "-print_format"; "json"] ++ [File filename]) in
  let* out := json_streams filename in
  match out with
  | [] => ret None
  | _ => ret (Some (fold_left va_step out (None, None)))
  end.

Definition count_frames (video : ManagedFile) : M Z :=
  let* _ := run_command "ffprobe"
      (lits ["-v"; "error"; "-select_streams"; "v:0"; "-count_packets";
             "-show_entries"; "stream=nb_read_packets"; "-of"; "csv=p=0"]
       ++ [File video]) in
  match nb_read_packets w (path_of video) with
  | Some n => ret n
  | None => raise ValueError
  end.

Definition frame_n (video : ManagedFile) (n : Z) : M ManagedFile :=
  let* framecount := count_frames video in
  if negb ((-1 <=? n) && (n <? framecount))
  then raise (NonBugError ("Frame " ++ str_int n ++ " does not exist."))
  else
    let n := if n =? -1 then framecount - 1 else n in
    let* frame := reserve_tempfile "mkv" in
    let* _ := run_command "ffmpeg"
        (lits ["-hide_banner"; "-i"] ++ [File video]
         ++ lits ["-vf"; "select='eq(n," ++ str_int n ++ ")'";
                  "-vframes"; "1"; "-c:v"; "ffv1"] ++ [File frame]) in
    ret frame.

(** ** processing/ffmpeg/conversion.py *)

(** The Python values compared with [==] in this module. *)
Inductive pyval := PyNone | PyStr (s : string) | PyDict (d : Stream).

Definition of_name (o : option string) : pyval :=
  match o with Some s => PyStr s | None => PyNone end.

Definition of_stream (o : option Stream) : pyval :=
  match o with Some d => PyDict d | None => PyNone end.

(** [x == s] for a string literal [s]: only an equal string is equal. *)
Definition py_eq_str (x : pyval) (s : string) : bool :=
  match x with
  | PyStr t => String.eqb t s
  | PyNone | PyDict _ => false
  end.

(** [x["codec_name"]] *)
Definition subscript_codec_name (x : option Stream) : M string :=
  match x with
  | Some d => ret (codec_name d)
  | None => raise TypeError
  end.

Definition COMMON_FLAGS : list string := ["-hide_banner"; "-y"].
Definition VIDEO_FLAGS : list string :=
  ["-movflags"; "+faststart"; "-max_muxing_queue_size"; "9999"].
Definition AUDIO_FLAGS : list string := ["-c:a"; "aac"; "-q:a"; "2"].
Definition H264_FLAGS : list string :=
  ["-c:v"; "libx264"; "-pix_fmt"; "yuv420p"; "-preset"; "ultrafast"].

Definition videotogif (video : ManagedFile) : M ManagedFile :=
  let* vc := get_vcodec video in
  let* name := subscript_codec_name vc in
  if String.eqb name "gif" then ret video
  else
    let* outname := reserve_tempfile "gif" in
    let* fps := get_frame_rate video in
    let lc := gif_loop_count w video in
    let fps_filter :=
      if negb (Qle_bool fps 50) then "fps=fps=50," else EmptyString in
    let* _ := run_command "ffmpeg"
        (lits COMMON_FLAGS ++ [Lit "-i"; File video]
         ++ lits ["-gifflags"; "-transdiff";
                  "-loop"; str_int lc;
                  "-vf";
                  fps_filter ++ "split[s0][s1];"
                  ++ "[s0]geq=r='bitor(bitand(r(X,Y),248),4)':g='bitor(bitand(g(X,Y),248),4)':b='bitor(bitand(b(X,Y),248),4)',"
                  ++ "palettegen=reserve_transparent=1:stats_mode=single[p];"
                  ++ "[s1][p]paletteuse=dither=bayer:bayer_scale=3:new=1";
                  "-fps_mode"; "vfr"]
         ++ [File outname]) in
    ret outname.

Definition video_reencode (video : ManagedFile) : M ManagedFile :=
  let mt := mediatype w video in
  match mt with
  | VIDEO | GIF =>
      let* codecs := va_codecs video in
      match codecs with
      | None => raise TypeError
      | Some (vcodec, acodec) =>
          let vcode :=
            if py_eq_str (of_name vcodec) "h264" then ["copy"]
            else (H264_FLAGS
                  ++ ["-vf";
                      "scale=ceil(iw/2)*2:ceil(ih/2)*2,premultiply=inplace=1"])%list in
          let acode :=
            if py_eq_str (of_name acodec) "aac" then ["copy"]
            else AUDIO_FLAGS in
          let* outname := reserve_tempfile "mp4" in
          let* _ := run_command "ffmpeg"
              (lits COMMON_FLAGS ++ [Lit "-i"; File video]
               ++ [Lit "-c:v"] ++ lits vcode
               ++ [Lit "-c:a"] ++ lits acode
               ++ lits VIDEO_FLAGS ++ [File outname]) in
          ret outname
      end
  | _ => raise (AssertionError video mt)
  end.

Definition audio_reencode (audio : ManagedFile) : M ManagedFile :=
  let* acodec := get_acodec audio in
  let acode :=
    if py_eq_str (of_stream acodec) "aac" then ["copy"]
    else ["aac"; "-q:a"; "2"] in
  let* outname := reserve_tempfile "m4a" in
  let* _ := run_command "ffmpeg"
      ([Lit "-hide_banner"; Lit "-i"; File audio; Lit "-c:a"]
       ++ lits acode ++ [File outname]) in
  ret outname.

Definition mediatoimage (media : ManagedFile) (imagetype : string)
  : M ManagedFile :=
  let* outname := reserve_tempfile imagetype in
  let* vc := get_vcodec media in
  let* name := subscript_codec_name vc in
  let* _ := run_command "ffmpeg"
      ([Lit "-hide_banner"; Lit "-i"; File media;
        Lit "-frames:v"; Lit "1"; Lit "-c:v";
        Lit (if String.eqb name imagetype then "copy" else imagetype);
        Lit "-pix_fmt"; Lit "rgba"; File outname]) in
  ret outname.

Definition mediatopng (media : ManagedFile) : M ManagedFile :=
  mediatoimage media "png".

Definition allreencode (file : ManagedFile) : M ManagedFile :=
  if lock_codec file then ret file
  else
    let mt := mediatype w file in
    match mt with
    | IMAGE => mediatopng file
    | VIDEO => video_reencode file
    | AUDIO => audio_reencode file
    | GIF => videotogif file
    | _ => raise (CannotBeReencoded file mt)
    end.

Definition forcereencode (file : ManagedFile) : M ManagedFile :=
  let mt := mediatype w file in
  match mt with
  | IMAGE =>
      let* outname := reserve_tempfile "png" in
      let* _ := run_command "ffmpeg"
          ([Lit "-hide_banner"; Lit "-i"; File file;
            Lit "-frames:v"; Lit "1"; Lit "-c:v"; Lit "png";
            Lit "-pix_fmt"; Lit "rgba"; File outname]) in
      ret outname
  | VIDEO =>
      let* outname := reserve_tempfile "mp4" in
      let* _ := run_command "ffmpeg"
          ([Lit "-hide_banner"; Lit "-i"; File file;
            Lit "-c:v"; Lit "libx264"; Lit "-pix_fmt"; Lit "yuv420p";
            Lit "-vf";
            Lit ("scale=ceil(iw/2)*2:ceil(ih/2)*2," ++ "premultiply=inplace=1");
            Lit "-c:a"; Lit "aac"; Lit "-q:a"; Lit "2";
            Lit "-max_muxing_queue_size"; Lit "9999";
            Lit "-movflags"; Lit "+faststart"; File outname]) in
      ret outname
  | AUDIO =>
      let* outname := reserve_tempfile "m4a" in
      let* _ := run_command "ffmpeg"
          ([Lit "-hide_banner"; Lit "-i"; File file;
            Lit "-c:a"; Lit "aac"; Lit "-q:a"; Lit "2"; File outname]) in
      ret outname
  | GIF => videotogif file
  | _ => raise (CannotBeReencoded file mt)
  end.

(** [outname.lock_codec = True] *)
Definition set_lock_codec (f : ManagedFile) : ManagedFile :=
  mkFile (file_id f) (extension f) true.

Definition toapng (video : ManagedFile) : M ManagedFile :=
  let* outname := reserve_tempfile "apng" in
  let outname := set_lock_codec outname in
  let* _ := run_command "ffmpeg"
      ([Lit "-i"; File video; Lit "-f"; Lit "apng"; Lit "-plays"; Lit "0";
        File outname]) in
  ret outname.

End Processing.

(** ** utils/scandiscord.py *)

(** *** The two compiled patterns *)

Definition digit (c : ascii) : bool :=
  let n := nat_of_ascii c in (48 <=? n)%nat && (n <=? 57)%nat.

Definition lower (c : ascii) : ascii :=
  let n := nat_of_ascii c in
  if (65 <=? n)%nat && (n <=? 90)%nat then ascii_of_nat (n + 32) else c.

Definition newline : ascii := ascii_of_nat 10.

Fixpoint strip_prefix (p s : string) : option string :=
  match p, s with
  | EmptyString, _ => Some s
  | String a p', String b s' =>
      if Ascii.eqb a b then strip_prefix p' s' else None
  | String _ _, EmptyString => None
  end.

(** [s.split(c)], as a list of character lists. *)
Fixpoint split_on (c : ascii) (s : list ascii) : list (list ascii) :=
  match s with
  | [] => [[]]
  | a :: s' =>
      if Ascii.eqb a c then [] :: split_on c s'
      else match split_on c s' with
           | seg :: segs => (a :: seg) :: segs
           | [] => [[a]]
           end
  end.

Definition nonempty {A} (l : list A) : bool :=
  match l with [] => false | _ => true end.

(** [([^-]+-)*(\d+)] against a whole text: the text cut at every dash gives
    non-empty pieces, the last of which is all digits; that one is group 2. *)
Definition match_slug (s : list ascii) : option string :=
  match rev (split_on "-"%char s) with
  | d :: before =>
      if nonempty d && forallb digit d && forallb nonempty before
      then Some (string_of_list_ascii d) else None
  | [] => None
  end.

(** [tenor_url_regex.fullmatch(url)], giving [match.group(2)]:
    [https?://tenor\.com/view/([^-]+-)*(\d+)/?] *)
Definition tenor_url_fullmatch (url : string) : option string :=
  match strip_prefix "http" url with
  | None => None
  | Some r0 =>
      let r1 := match strip_prefix "s" r0 with Some r => r | None => r0 end in
      match strip_prefix "://tenor.com/view/" r1 with
      | None => None
      | Some rest =>
          match rev (list_ascii_of_string rest) with
          | "/"%char :: body => match_slug (rev body)
          | _ => match_slug (list_ascii_of_string rest)
          end
      end
  end.

(** [.*\.txt] matched from the start of [s] up to its end, ignoring case:
    [.] does not match a newline. *)
Definition dot_star_txt (s : list ascii) : bool :=
  forallb (fun c => negb (Ascii.eqb c newline)) s
  && match rev (List.map lower s) with
     | "t"%char :: "x"%char :: "t"%char :: "."%char :: _ => true
     | _ => false
     end.

(** [txt_file_regex.match(filename)] for [.*\.txt$] with [re.IGNORECASE]:
    [$] matches at the end and before a newline that ends the text. *)
Definition txt_file_match (filename : string) : bool :=
  let s := list_ascii_of_string filename in
  dot_star_txt s
  || match rev s with
     | c :: body => Ascii.eqb c newline && dot_star_txt (rev body)
     | [] => false
     end.

(** *** The chat platform's data *)

Record Embed := mkEmbed {
  embed_type : string;
  embed_url : string;
  thumbnail_url : string }.

(** Two attachment objects are equal when their ids are. *)
Record Attachment := mkAttachment {
  att_id : Z;
  att_filename : string;
  att_url : string }.

Inductive StickerFormatType := png | apng | lottie | gif.

Record Sticker := mkSticker {
  sticker_format : StickerFormatType;
  sticker_url : string }.

Inductive MessageType := default | reply | thread_starter_message | other_type.

(** [m.reference] is [None] or a reference whose [resolved] is [None], a
    deleted-message placeholder or a message. *)
Inductive Message :=
| mkMessage (id : Z) (type : MessageType) (embeds : list Embed)
            (attachments : list Attachment) (stickers : list Sticker)
            (reference : option Resolved)
with Resolved :=
| Unresolved
| Deleted (id : Z)
| ResolvedMessage (m : Message).

Definition msg_id (m : Message) : Z :=
  let '(mkMessage id _ _ _ _ _) := m in id.
Definition msg_type (m : Message) : MessageType :=
  let '(mkMessage _ type _ _ _ _) := m in type.
Definition embeds (m : Message) : list Embed :=
  let '(mkMessage _ _ embeds _ _ _) := m in embeds.
Definition attachments (m : Message) : list Attachment :=
  let '(mkMessage _ _ _ attachments _ _) := m in attachments.
Definition stickers (m : Message) : list Sticker :=
  let '(mkMessage _ _ _ _ stickers _) := m in stickers.
Definition reference (m : Message) : option Resolved :=
  let '(mkMessage _ _ _ _ _ reference) := m in reference.

(** [ctx]: the triggering message and the messages of its channel that are
    older than it, newest first. *)
Record Context := mkContext {
  message : Message;
  channel_before : list Message }.

(** [ctx.channel.history(limit=limit, before=ctx.message)] *)
Definition history (ctx : Context) (limit : nat) : list Message :=
  firstn limit (channel_before ctx).

(** An element of the list [handlemessagesave] returns: a URL string or a
    [TenorUrl]. *)
Inductive Candidate := Url (u : string) | TenorUrl (u : string).

(** The parsed body of a reply of the gif host: not JSON at all, JSON
    without a ['results'] key, or JSON with one, where
    [['results'][0]['media_formats']['mp4']['url']] may be missing. *)
Inductive TenorData :=
| NotJson
| NoResults
| Results (mp4_url : option string).

(** What [asyncio.gather(..., return_exceptions=True)] hands back for one
    task: the text of [fetch], the value of [contentlength] (an integer, or
    [None]/[False]), or the exception the task raised. *)
Inductive TaskResult :=
| Text (body : TenorData)
| Length (n : Z)
| Nothing
| Failure.

Record Net := mkNet {
  (** [config.tenor_key] *)
  tenor_key : string;
  (** [utils.common.fetch]: the text of the page, or an exception. *)
  fetch : string -> option TenorData;
  (** [utils.web.contentlength]: a length, a falsy value, or an exception. *)
  contentlength : string -> option (option Z) }.

Inductive Task := FetchTask (url : string) | ContentLengthTask (url : string).

Section Resolver.

Variable net : Net.

(** The tasks the loop over [m.embeds] creates for one embed. *)
Definition embed_tasks (embed : Embed) : list Task :=
  if String.eqb (embed_type embed) "gifv" then
    match tenor_url_fullmatch (embed_url embed) with
    | Some gif_id =>
        [FetchTask ("https://tenor.googleapis.com/v2/posts?ids=" ++ gif_id
                    ++ "&key=" ++ tenor_key net ++ "&limit=1")]
    | None => []
    end
  else if existsb (String.eqb (embed_type embed)) ["image"; "video"; "audio"]
  then ContentLengthTask (embed_url embed)
       :: (if String.eqb (embed_type embed) "image"
           then [ContentLengthTask (thumbnail_url embed)] else [])
  else [].

Definition run_task (t : Task) : TaskResult :=
  match t with
  | FetchTask url =>
      match fetch net url with Some body => Text body | None => Failure end
  | ContentLengthTask url =>
      match contentlength net url with
      | Some (Some n) => Length n
      | Some None => Nothing
      | None => Failure
      end
  end.

(** [await asyncio.gather] over [embed_tasks], with [return_exceptions=True]:
    one result per task, in the order of the tasks. *)
Definition gather (tasks : list Task) : list TaskResult :=
  List.map run_task tasks.

(** The truth value of a result that is not a string. *)
Definition truthy (result : TaskResult) : bool :=
  match result with
  | Length n => negb (n =? 0)
  | Nothing => false
  | Failure => true
  | Text _ => true
  end.

(** The loop [for result in results]; [embed] is the variable the earlier
    loop over [m.embeds] left behind. *)
Fixpoint process_results (embed : Embed) (results : list TaskResult)
    (detectedfiles : list Candidate) : outcome (list Candidate) :=
  match results with
  | [] => Return detectedfiles
  | Text NotJson :: _ => Raise JSONDecodeError
  | Text NoResults :: rest => process_results embed rest detectedfiles
  | Text (Results None) :: _ => Raise KeyError
  | Text (Results (Some url)) :: rest =>
      process_results embed rest (detectedfiles ++ [TenorUrl url])
  | result :: rest =>
      if truthy result
      then process_results embed rest (detectedfiles ++ [Url (embed_url embed)])
      else process_results embed rest detectedfiles
  end.

Definition process_embeds (m : Message) (detectedfiles : list Candidate)
  : outcome (list Candidate) :=
  match rev (embeds m) with
  | [] => Return detectedfiles
  | embed :: _ =>
      process_results embed (gather (flat_map embed_tasks (embeds m)))
                      detectedfiles
  end.

(** [att in ignoreatts] *)
Definition att_in (att : Attachment) (l : list Attachment) : bool :=
  existsb (fun a => att_id a =? att_id att) l.

(** [ignoreatts is None or any(att not in ignoreatts for att in m.attachments)] *)
Definition attachments_gate (m : Message) (ignoreatts : option (list Attachment))
  : bool :=
  match ignoreatts with
  | None => true
  | Some ign => existsb (fun att => negb (att_in att ign)) (attachments m)
  end.

Definition process_attachments (m : Message)
    (ignoreatts : option (list Attachment)) (detectedfiles : list Candidate)
  : list Candidate :=
  if nonempty (attachments m) && attachments_gate m ignoreatts
  then detectedfiles
       ++ List.map (fun att => Url (att_url att))
            (List.filter (fun att => negb (txt_file_match (att_filename att)))
                         (attachments m))
  else detectedfiles.

Definition is_lottie (f : StickerFormatType) : bool :=
  match f with lottie => true | _ => false end.

Definition process_stickers (m : Message) (detectedfiles : list Candidate)
  : list Candidate :=
  if nonempty (stickers m)
  then detectedfiles
       ++ List.map (fun sticker => Url (sticker_url sticker))
            (List.filter (fun sticker => negb (is_lottie (sticker_format sticker)))
                         (stickers m))
  else detectedfiles.

(** [m = m.reference.resolved] for a thread starter message; anything but a
    message there fails at the next attribute access. *)
Definition thread_origin (m : Message) : outcome Message :=
  match msg_type m with
  | thread_starter_message =>
      match reference m with
      | Some (ResolvedMessage m') => Return m'
      | _ => Raise AttributeError
      end
  | _ => Return m
  end.

Definition handlemessagesave (m : Message)
    (ignoreatts : option (list Attachment)) : outcome (list Candidate) :=
  match thread_origin m with
  | Raise e => Raise e
  | Return m =>
      match process_embeds m [] with
      | Raise e => Raise e
      | Return detectedfiles =>
          let detectedfiles := process_attachments m ignoreatts detectedfiles in
          let detectedfiles := process_stickers m detectedfiles in
          Return detectedfiles
      end
  end.

(** The value of [imagesearch]: [False] or a list. *)
Inductive SearchResult := PyFalse | Files (l : list Candidate).

(** [l[:n]] *)
Definition slice_to {A} (l : list A) (n : Z) : list A :=
  if 0 <=? n then firstn (Z.to_nat n) l
  else firstn (Z.to_nat (Z.of_nat (length l) + n)) l.

(** [len(outfiles) >= nargs] *)
Definition enough (outfiles : list Candidate) (nargs : Z) : bool :=
  nargs <=? Z.of_nat (length outfiles).

(** The loop over the channel history. *)
Fixpoint search_history (nargs : Z) (hist : list Message) (seen_messages : gset Z)
    (outfiles : list Candidate) : outcome SearchResult :=
  match hist with
  | [] => Return (if nonempty outfiles then Files outfiles else PyFalse)
  | m :: rest =>
      if bool_decide (msg_id m ∈ seen_messages)
      then search_history nargs rest seen_messages outfiles
      else
        let seen_messages := {[msg_id m]} ∪ seen_messages in
        match handlemessagesave m None with
        | Raise e => Raise e
        | Return found =>
            let outfiles := (outfiles ++ found)%list in
            if enough outfiles nargs then Return (Files (slice_to outfiles nargs))
            else search_history nargs rest seen_messages outfiles
        end
  end.

Definition imagesearch (ctx : Context) (nargs : Z)
    (ignore : option (list Attachment)) : outcome SearchResult :=
  let seen_messages : gset Z := {[msg_id (message ctx)]} in
  match handlemessagesave (message ctx) ignore with
  | Raise e => Raise e
  | Return found =>
      let outfiles := found in
      if enough outfiles nargs then Return (Files (slice_to outfiles nargs))
      else
        match reference (message ctx) with
        | Some (ResolvedMessage ref_msg) =>
            let seen_messages := {[msg_id ref_msg]} ∪ seen_messages in
            match handlemessagesave ref_msg None with
            | Raise e => Raise e
            | Return found =>
                let outfiles := (outfiles ++ found)%list in
                if enough outfiles nargs
                then Return (Files (slice_to outfiles nargs))
                else search_history nargs (history ctx 50) seen_messages outfiles
            end
        | Some (Deleted _) => Raise AttributeError
        | Some Unresolved | None =>
            search_history nargs (history ctx 50) seen_messages outfiles
        end
  end.

End Resolver.

Open Scope list_scope.

(** * Definitions used to state the properties *)

Definition always_ok (c : Command) : bool := true.

(** A world in which every file has the given kind and streams. *)
Definition world_of (mt : MediaType) (ss : list Stream) : World :=
  mkWorld (fun _ => mt) (fun _ => 0) always_ok (fun _ => Some ss)
          (fun _ => Printed (Some (10 # 1))) (fun _ => Some 300)
          (fun _ => None).

Definition h264_stream : Stream := mkStream "video" "h264" [30; 1] 1280 720 None.
Definition aac_stream : Stream := mkStream "audio" "aac" [0; 0] 0 0 None.
Definition gif_stream : Stream := mkStream "video" "gif" [10; 1] 320 240 None.

(** A process that has reserved one file so far. *)
Definition one_reserved (ext : string) : State :=
  mkState 1 [(0%nat, ext)] [] [] [] [].

(** What an operation that encodes leaves behind: a newly reserved handle
    with the given extension, and one more encoder invocation. *)
Definition fresh_output (st : State) (ext : string) (c : Command)
    (r : outcome ManagedFile * State) : Prop :=
  fst r = Return (mkFile (next_id st) ext false)
  /\ ledger (snd r) = (next_id st, ext) :: ledger st
  /\ encoder_invocations (snd r) = encoder_invocations st ++ [c].

(** What a pass-through leaves behind: the input handle, no reservation and
    no encoder invocation. *)
Definition passed_through (st : State) (file : ManagedFile)
    (r : outcome ManagedFile * State) : Prop :=
  fst r = Return file
  /\ ledger (snd r) = ledger st
  /\ encoder_invocations (snd r) = encoder_invocations st.


(** The encoder invocation of [frame_n] that extracts frame [k]. *)
Definition extract_command (video : ManagedFile) (k : Z) (frame : ManagedFile)
  : Command :=
  mkCommand "ffmpeg"
    [Lit "-hide_banner"; Lit "-i"; File video; Lit "-vf";
     Lit ("select='eq(n," ++ str_int k ++ ")'")%string;
     Lit "-vframes"; Lit "1"; Lit "-c:v"; Lit "ffv1"; File frame].

(** The rotation is an odd multiple of a quarter turn. *)
Definition odd_multiple_of_90 (rot : Q) : Prop :=
  exists k : Z, (rot == inject_Z (90 * (2 * k + 1)))%Q.

(** The value of the rotate tag of a stream, when it has one. *)
Definition rotate_tag (s : Stream) : option FloatParse :=
  match tags s with
  | Some t => rotate t
  | None => None
  end.

Definition rotated_stream (rot : Q) : Stream :=
  mkStream "video" "h264" [30; 1] 1280 720 (Some (mkTags (Some (FNum rot)))).

(** The sum over the frames of [delay / delay_den], with [delay_den] read
    as 100 when it is zero. *)
Definition total_delay (controls : list FrameControl) : Q :=
  fold_right (fun control acc => frame_delay control + acc)%Q 0%Q controls.

(** An animated PNG of two frames shown for 1/5 s each, whose stream the
    generic probe describes as 10 frames a second. *)
Definition apng_world : World :=
  mkWorld (fun _ => VIDEO) (fun _ => 0) always_ok
          (fun _ => Some [mkStream "video" "apng" [10; 1] 64 64 None])
          (fun _ => NA) (fun _ => Some 2)
          (fun _ => Some [Some (mkControl 1 5); Some (mkControl 20 0)]).

(** A still PNG: no duration, codec png, one frame without a control chunk. *)
Definition still_png_world : World :=
  mkWorld (fun _ => IMAGE) (fun _ => 0) always_ok
          (fun _ => Some [mkStream "video" "png" [25; 1] 64 64 None])
          (fun _ => NA) (fun _ => Some 1)
          (fun _ => Some [None]).

Definition Path_eq_dec (p q : Path) : {p = q} + {p <> q}.
Proof. decide equality; [apply string_dec | apply Nat.eq_dec]. Defined.

(** The keys of [ks], each counted once, that are not in [cached]. *)
Fixpoint new_keys (cached : list Path) (ks : list Path) : nat :=
  match ks with
  | [] => 0
  | k :: ks' =>
      if cache_mem k cached then new_keys cached ks'
      else S (new_keys (k :: cached) ks')
  end.

(** The distinct files of a sequence of calls, the one used last first. *)
Definition by_last_use (calls : list Path) : list Path :=
  rev (nodup Path_eq_dec calls).

(** The [n] most recently used files after a sequence of calls, the one used
    last first. *)
Definition most_recently_used (n : nat) (calls : list Path) : list Path :=
  firstn n (by_last_use calls).

(** Calling an operation on each file of a list in turn, whatever each call
    returns or raises. *)
Fixpoint run_all {A} (op : ManagedFile -> M A) (files : list ManagedFile)
    (st : State) : State :=
  match files with
  | [] => st
  | f :: files' => run_all op files' (snd (op f st))
  end.

(** A computation that leaves the state alone. *)
Definition preserves {A} (m : M A) : Prop := forall st, snd (m st) = st.

(** The files numbered [0 .. n-1]. *)
Definition numbered_files (n : nat) : list ManagedFile :=
  List.map (fun i => mkFile i "mp4" false) (seq 0 n).

(** What the embed stage can append: a resolved gif-host URL, or the URL of
    the embed the loop variable was left on. *)
Definition embed_candidate (embed : Embed) (c : Candidate) : Prop :=
  (exists url, c = TenorUrl url) \/ c = Url (embed_url embed).

Definition embed_stage_candidate (m : Message) (c : Candidate) : Prop :=
  (exists url, c = TenorUrl url)
  \/ exists embed, In embed (embeds m) /\ c = Url (embed_url embed).

Definition attachment_candidate (m : Message) (c : Candidate) : Prop :=
  exists att, In att (attachments m)
              /\ txt_file_match (att_filename att) = false
              /\ c = Url (att_url att).

Definition sticker_candidate (m : Message) (c : Candidate) : Prop :=
  exists sticker, In sticker (stickers m)
                  /\ sticker_format sticker <> lottie
                  /\ c = Url (sticker_url sticker).

(** An example conversation. *)
Definition net_ok : Net :=
  mkNet "KEY"
        (fun _ => Some (Results (Some "https://media.tenor.com/m/dance.mp4")))
        (fun _ => Some (Some 1000)).

Definition cat_png : Attachment :=
  mkAttachment 1 "cat.png" "https://cdn.example/cat.png".
Definition dog_png : Attachment :=
  mkAttachment 2 "dog.png" "https://cdn.example/dog.png".
Definition photo_embed : Embed :=
  mkEmbed "image" "https://img.example/photo.jpg"
          "https://img.example/thumb.jpg".
Definition wave_sticker : Sticker :=
  mkSticker png "https://cdn.example/wave.png".

Definition mixed_message : Message :=
  mkMessage 10 default [photo_embed] [cat_png] [wave_sticker] None.

(** Every occurrence of [x] in [l] comes before every occurrence of [y]. *)
Definition precedes (x y : Candidate) (l : list Candidate) : Prop :=
  forall i j, nth_error l i = Some x -> nth_error l j = Some y -> (i < j)%nat.

(** One stop of the walk: a message, with the attachments to ignore there,
    or the placeholder of a deleted reply target. *)
Inductive Visit :=
| VisitMessage (m : Message) (ignoreatts : option (list Attachment))
| VisitDeleted.

Definition visit (net : Net) (v : Visit) : outcome (list Candidate) :=
  match v with
  | VisitMessage m ignoreatts => handlemessagesave net m ignoreatts
  | VisitDeleted => Raise AttributeError
  end.

(** The messages of the history that have not been seen, each once. *)
Fixpoint unseen (hist : list Message) (seen_messages : gset Z) : list Message :=
  match hist with
  | [] => []
  | m :: rest =>
      if bool_decide (msg_id m ∈ seen_messages) then unseen rest seen_messages
      else m :: unseen rest ({[msg_id m]} ∪ seen_messages)
  end.

(** The whole walk: the triggering message, its reply target, and the 50
    most recent older messages not met before. *)
Definition bounded_walk (ctx : Context) (ignore : option (list Attachment))
  : list Visit :=
  VisitMessage (message ctx) ignore
  :: match reference (message ctx) with
     | Some (ResolvedMessage ref_msg) =>
         VisitMessage ref_msg None
         :: List.map (fun m => VisitMessage m None)
              (unseen (history ctx 50)
                      ({[msg_id ref_msg]} ∪ {[msg_id (message ctx)]}))
     | Some (Deleted _) => [VisitDeleted]
     | Some Unresolved | None =>
         List.map (fun m => VisitMessage m None)
           (unseen (history ctx 50) {[msg_id (message ctx)]})
     end.

(** No stop of the walk yields a candidate. *)
Definition nothing_found (net : Net) (walk : list Visit) : Prop :=
  Forall (fun v => visit net v = Return []) walk.

(** A command message that replies to nothing, in a channel whose previous
    message carries the media. *)
Definition command_context : Context :=
  mkContext (mkMessage 12 default [] [] [] None)
            [mkMessage 11 default [] [] [] None; mixed_message].

(** * Further definitions *)

(** The codec name of the first stream of a type, if there is one. *)
Definition first_codec (ty : string) (ss : list Stream) : option string :=
  match select_streams ty ss with
  | s :: _ => Some (codec_name s)
  | [] => None
  end.

(** A cache within its capacity and without a repeated key. *)
Definition cache_ok (c : list Path) : Prop :=
  List.NoDup c /\ (length c <= maxsize)%nat.

(** An animated PNG of three frames that all carry a zero delay. *)
Definition zero_delay_world : World :=
  mkWorld (fun _ => VIDEO) (fun _ => 0) always_ok
          (fun _ => Some [mkStream "video" "apng" [0; 0] 64 64 None])
          (fun _ => NA) (fun _ => Some 3)
          (fun _ => Some [Some (mkControl 0 100); Some (mkControl 0 0);
                          Some (mkControl 0 7)]).

(** ** The remaining converters of processing/ffmpeg/conversion.py *)

Section Converters.

Variable w : World.

Definition giftomp4 (gif : ManagedFile) : M ManagedFile :=
  let* outname := reserve_tempfile "mp4" in
  let* _ := run_command w "ffmpeg"
      [Lit "-hide_banner"; Lit "-i"; File gif;
       Lit "-movflags"; Lit "faststart"; Lit "-pix_fmt"; Lit "yuv420p";
       Lit "-sws_flags";
       Lit "spline+accurate_rnd+full_chroma_int+full_chroma_inp";
       Lit "-vf"; Lit "scale=trunc(iw/2)*2:trunc(ih/2)*2";
       Lit "-fps_mode"; Lit "vfr"; File outname] in
  ret outname.

Definition toaudio (media : ManagedFile) : M ManagedFile :=
  let* name := reserve_tempfile "m4a" in
  let* _ := run_command w "ffmpeg"
      [Lit "-hide_banner"; Lit "-i"; File media;
       Lit "-c:a"; Lit "aac"; Lit "-vn"; File name] in
  ret name.

End Converters.

(** The extension [forcereencode] gives the output for a kind it encodes. *)
Definition forced_extension (mt : MediaType) : string :=
  match mt with
  | IMAGE => "png"
  | VIDEO => "mp4"
  | _ => "m4a"
  end.

(** Whether an argument list holds the literal [s]. *)
Definition has_lit (s : string) (a : list Arg) : bool :=
  existsb (fun x => match x with
                    | Lit t => String.eqb t s
                    | File _ => false
                    end) a.

(** The encoder invocation of [audio_reencode]. *)
Definition audio_command (audio outname : ManagedFile) : Command :=
  mkCommand "ffmpeg"
    [Lit "-hide_banner"; Lit "-i"; File audio;
     Lit "-c:a"; Lit "aac"; Lit "-q:a"; Lit "2"; File outname].

(** The encoder invocation of [mediatoimage] with the given codec argument. *)
Definition image_command (media : ManagedFile) (codec : string)
    (outname : ManagedFile) : Command :=
  mkCommand "ffmpeg"
    [Lit "-hide_banner"; Lit "-i"; File media; Lit "-frames:v"; Lit "1";
     Lit "-c:v"; Lit codec; Lit "-pix_fmt"; Lit "rgba"; File outname].

(** A video whose picture is VP9 and whose sound is AAC already. *)
Definition vp9_stream : Stream := mkStream "video" "vp9" [30; 1] 1280 720 None.

(** A still image stored as PNG. *)
Definition png_stream : Stream := mkStream "video" "png" [25; 1] 64 64 None.

(** What a computation may do to the ledger and to the invocation log: at
    most [n] reservations, each numbered by the counter, and invocations
    added at the end of the log. *)
Definition extends_by (n : nat) (st st' : State) : Prop :=
  (exists new, ledger st' = new ++ ledger st
               /\ next_id st' = (next_id st + length new)%nat
               /\ (length new <= n)%nat)
  /\ (exists more, log st' = log st ++ more).

Definition reserves_at_most (n : nat) {A} (m : M A) : Prop :=
  forall st, extends_by n st (snd (m st)).

(** A computation that, when it returns, returns [f] and has reserved
    nothing. *)
Definition returns_only (f : ManagedFile) (m : M ManagedFile) : Prop :=
  forall st out st',
    m st = (Return out, st') ->
    out = f /\ ledger st' = ledger st /\ next_id st' = next_id st.

(** A computation that, when it returns, returns either the input, having
    reserved nothing, or the handle of the one file it has reserved. *)
Definition input_or_fresh (file : ManagedFile) (m : M ManagedFile) : Prop :=
  forall st out st',
    m st = (Return out, st') ->
    (out = file /\ ledger st' = ledger st /\ next_id st' = next_id st)
    \/ (exists ext, out = mkFile (next_id st) ext false
                    /\ ledger st' = (next_id st, ext) :: ledger st
                    /\ next_id st' = S (next_id st)).

(** Whether a result of [contentlength] passes the test [elif result:]; a
    check that raised passes, since the exception object is truthy. *)
Definition check_passes (r : option (option Z)) : bool :=
  match r with
  | None => true
  | Some None => false
  | Some (Some n) => negb (n =? 0)
  end.

(** The message without its attachments. *)
Definition without_attachments (m : Message) : Message :=
  mkMessage (msg_id m) (msg_type m) (embeds m) [] (stickers m) (reference m).

(** A network on which every length check raises. *)
Definition net_down : Net :=
  mkNet "KEY" (fun _ => None) (fun _ => None).

Definition clip_embed : Embed :=
  mkEmbed "video" "https://video.example/clip.mp4" EmptyString.
Definition article_embed : Embed :=
  mkEmbed "rich" "https://news.example/article" EmptyString.

(** The path of a gif-host permalink: words, each followed by a dash, then
    the numeric id. *)
Definition slug (words : list (list ascii)) (id : list ascii) : list ascii :=
  concat (List.map (fun word => word ++ ["-"%char]) words) ++ id.

Definition dash_free (s : list ascii) : Prop := ~ In "-"%char s.

(** The characters of ".txt". *)
Definition dot_txt : list ascii := list_ascii_of_string ".txt".

(** A file name without a line break. *)
Definition one_line (s : list ascii) : Prop := ~ In newline s.

(** Every candidate the whole walk yields, in the order of the walk. *)
Fixpoint collect (net : Net) (walk : list Visit) : outcome (list Candidate) :=
  match walk with
  | [] => Return []
  | v :: rest =>
      match visit net v with
      | Raise e => Raise e
      | Return found =>
          match collect net rest with
          | Raise e => Raise e
          | Return more => Return (found ++ more)
          end
      end
  end.

(** A message with a validated video embed followed by a link preview. *)
Definition two_embed_message : Message :=
  mkMessage 20 default [clip_embed; article_embed] [] [] None.

(** What [imagesearch] makes of the candidates of a whole walk. *)
Definition first_candidates (nargs : Z) (all : list Candidate) : SearchResult :=
  if nonempty all then Files (firstn (Z.to_nat nargs) all) else PyFalse.

(** ** handletenor and tenorsearch of utils/scandiscord.py *)

(** The parsed body of a reply of the gif host, as [handletenor] reads it:
    not JSON, JSON with an ['error'] key, JSON with an empty list of
    results, JSON with results whose first entry may lack the gif or the
    mp4 URL, or JSON with neither key. *)
Inductive TenorBody :=
| BodyNotJson
| BodyError (error : string)
| BodyNoResults
| BodyResults (gif_url mp4_url : option string)
| BodyOther.

Record TenorApi := mkTenorApi {
  (** [config.tenor_key] *)
  api_key : string;
  (** [config.emojis['2exclamation']] *)
  emoji_2exclamation : string;
  (** [utils.common.fetch]: the body of the page, or the exception raised. *)
  api_fetch : string -> outcome TenorBody }.

(** The value of [handletenor]: [None], [False] or a [TenorUrl]. *)
Inductive TenorResult := TenorNone | TenorFalse | TenorLink (url : string).

Section Tenor.

Variable api : TenorApi.

(** [m.embeds[0].url.split('-').pop()] *)
Definition last_piece (url : string) : string :=
  string_of_list_ascii
    (List.last (split_on "-"%char (list_ascii_of_string url)) []).

(** The second component is the list of messages sent with [ctx.send]. *)
Definition handletenor (m : Message) (gif : bool) (sent : list string)
  : outcome TenorResult * list string :=
  match embeds m with
  | embed :: _ =>
      if String.eqb (embed_type embed) "gifv" then
        match api_fetch api
                ("https://tenor.googleapis.com/v2/posts?ids="
                 ++ last_piece (embed_url embed)
                 ++ "&key=" ++ api_key api)%string with
        | Raise e => (Raise e, sent)
        | Return BodyNotJson => (Raise JSONDecodeError, sent)
        | Return (BodyError error) =>
            (Return TenorFalse,
             sent ++ [(emoji_2exclamation api ++ " Tenor Error! `"
                       ++ error ++ "`")%string])
        | Return BodyNoResults => (Raise IndexError, sent)
        | Return (BodyResults gif_url mp4_url) =>
            match (if gif then gif_url else mp4_url) with
            | Some url => (Return (TenorLink url), sent)
            | None => (Raise KeyError, sent)
            end
        | Return BodyOther => (Raise KeyError, sent)
        end
      else (Return TenorNone, sent)
  | [] => (Return TenorNone, sent)
  end.

(** The loop of [tenorsearch] over the history. *)
Fixpoint tenor_history (hist : list Message) (gif : bool) (sent : list string)
  : outcome TenorResult * list string :=
  match hist with
  | [] => (Return TenorFalse, sent)
  | m :: rest =>
      match handletenor m gif sent with
      | (Return TenorNone, sent') => tenor_history rest gif sent'
      | other => other
      end
  end.

(** [recent] is what [ctx.channel.history(limit=50)] lists: the messages of
    the channel, newest first. *)
Definition tenorsearch (ctx : Context) (recent : list Message) (gif : bool)
    (sent : list string) : outcome TenorResult * list string :=
  match reference (message ctx) with
  | Some (ResolvedMessage m) =>
      match handletenor m gif sent with
      | (Return TenorNone, sent') => (Return TenorFalse, sent')
      | other => other
      end
  | Some Unresolved | Some (Deleted _) => (Raise AttributeError, sent)
  | None => tenor_history (firstn 50 recent) gif sent
  end.

End Tenor.

(** Whether [handletenor] does anything with a message: its first embed is
    of type gifv. *)
Definition first_embed_gifv (m : Message) : bool :=
  match embeds m with
  | embed :: _ => String.eqb (embed_type embed) "gifv"
  | [] => false
  end.

(** ** safe_reply of main.py *)

(** How a call to the platform ends: it succeeds, or raises [NotFound],
    another [HTTPException], or some other exception. *)
Inductive ApiResult := ApiOk | ApiNotFound | ApiHTTPException | ApiOtherError.

(** What [safe_reply] does in the end: the reply went through, a plain
    message with the given content is sent to the channel instead, or the
    exception propagates. *)
Inductive ReplyOutcome := Replied | SentInstead (content : string) | Propagated.

(** [s[:n]] on a string, one element of the string for each character. *)
Definition str_slice_to (s : string) (n : Z) : string :=
  string_of_list_ascii (slice_to (list_ascii_of_string s) n).

(** [args[0] or ""] *)
Definition or_empty (a : option string) : string :=
  match a with
  | Some s => s
  | None => EmptyString
  end.

(** The content of the fallback message; [args] are the positional
    arguments, the first of which is the text or [None]. *)
Definition fallback_content (author : string) (args : list (option string))
  : string :=
  match args with
  | a :: _ =>
      (author ++ str_slice_to (or_empty a)
                   (2000 - Z.of_nat (String.length author)))%string
  | [] => author
  end.

Definition caught (r : ApiResult) : bool :=
  match r with
  | ApiNotFound | ApiHTTPException => true
  | _ => false
  end.

(** [fetched] is how [self.channel.fetch_message] ends and [replied] how
    [self.orig_reply] does; [author] is [self.author.mention]. *)
Definition safe_reply (fetched replied : ApiResult) (author : string)
    (args : list (option string)) : ReplyOutcome :=
  match fetched with
  | ApiOk =>
      match replied with
      | ApiOk => Replied
      | _ => if caught replied then SentInstead (fallback_content author args)
             else Propagated
      end
  | _ => if caught fetched then SentInstead (fallback_content author args)
         else Propagated
  end.

(** A gif host that answers every lookup with an error. *)
Definition api_error : TenorApi :=
  mkTenorApi "KEY" "!!" (fun _ => Return (BodyError "rate limited")).


Definition tenor_message : Message :=
  mkMessage 30 default
    [mkEmbed "gifv" "https://tenor.com/view/cat-dance-12345" EmptyString]
    [] [] None.

(** A world in which every probe succeeds and every encoder invocation
    fails. *)
Definition encoder_down_world : World :=
  mkWorld (fun _ => VIDEO) (fun _ => 0) is_ffprobe
          (fun _ => Some [h264_stream; aac_stream])
          (fun _ => Printed (Some (10 # 1))) (fun _ => Some 300)
          (fun _ => None).

(** Whether the literal [a] is followed at once by the literal [b] in an
    argument list. *)
Fixpoint adjacent (a b : string) (l : list Arg) : bool :=
  match l with
  | [] => false
  | Lit x :: rest =>
      match rest with
      | Lit y :: _ => (String.eqb x a && String.eqb y b) || adjacent a b rest
      | _ => adjacent a b rest
      end
  | File _ :: rest => adjacent a b rest
  end.


(** * Basic facts *)

Lemma path_eqb_eq p q : path_eqb p q = true <-> p = q.
Proof.
  destruct p as [a s], q as [b t]; unfold path_eqb; simpl.
  rewrite andb_true_iff, Nat.eqb_eq, String.eqb_eq.
  split; [intros [-> ->]; reflexivity | intros [= -> ->]; auto].
Qed.

(** * Properties of the transcode operations *)

Lemma filter_app_one {A} (p : A -> bool) (l : list A) (x : A) :
  List.filter p (l ++ [x]) = List.filter p l ++ (if p x then [x] else []).
Proof. rewrite List.filter_app. reflexivity. Qed.

Lemma encoder_invocations_ffmpeg st a l n c1 c2 c3 :
  encoder_invocations (mkState n l (log st ++ [mkCommand "ffmpeg" a]) c1 c2 c3)
  = encoder_invocations st ++ [mkCommand "ffmpeg" a].
Proof. unfold encoder_invocations; simpl. rewrite filter_app_one. reflexivity. Qed.

Lemma encoder_invocations_ffprobe st a l n c1 c2 c3 :
  encoder_invocations (mkState n l (log st ++ [mkCommand "ffprobe" a]) c1 c2 c3)
  = encoder_invocations st.
Proof.
  unfold encoder_invocations; simpl. rewrite filter_app_one. apply app_nil_r.
Qed.

(** C1, as the code has it.  A file whose [lock_codec] flag is set comes back
    from [allreencode] as the same handle, with the state untouched: nothing
    is probed, reserved or encoded, whatever the kind of the file.
    [forcereencode] never reads the flag: a locked IMAGE, VIDEO or AUDIO file
    is handed to one encoder invocation and the input handle is not what
    comes back. *)
Theorem locked_file_reencode (w : World) (file : ManagedFile) (st : State) :
  lock_codec file = true ->
  allreencode w file st = (Return file, st)
  /\ (In (mediatype w file) [IMAGE; VIDEO; AUDIO] ->
      exists c,
        log (snd (forcereencode w file st)) = log st ++ [c]
        /\ is_ffmpeg c = true
        /\ In (File file) (args c)
        /\ fst (forcereencode w file st) <> Return file).
Proof.
  intros Hlock. split.
  - unfold allreencode. rewrite Hlock. reflexivity.
  - intros Hmt. unfold forcereencode.
    assert (Hne : forall e, mkFile (next_id st) e false <> file)
      by (intros e <-; discriminate Hlock).
    destruct (mediatype w file); simpl in Hmt;
      try (exfalso; intuition discriminate);
      unfold bind, reserve_tempfile, run_command; simpl;
      eexists; (split; [|split; [|split]]);
      try (destruct (exit_ok w _); simpl; reflexivity);
      try reflexivity;
      try (simpl; tauto);
      destruct (exit_ok w _); simpl; try discriminate;
      intros [= E]; exact (Hne _ E).
Qed.

Lemma locked_file_reencode_witness :
  let w := world_of VIDEO [h264_stream] in
  let file := mkFile 0 "apng" true in
  let st := one_reserved "apng" in
  lock_codec file = true
  /\ allreencode w file st = (Return file, st)
  /\ (In (mediatype w file) [IMAGE; VIDEO; AUDIO] ->
      exists c,
        log (snd (forcereencode w file st)) = log st ++ [c]
        /\ is_ffmpeg c = true
        /\ In (File file) (args c)
        /\ fst (forcereencode w file st) <> Return file).
Proof.
  cbv zeta. split; [reflexivity|].
  apply (locked_file_reencode (world_of VIDEO [h264_stream])
           (mkFile 0 "apng" true) (one_reserved "apng")).
  reflexivity.
Defined.

(** C1 fails for [forcereencode]: the locked handle that [toapng] returns,
    classified VIDEO, is re-encoded into a new mp4 file. *)
Lemma forcereencode_ignores_lock :
  let w := world_of VIDEO [h264_stream] in
  exists locked st,
    toapng w (mkFile 0 "mp4" false) (one_reserved "mp4") = (Return locked, st)
    /\ lock_codec locked = true
    /\ fst (forcereencode w locked st) = Return (mkFile 2 "mp4" false)
    /\ fst (forcereencode w locked st) <> Return locked
    /\ exists c, encoder_invocations (snd (forcereencode w locked st))
                 = encoder_invocations st ++ [c]
                 /\ In (File locked) (args c).
Proof.
  cbv zeta. exists (mkFile 1 "apng" true). eexists.
  split; [vm_compute; reflexivity|].
  split; [reflexivity|]. split; [vm_compute; reflexivity|].
  split; [vm_compute; discriminate|].
  eexists. split; [vm_compute; reflexivity|]. simpl. tauto.
Qed.

Lemma issued_fresh st file ext :
  issued st file -> mkFile (next_id st) ext false <> file.
Proof. unfold issued. intros H <-. simpl in H. lia. Qed.

Lemma fresh_output_not_input st ext c r file :
  issued st file -> fresh_output st ext c r -> fst r <> Return file.
Proof.
  intros Hi (Hr & _) E. rewrite Hr in E. injection E as E.
  exact (issued_fresh _ _ _ Hi E).
Qed.

(** [videotogif] hands back its input when the first video stream is gif. *)
Lemma videotogif_gif_passthrough (w : World) (video : ManagedFile) (st : State)
    (ss : list Stream) (s : Stream) (rest : list Stream) :
  (forall c, exit_ok w c = true) ->
  streams w (path_of video) = Some ss ->
  select_streams "video" ss = s :: rest ->
  codec_name s = "gif" ->
  passed_through st video (videotogif w video st).
Proof.
  intros Hok Hss Hsel Hgif.
  unfold videotogif, get_vcodec, bind, run_command, json_streams.
  rewrite Hok, Hss. unfold ret at 1. rewrite Hsel.
  unfold ret at 1. unfold subscript_codec_name, ret at 1. rewrite Hgif.
  simpl. unfold ret. repeat split; simpl.
  apply encoder_invocations_ffprobe.
Qed.




(** C3 fails for a GIF.  [forcereencode] sends a GIF to [videotogif], which
    hands back its input when the first video stream is gif already: the same
    handle is returned, nothing is reserved and the encoder is not run. *)
Theorem forcereencode_gif_passthrough (w : World) (file : ManagedFile)
    (st : State) (ss : list Stream) (s : Stream) (rest : list Stream) :
  mediatype w file = GIF ->
  (forall c, exit_ok w c = true) ->
  streams w (path_of file) = Some ss ->
  select_streams "video" ss = s :: rest ->
  codec_name s = "gif" ->
  passed_through st file (forcereencode w file st).
Proof.
  intros Hmt Hok Hss Hsel Hgif. unfold forcereencode. rewrite Hmt.
  eapply videotogif_gif_passthrough; eauto.
Qed.

Lemma forcereencode_gif_passthrough_witness :
  let w := world_of GIF [gif_stream] in
  let file := mkFile 0 "gif" false in
  let st := one_reserved "gif" in
  (mediatype w file = GIF
   /\ (forall c, exit_ok w c = true)
   /\ streams w (path_of file) = Some [gif_stream]
   /\ select_streams "video" [gif_stream] = [gif_stream]
   /\ codec_name gif_stream = "gif")
  /\ passed_through st file (forcereencode w file st).
Proof.
  cbv zeta. split; [repeat split|].
  apply (forcereencode_gif_passthrough (world_of GIF [gif_stream])
           (mkFile 0 "gif" false) (one_reserved "gif")
           [gif_stream] gif_stream []); reflexivity.
Defined.

(** * Properties of the prober *)

(** C10.  With the frame count read and the tools succeeding, [frame_n]
    raises "Frame n does not exist." exactly when [n < -1] or
    [n >= framecount]; otherwise it extracts frame [framecount - 1] for
    [n = -1] and frame [n] for any other [n], into a newly reserved mkv
    handle that is not the input. *)
Theorem frame_n_spec (w : World) (video : ManagedFile) (n framecount : Z)
    (st : State) :
  (forall c, exit_ok w c = true) ->
  nb_read_packets w (path_of video) = Some framecount ->
  issued st video ->
  (fst (frame_n w video n st)
   = Raise (NonBugError ("Frame " ++ str_int n ++ " does not exist."))
   <-> n < -1 \/ framecount <= n)
  /\ (-1 <= n < framecount ->
      fresh_output st "mkv"
        (extract_command video (if n =? -1 then framecount - 1 else n)
           (mkFile (next_id st) "mkv" false))
        (frame_n w video n st)
      /\ fst (frame_n w video n st) <> Return video).
Proof.
  intros Hok Hn Hiss.
  assert (Hin : -1 <= n < framecount ->
      fresh_output st "mkv"
        (extract_command video (if n =? -1 then framecount - 1 else n)
           (mkFile (next_id st) "mkv" false))
        (frame_n w video n st)).
  { intros Hr. unfold frame_n, count_frames, bind, run_command.
    rewrite Hok, Hn. unfold ret at 1.
    replace ((-1 <=? n) && (n <? framecount)) with true
      by (symmetry; apply andb_true_iff; split;
          [apply Z.leb_le | apply Z.ltb_lt]; lia).
    simpl. rewrite Hok. unfold fresh_output, extract_command; simpl.
    repeat split. unfold encoder_invocations; simpl.
    rewrite !filter_app_one; simpl. rewrite app_nil_r. reflexivity. }
  split.
  - split.
    + intros Hr.
      destruct (Z_lt_dec n (-1)) as [|Hge]; [left; assumption|].
      destruct (Z_le_dec framecount n) as [|Hlt]; [right; assumption|].
      exfalso. destruct (Hin ltac:(lia)) as (E & _).
      rewrite Hr in E. discriminate E.
    + intros Hout. unfold frame_n, count_frames, bind, run_command.
      rewrite Hok, Hn. unfold ret at 1.
      replace ((-1 <=? n) && (n <? framecount)) with false; [reflexivity|].
      symmetry. apply andb_false_iff.
      destruct Hout; [left; apply Z.leb_gt | right; apply Z.ltb_ge]; lia.
  - intros Hr. split; [exact (Hin Hr)|].
    eapply fresh_output_not_input; eauto.
Qed.

Lemma frame_n_spec_witness :
  let w := world_of VIDEO [h264_stream] in
  let video := mkFile 0 "mp4" false in
  let st := one_reserved "mp4" in
  ((forall c, exit_ok w c = true)
   /\ nb_read_packets w (path_of video) = Some 300
   /\ issued st video
   /\ -1 <= -1 < 300)
  /\ (fst (frame_n w video 300 st)
      = Raise (NonBugError "Frame 300 does not exist."))
  /\ fresh_output st "mkv" (extract_command video 299 (mkFile 1 "mkv" false))
       (frame_n w video (-1) st)
  /\ fst (frame_n w video (-1) st) <> Return video.
Proof.
  cbv zeta.
  assert (H1 : forall c, exit_ok (world_of VIDEO [h264_stream]) c = true)
    by reflexivity.
  assert (H2 : nb_read_packets (world_of VIDEO [h264_stream])
                 (path_of (mkFile 0 "mp4" false)) = Some 300) by reflexivity.
  assert (H3 : issued (one_reserved "mp4") (mkFile 0 "mp4" false))
    by (unfold issued; simpl; lia).
  split; [repeat split; try exact H3; try lia|].
  split.
  - apply (proj1 (frame_n_spec _ (mkFile 0 "mp4" false) 300 300 _ H1 H2 H3)).
    right. lia.
  - apply (proj2 (frame_n_spec _ (mkFile 0 "mp4" false) (-1) 300 _ H1 H2 H3)).
    lia.
Defined.

(** [x % n == 0] holds exactly of the integer multiples of [n]. *)
Lemma py_mod_zero (x : Q) (n : Z) :
  0 < n ->
  Qeq_bool (py_mod x n) 0 = true <-> exists k : Z, (x == inject_Z (n * k))%Q.
Proof.
  intros Hn. rewrite Qeq_bool_iff. unfold py_mod.
  assert (Hq : ~ (inject_Z n == 0)%Q).
  { intros H. assert (n = 0) by (apply inject_Z_injective; exact H). lia. }
  split.
  - intros H. exists (Qfloor (x / inject_Z n)).
    rewrite inject_Z_mult.
    remember (inject_Z n * inject_Z (Qfloor (x / inject_Z n)))%Q as p.
    clear Heqp. lra.
  - intros [k Hk].
    assert (Hf : Qfloor (x / inject_Z n) = k).
    { rewrite <- (Qfloor_Z k). apply Qfloor_comp.
      rewrite Hk, inject_Z_mult. field. exact Hq. }
    rewrite Hf, Hk, inject_Z_mult. ring.
Qed.

Lemma rotation_swaps_iff (rot : Q) :
  rotation_swaps (FNum rot) = Return true <-> odd_multiple_of_90 rot.
Proof.
  unfold rotation_swaps, odd_multiple_of_90.
  split.
  - intros [= H]. apply andb_true_iff in H. destruct H as [H90 H180].
    apply py_mod_zero in H90; [|lia]. destruct H90 as [k Hk].
    apply negb_true_iff in H180.
    destruct (Z.Even_or_Odd k) as [[j Hj] | [j Hj]].
    + exfalso. assert (E : Qeq_bool (py_mod rot 180) 0 = true).
      { apply py_mod_zero; [lia|]. exists j. rewrite Hk.
        replace (90 * k) with (180 * j) by lia. reflexivity. }
      congruence.
    + exists j. rewrite Hk, Hj. reflexivity.
  - intros [k Hk]. f_equal. apply andb_true_iff. split.
    + apply py_mod_zero; [lia|]. exists (2 * k + 1). exact Hk.
    + apply negb_true_iff. apply not_true_is_false. intros H.
      apply py_mod_zero in H; [|lia]. destruct H as [j Hj].
      rewrite Hk in Hj.
      assert (90 * (2 * k + 1) = 180 * j)
        by (apply inject_Z_injective; exact Hj).
      lia.
Qed.

(** C8.  With the probe succeeding on a file that has a video stream,
    [get_resolution] reports height before width when the stream carries a
    rotate tag whose value is an odd multiple of 90, and width before height
    when it carries none or one whose value is any other number, a multiple
    of 180 (0 included) in particular. *)
Theorem get_resolution_swap (w : World) (filename : ManagedFile) (st : State)
    (ss : list Stream) (s : Stream) (rest : list Stream) :
  (forall c, exit_ok w c = true) ->
  streams w (path_of filename) = Some ss ->
  select_streams "video" ss = s :: rest ->
  (forall rot, rotate_tag s = Some (FNum rot) -> odd_multiple_of_90 rot ->
     fst (get_resolution w filename st) = Return [height s; width s])
  /\ (rotate_tag s = None ->
      fst (get_resolution w filename st) = Return [width s; height s])
  /\ (forall rot, rotate_tag s = Some (FNum rot) -> ~ odd_multiple_of_90 rot ->
        fst (get_resolution w filename st) = Return [width s; height s])
  /\ (forall rot k, rotate_tag s = Some (FNum rot) ->
        (rot == inject_Z (180 * k))%Q ->
        fst (get_resolution w filename st) = Return [width s; height s])
  /\ (rotate_tag s = Some FNonFinite ->
      fst (get_resolution w filename st) = Return [width s; height s]).
Proof.
  intros Hok Hss Hsel.
  assert (Hrun : get_resolution w filename st
    = match tags s with
      | Some (mkTags (Some rot)) =>
          (let* swap := lift (rotation_swaps rot) in
           if (swap : bool) then ret [height s; width s]
           else ret [width s; height s])
            (set_log (log st ++ [mkCommand "ffprobe"
               (lits ["-v"; "panic"; "-select_streams"; "v:0"; "-show_entries";
                      "stream=width,height:stream_tags=rotate";
                      "-print_format"; "json"] ++ [File filename])]) st)
      | _ => (Return [width s; height s],
              set_log (log st ++ [mkCommand "ffprobe"
               (lits ["-v"; "panic"; "-select_streams"; "v:0"; "-show_entries";
                      "stream=width,height:stream_tags=rotate";
                      "-print_format"; "json"] ++ [File filename])]) st)
      end).
  { unfold get_resolution, bind at 1, run_command. rewrite Hok.
    unfold bind at 1, json_streams. rewrite Hss. unfold ret at 1.
    rewrite Hsel. destruct (tags s) as [[[rot|]]|]; reflexivity. }
  assert (Hnot : forall rot, rotate_tag s = Some (FNum rot) ->
            ~ odd_multiple_of_90 rot ->
            fst (get_resolution w filename st) = Return [width s; height s]).
  { intros rot Htag Hodd. rewrite Hrun. unfold rotate_tag in Htag.
    destruct (tags s) as [[r]|]; [|discriminate]. simpl in Htag. subst r.
    unfold bind, lift.
    destruct (rotation_swaps (FNum rot)) as [[|]|e] eqn:E; try reflexivity.
    - exfalso. apply Hodd. apply rotation_swaps_iff. exact E.
    - discriminate E. }
  split; [|split; [|split; [|split]]].
  - intros rot Htag Hodd. rewrite Hrun. unfold rotate_tag in Htag.
    destruct (tags s) as [[r]|]; [|discriminate]. simpl in Htag. subst r.
    apply rotation_swaps_iff in Hodd. unfold bind, lift. rewrite Hodd.
    reflexivity.
  - intros Htag. rewrite Hrun. unfold rotate_tag in Htag.
    destruct (tags s) as [[r]|]; [|reflexivity]. simpl in Htag. subst r.
    reflexivity.
  - exact Hnot.
  - intros rot k Htag Hk. apply (Hnot rot Htag). intros [j Hj].
    rewrite Hk in Hj.
    assert (180 * k = 90 * (2 * j + 1))
      by (apply inject_Z_injective; exact Hj).
    lia.
  - intros Htag. rewrite Hrun. unfold rotate_tag in Htag.
    destruct (tags s) as [[r]|]; [|discriminate]. simpl in Htag. subst r.
    reflexivity.
Qed.

Lemma get_resolution_swap_witness :
  let w := world_of VIDEO [rotated_stream (270 # 1); aac_stream] in
  let filename := mkFile 0 "mp4" false in
  ((forall c, exit_ok w c = true)
   /\ streams w (path_of filename)
      = Some [rotated_stream (270 # 1); aac_stream]
   /\ select_streams "video" [rotated_stream (270 # 1); aac_stream]
      = [rotated_stream (270 # 1)]
   /\ rotate_tag (rotated_stream (270 # 1)) = Some (FNum (270 # 1))
   /\ odd_multiple_of_90 (270 # 1))
  /\ fst (get_resolution w filename (one_reserved "mp4")) = Return [720; 1280].
Proof.
  cbv zeta.
  assert (Hodd : odd_multiple_of_90 (270 # 1)) by (exists 1; reflexivity).
  split; [repeat split; exact Hodd|].
  apply (proj1 (get_resolution_swap
                  (world_of VIDEO [rotated_stream (270 # 1); aac_stream])
                  (mkFile 0 "mp4" false) (one_reserved "mp4")
                  [rotated_stream (270 # 1); aac_stream]
                  (rotated_stream (270 # 1)) []
                  (fun _ => eq_refl) eq_refl eq_refl)
           (270 # 1) eq_refl Hodd).
Defined.

Lemma sum_delays_total (controls : list FrameControl) (acc : Q) :
  exists q, sum_delays acc (List.map Some controls) = Return q
            /\ (q == acc + total_delay controls)%Q.
Proof.
  revert acc. induction controls as [|c cs IH]; intros acc; simpl.
  - exists acc. split; [reflexivity|]. ring.
  - destruct (IH (acc + frame_delay c)%Q) as (q & Hq & Heq).
    exists q. split; [exact Hq|]. rewrite Heq. ring.
Qed.

Lemma sum_delays_missing_control (before after : list (option FrameControl))
    (acc : Q) :
  Forall (fun c => c <> None) before ->
  sum_delays acc (before ++ None :: after) = Raise AttributeError.
Proof.
  revert acc. induction before as [|c cs IH]; intros acc Hall; simpl.
  - reflexivity.
  - inversion Hall as [|? ? Hc Hcs]; subst.
    destruct c as [c|]; [|congruence]. apply IH. exact Hcs.
Qed.

(** C7, as the code has it.  On a first (uncached) call with the probe
    succeeding: [get_duration] takes the animated-image path exactly when
    the probe prints "N/A", whatever the codec, and otherwise returns the
    printed number; [get_frame_rate] takes it exactly when the first video
    stream is apng, whatever the probed rate, and otherwise returns the
    probed rate.  On the animated-image path the duration is the sum over
    the frames of delay / delay_den (100 for a zero delay_den) and the frame
    rate is the number of frames divided by that sum. *)
Theorem apng_fallback (w : World) (filename : ManagedFile) (st : State) :
  (forall c, exit_ok w c = true) ->
  cache_mem (path_of filename) (duration_cache st) = false ->
  cache_mem (path_of filename) (frame_rate_cache st) = false ->
  (format_duration w (path_of filename) = NA ->
   fst (get_duration w filename st) = _get_apng_duration w filename)
  /\ (forall d, format_duration w (path_of filename) = Printed (Some d) ->
        fst (get_duration w filename st) = Return d)
  /\ (forall ss s rest,
        streams w (path_of filename) = Some ss ->
        select_streams "video" ss = s :: rest ->
        (codec_name s = "apng" ->
         fst (get_frame_rate w filename st) = _get_apng_framerate w filename)
        /\ (codec_name s <> "apng" ->
            fst (get_frame_rate w filename st) = parse_rate (r_frame_rate s)))
  /\ (forall controls,
        apng_frames w (path_of filename) = Some (List.map Some controls) ->
        (exists d, _get_apng_duration w filename = Return d
                   /\ (d == total_delay controls)%Q)
        /\ (~ (total_delay controls == 0)%Q ->
            exists r, _get_apng_framerate w filename = Return r
                      /\ (r == inject_Z (Z.of_nat (length controls))
                               / total_delay controls)%Q)).
Proof.
  intros Hok Hd Hf. split; [|split; [|split]].
  - intros Hna. unfold get_duration, lru_cache. rewrite Hd.
    unfold bind, run_command. rewrite Hok, Hna. reflexivity.
  - intros d Hp. unfold get_duration, lru_cache. rewrite Hd.
    unfold bind, run_command. rewrite Hok, Hp. reflexivity.
  - intros ss s rest Hss Hsel.
    assert (Hrun : fst (get_frame_rate w filename st)
                   = if String.eqb (codec_name s) "apng"
                     then _get_apng_framerate w filename
                     else parse_rate (r_frame_rate s)).
    { unfold get_frame_rate, lru_cache. rewrite Hf.
      unfold bind at 1, run_command. rewrite Hok.
      unfold bind, json_streams. rewrite Hss. unfold ret at 1. rewrite Hsel.
      destruct (String.eqb (codec_name s) "apng"); reflexivity. }
    split; intros Hc; rewrite Hrun.
    + rewrite Hc. reflexivity.
    + apply String.eqb_neq in Hc. rewrite Hc. reflexivity.
  - intros controls Hfr.
    destruct (sum_delays_total controls 0) as (q & Hq & Heq).
    assert (Heq' : (q == total_delay controls)%Q) by (rewrite Heq; ring).
    split.
    + exists q. split; [|exact Heq'].
      unfold _get_apng_duration, open_apng. rewrite Hfr. exact Hq.
    + intros Hnz. eexists. split.
      * unfold _get_apng_framerate, open_apng. rewrite Hfr, Hq.
        replace (Qeq_bool q 0) with false; [reflexivity|].
        symmetry. apply not_true_is_false. intros E.
        apply Qeq_bool_iff in E. apply Hnz. rewrite <- Heq'. exact E.
      * rewrite length_map. rewrite Heq'. reflexivity.
Qed.

Lemma apng_fallback_witness :
  let w := apng_world in
  let filename := mkFile 0 "png" false in
  let st := one_reserved "png" in
  ((forall c, exit_ok w c = true)
   /\ cache_mem (path_of filename) (duration_cache st) = false
   /\ cache_mem (path_of filename) (frame_rate_cache st) = false
   /\ format_duration w (path_of filename) = NA)
  /\ fst (get_duration w filename st) = _get_apng_duration w filename.
Proof.
  cbv zeta. split; [repeat split|].
  apply (proj1 (apng_fallback apng_world (mkFile 0 "png" false)
                  (one_reserved "png") (fun _ => eq_refl) eq_refl eq_refl)).
  reflexivity.
Defined.

(** C7 fails in both directions of its "exactly when".  [get_frame_rate]
    takes the animated-image path for an apng stream although the generic
    probe does report a rate (10 frames a second; the frame table gives 5).
    [get_duration] takes it for a still PNG, whose codec is not apng, and
    fails on the frame that has no control chunk. *)
Lemma apng_fallback_not_conjunction :
  let filename := mkFile 0 "png" false in
  let st := one_reserved "png" in
  (parse_rate [10; 1] = Return (10 # 1)
   /\ exists r, fst (get_frame_rate apng_world filename st) = Return r
                /\ (r == 5 # 1)%Q /\ ~ (r == 10 # 1)%Q)
  /\ (select_streams "video"
        [mkStream "video" "png" [25; 1] 64 64 None]
      = [mkStream "video" "png" [25; 1] 64 64 None]
      /\ fst (get_duration still_png_world filename st) = Raise AttributeError
      /\ _get_apng_duration still_png_world filename = Raise AttributeError).
Proof.
  cbv zeta. split.
  - split; [reflexivity|]. eexists. split; [vm_compute; reflexivity|].
    split; [reflexivity | discriminate].
  - repeat split.
Qed.

(** * Properties of the cached probe operations *)

Lemma cache_mem_In (k : Path) (c : list Path) :
  cache_mem k c = true <-> In k c.
Proof.
  unfold cache_mem. rewrite existsb_exists. split.
  - intros (x & Hx & E). apply path_eqb_eq in E. subst x. exact Hx.
  - intros H. exists k. split; [exact H|]. apply path_eqb_eq. reflexivity.
Qed.

Lemma cache_mem_false (k : Path) (c : list Path) :
  cache_mem k c = false <-> ~ In k c.
Proof.
  rewrite <- cache_mem_In. destruct (cache_mem k c); split; congruence.
Qed.

Lemma cache_hit_In (k k' : Path) (c : list Path) :
  In k c -> (In k' (cache_hit k c) <-> In k' c).
Proof.
  intros Hk. unfold cache_hit, cache_remove. simpl. rewrite filter_In.
  split.
  - intros [<- | [H _]]; assumption.
  - intros H. destruct (Path_eq_dec k k') as [E | N]; [left; exact E|].
    right. split; [exact H|]. apply negb_true_iff, not_true_is_false.
    intros E. apply path_eqb_eq in E. contradiction.
Qed.

Lemma cache_remove_length (k : Path) (c : list Path) :
  In k c -> (length (cache_remove k c) < length c)%nat.
Proof.
  unfold cache_remove. induction c as [|a c IH]; intros Hin; [destruct Hin|].
  simpl. destruct (path_eqb k a) eqn:E; simpl.
  - pose proof (List.filter_length_le
                  (fun k' => negb (path_eqb k k')) c). lia.
  - destruct Hin as [<- | Hin].
    + assert (path_eqb a a = true) by (apply path_eqb_eq; reflexivity).
      congruence.
    + specialize (IH Hin). lia.
Qed.

Lemma cache_mem_ext (a b : list Path) :
  (forall k, In k a <-> In k b) -> forall k, cache_mem k a = cache_mem k b.
Proof.
  intros H k. destruct (cache_mem k b) eqn:E.
  - apply cache_mem_In, H, cache_mem_In, E.
  - apply cache_mem_false. rewrite H. apply cache_mem_false, E.
Qed.

Lemma new_keys_ext (ks : list Path) :
  forall a b, (forall k, In k a <-> In k b) -> new_keys a ks = new_keys b ks.
Proof.
  induction ks as [|k ks IH]; intros a b H; simpl; [reflexivity|].
  rewrite (cache_mem_ext a b H k). destruct (cache_mem k b).
  - apply IH, H.
  - f_equal. apply IH. intros k'. simpl. rewrite H. reflexivity.
Qed.

Lemma cache_mem_ext_except (a k : Path) (c : list Path) :
  a <> k -> cache_mem a (k :: c) = cache_mem a c.
Proof.
  intros Hak. unfold cache_mem. cbn [existsb].
  replace (path_eqb a k) with false; [reflexivity|].
  symmetry. apply not_true_is_false. intros E.
  apply path_eqb_eq in E. contradiction.
Qed.

(** [new_keys] counts the distinct keys. *)
Lemma filter_notin_cons (k : Path) (c l : list Path) :
  ~ In k l ->
  List.filter (fun x => negb (cache_mem x (k :: c))) l
  = List.filter (fun x => negb (cache_mem x c)) l.
Proof.
  intros Hk. apply List.filter_ext_in. intros x Hx. f_equal.
  apply cache_mem_ext_except. intros ->. contradiction.
Qed.

Lemma filter_notin_one_more (k : Path) (c l : list Path) :
  List.NoDup l -> In k l -> ~ In k c ->
  length (List.filter (fun x => negb (cache_mem x c)) l)
  = S (length (List.filter (fun x => negb (cache_mem x (k :: c))) l)).
Proof.
  intros Hnd. induction Hnd as [|a l Ha Hnd IH]; intros Hin Hc;
    [destruct Hin|].
  assert (Hkc : cache_mem k c = false) by (apply cache_mem_false; exact Hc).
  assert (Hkk : cache_mem k (k :: c) = true)
    by (apply cache_mem_In; left; reflexivity).
  destruct Hin as [-> | Hin].
  - cbn [List.filter]. rewrite Hkc, Hkk. cbn [negb length].
    f_equal. f_equal. symmetry. apply filter_notin_cons. exact Ha.
  - specialize (IH Hin Hc). cbn [List.filter].
    assert (Hak : a <> k) by (intros ->; contradiction).
    assert (E : cache_mem a (k :: c) = cache_mem a c).
    { apply cache_mem_ext_except. exact Hak. }
    rewrite E. destruct (cache_mem a c); cbn [negb length]; lia.
Qed.

Lemma new_keys_distinct (ks : list Path) :
  forall c,
    new_keys c ks
    = length (List.filter (fun x => negb (cache_mem x c))
                (nodup Path_eq_dec ks)).
Proof.
  induction ks as [|k ks IH]; intros c; [reflexivity|].
  cbn [new_keys nodup].
  destruct (cache_mem k c) eqn:Hc.
  - rewrite IH. destruct (in_dec Path_eq_dec k ks); [reflexivity|].
    cbn [List.filter]. rewrite Hc. reflexivity.
  - rewrite IH.
    destruct (in_dec Path_eq_dec k ks) as [Hin | Hnin].
    + symmetry. apply filter_notin_one_more;
        [apply List.NoDup_nodup | apply nodup_In; exact Hin
         | apply cache_mem_false; exact Hc].
    + cbn [List.filter]. rewrite Hc. cbn [negb length].
      f_equal. f_equal. apply filter_notin_cons.
      rewrite nodup_In. exact Hnin.
Qed.

Lemma new_keys_nil_distinct (ks : list Path) :
  new_keys [] ks = length (nodup Path_eq_dec ks).
Proof.
  rewrite new_keys_distinct. f_equal.
  apply List.forallb_filter_id. apply forallb_forall. reflexivity.
Qed.

Section CachedProbe.

Context {A : Type}.
Variable get : State -> list Path.
Variable set : list Path -> State -> State.
Variable body : ManagedFile -> M A.
Variable cached : ManagedFile -> M A.

Hypothesis cached_def :
  forall f, cached f = lru_cache get set (path_of f) (body f).
Hypothesis get_set : forall c st, get (set c st) = c.
Hypothesis log_set : forall c st, log (set c st) = log st.
Hypothesis body_get : forall f st, get (snd (body f st)) = get st.
Hypothesis body_log : forall f st,
  exists c, log (snd (body f st)) = log st ++ [c] /\ is_ffprobe c = true.

Lemma cached_hit (f : ManagedFile) (st : State) :
  cache_mem (path_of f) (get st) = true ->
  log (snd (cached f st)) = log st
  /\ get (snd (cached f st)) = cache_hit (path_of f) (get st).
Proof.
  intros H. rewrite cached_def. unfold lru_cache. rewrite H. simpl.
  rewrite log_set, get_set. split; reflexivity.
Qed.

Lemma cached_miss (f : ManagedFile) (st : State) :
  cache_mem (path_of f) (get st) = false ->
  (exists c, log (snd (cached f st)) = log st ++ [c] /\ is_ffprobe c = true)
  /\ get (snd (cached f st)) = cache_miss (path_of f) (get st).
Proof.
  intros H. rewrite cached_def. unfold lru_cache. rewrite H. split.
  - destruct (body_log f (set (cache_miss (path_of f) (get st)) st))
      as (c & Hc & Hp).
    exists c. rewrite Hc, log_set. split; [reflexivity | exact Hp].
  - rewrite body_get, get_set. reflexivity.
Qed.

Lemma cached_run_all (files : list ManagedFile) :
  forall st,
    (length (get st) + new_keys (get st) (List.map path_of files) <= maxsize)%nat ->
    length (probe_invocations (run_all cached files st))
    = (length (probe_invocations st)
       + new_keys (get st) (List.map path_of files))%nat.
Proof.
  induction files as [|f files IH]; intros st Hcap; simpl; [lia|].
  simpl in Hcap. destruct (cache_mem (path_of f) (get st)) eqn:Hm.
  - destruct (cached_hit f st Hm) as (Hlog & Hget).
    assert (Hin : In (path_of f) (get st)) by (apply cache_mem_In, Hm).
    assert (Hext : new_keys (get (snd (cached f st))) (List.map path_of files)
                   = new_keys (get st) (List.map path_of files)).
    { apply new_keys_ext. intros k. rewrite Hget.
      apply cache_hit_In. exact Hin. }
    rewrite IH.
    + rewrite Hext. unfold probe_invocations. rewrite Hlog. reflexivity.
    + rewrite Hext, Hget. unfold cache_hit. simpl.
      pose proof (cache_remove_length _ _ Hin). lia.
  - destruct (cached_miss f st Hm) as ((c & Hlog & Hp) & Hget).
    assert (Hc : cache_miss (path_of f) (get st) = path_of f :: get st).
    { unfold cache_miss.
      replace (length (get st) <? maxsize)%nat with true; [reflexivity|].
      symmetry. apply Nat.ltb_lt. lia. }
    rewrite Hc in Hget. rewrite IH.
    + rewrite Hget. unfold probe_invocations. rewrite Hlog.
      rewrite filter_app_one, Hp, length_app. simpl. lia.
    + rewrite Hget. simpl. lia.
Qed.

End CachedProbe.

Lemma preserves_ret {A} (a : A) : preserves (ret a).
Proof. intros st. reflexivity. Qed.

Lemma preserves_raise {A} (e : exn) : preserves (@raise A e).
Proof. intros st. reflexivity. Qed.

Lemma preserves_lift {A} (o : outcome A) : preserves (lift o).
Proof. intros st. reflexivity. Qed.

Lemma preserves_json_streams (w : World) (f : ManagedFile) :
  preserves (json_streams w f).
Proof.
  intros st. unfold json_streams. destruct (streams w (path_of f)); reflexivity.
Qed.

Lemma preserves_bind {A B} (m : M A) (k : A -> M B) :
  preserves m -> (forall a, preserves (k a)) -> preserves (bind m k).
Proof.
  intros Hm Hk st. unfold bind. specialize (Hm st).
  destruct (m st) as [[a|e] st']; simpl in Hm; subst st'.
  - apply Hk.
  - reflexivity.
Qed.

(** After its one [run_command], the body of a probe leaves the state
    alone. *)
Lemma probe_then_state {A} (w : World) (p : string) (a : list Arg)
    (k : unit -> M A) (st : State) :
  (forall u, preserves (k u)) ->
  snd (bind (run_command w p a) k st)
  = set_log (log st ++ [mkCommand p a]) st.
Proof.
  intros Hk. unfold bind, run_command.
  destruct (exit_ok w (mkCommand p a)); [apply Hk | reflexivity].
Qed.

Ltac preserves_tac :=
  repeat first
    [ apply preserves_ret | apply preserves_raise | apply preserves_lift
    | apply preserves_json_streams
    | apply preserves_bind; [|intros ?]
    | match goal with
      | |- preserves (match ?x with _ => _ end) => destruct x
      | |- preserves (if ?x then _ else _) => destruct x
      end ].

Ltac probe_body :=
  intros ? ?; cbv beta;
  rewrite probe_then_state by (intros ?; preserves_tac);
  first [reflexivity | eexists; split; reflexivity].

Lemma is_apng_run_all (w : World) (files : list ManagedFile) (st : State) :
  (length (is_apng_cache st)
   + new_keys (is_apng_cache st) (List.map path_of files) <= maxsize)%nat ->
  length (probe_invocations (run_all (is_apng w) files st))
  = (length (probe_invocations st)
     + new_keys (is_apng_cache st) (List.map path_of files))%nat.
Proof.
  eapply (cached_run_all is_apng_cache set_is_apng_cache).
  - intros f. reflexivity.
  - reflexivity.
  - reflexivity.
  - probe_body.
  - probe_body.
Qed.

Lemma get_frame_rate_run_all (w : World) (files : list ManagedFile) (st : State) :
  (length (frame_rate_cache st)
   + new_keys (frame_rate_cache st) (List.map path_of files) <= maxsize)%nat ->
  length (probe_invocations (run_all (get_frame_rate w) files st))
  = (length (probe_invocations st)
     + new_keys (frame_rate_cache st) (List.map path_of files))%nat.
Proof.
  eapply (cached_run_all frame_rate_cache set_frame_rate_cache).
  - intros f. reflexivity.
  - reflexivity.
  - reflexivity.
  - probe_body.
  - probe_body.
Qed.

Lemma get_duration_run_all (w : World) (files : list ManagedFile) (st : State) :
  (length (duration_cache st)
   + new_keys (duration_cache st) (List.map path_of files) <= maxsize)%nat ->
  length (probe_invocations (run_all (get_duration w) files st))
  = (length (probe_invocations st)
     + new_keys (duration_cache st) (List.map path_of files))%nat.
Proof.
  eapply (cached_run_all duration_cache set_duration_cache).
  - intros f. reflexivity.
  - reflexivity.
  - reflexivity.
  - probe_body.
  - probe_body.
Qed.

(** ** What the cache holds *)

Lemma cache_remove_notin (k : Path) (c : list Path) :
  ~ In k c -> cache_remove k c = c.
Proof.
  intros H. unfold cache_remove. apply List.forallb_filter_id.
  apply forallb_forall. intros x Hx. apply negb_true_iff.
  apply not_true_is_false. intros E. apply path_eqb_eq in E. subst x.
  contradiction.
Qed.

Lemma cache_remove_In (k x : Path) (c : list Path) :
  In x (cache_remove k c) <-> In x c /\ x <> k.
Proof.
  unfold cache_remove. rewrite filter_In, negb_true_iff. split.
  - intros [Hx E]. split; [exact Hx|]. intros ->.
    assert (path_eqb k k = true) by (apply path_eqb_eq; reflexivity).
    congruence.
  - intros [Hx Hne]. split; [exact Hx|]. apply not_true_is_false.
    intros E. apply path_eqb_eq in E. congruence.
Qed.

Lemma nodup_snoc (k : Path) (l : list Path) :
  nodup Path_eq_dec (l ++ [k]) = cache_remove k (nodup Path_eq_dec l) ++ [k].
Proof.
  induction l as [|a l IH]; [reflexivity|].
  cbn [app nodup].
  destruct (Path_eq_dec a k) as [-> | Hak].
  - destruct (in_dec Path_eq_dec k (l ++ [k])) as [_ | Hn];
      [|exfalso; apply Hn, in_or_app; right; left; reflexivity].
    rewrite IH. f_equal.
    destruct (in_dec Path_eq_dec k l); [reflexivity|].
    unfold cache_remove. cbn [List.filter].
    replace (path_eqb k k) with true; [reflexivity|].
    symmetry. apply path_eqb_eq. reflexivity.
  - assert (E : path_eqb k a = false).
    { apply not_true_is_false. intros E. apply path_eqb_eq in E. congruence. }
    destruct (in_dec Path_eq_dec a (l ++ [k])) as [Hin | Hn];
      destruct (in_dec Path_eq_dec a l) as [Hin' | Hn'].
    + exact IH.
    + exfalso. apply in_app_or in Hin. destruct Hin as [H | [H | []]];
        [contradiction | congruence].
    + exfalso. apply Hn, in_or_app. left. exact Hin'.
    + unfold cache_remove. cbn [List.filter]. rewrite E. cbn [negb app].
      f_equal. exact IH.
Qed.

Lemma cache_remove_rev (k : Path) (l : list Path) :
  cache_remove k (rev l) = rev (cache_remove k l).
Proof.
  unfold cache_remove. induction l as [|a l IH]; [reflexivity|].
  cbn [rev List.filter]. rewrite List.filter_app, IH. cbn [List.filter].
  destruct (negb (path_eqb k a)); [reflexivity | apply app_nil_r].
Qed.

Lemma by_last_use_snoc (k : Path) (l : list Path) :
  by_last_use (l ++ [k]) = k :: cache_remove k (by_last_use l).
Proof.
  unfold by_last_use. rewrite nodup_snoc, rev_app_distr, cache_remove_rev.
  reflexivity.
Qed.

Lemma by_last_use_NoDup (l : list Path) : List.NoDup (by_last_use l).
Proof. apply List.NoDup_rev, List.NoDup_nodup. Qed.

Lemma firstn_In_list {X} (x : X) (l : list X) :
  forall n, In x (firstn n l) -> In x l.
Proof.
  induction l as [|a l IH]; intros [|n] H; try destruct H.
  - left. assumption.
  - right. eapply IH. eassumption.
Qed.

Lemma firstn_In_succ {X} (x : X) (l : list X) :
  forall n, In x (firstn n l) -> In x (firstn (S n) l).
Proof.
  induction l as [|a l IH]; intros [|n] H; try destruct H.
  - left. assumption.
  - right. apply IH. assumption.
Qed.

(** Removing a key that is among the first [S n] of a list without
    repetition. *)
Lemma cache_remove_firstn_in (k : Path) (d : list Path) :
  List.NoDup d ->
  forall n, In k (firstn (S n) d) ->
            cache_remove k (firstn (S n) d) = firstn n (cache_remove k d).
Proof.
  induction 1 as [|a d Ha Hnd IH]; intros n Hin; [destruct Hin|].
  cbn [firstn] in *. destruct (Path_eq_dec a k) as [-> | Hak].
  - unfold cache_remove at 1 2. cbn [List.filter].
    replace (path_eqb k k) with true
      by (symmetry; apply path_eqb_eq; reflexivity).
    cbn [negb]. fold (cache_remove k (firstn n d)). fold (cache_remove k d).
    rewrite !cache_remove_notin; [reflexivity | exact Ha |].
    intros H. apply Ha. eapply firstn_In_list. exact H.
  - destruct Hin as [E | Hin]; [congruence|].
    assert (E : path_eqb k a = false).
    { apply not_true_is_false. intros E. apply path_eqb_eq in E. congruence. }
    unfold cache_remove at 1 2. cbn [List.filter]. rewrite E. cbn [negb].
    fold (cache_remove k (firstn n d)). fold (cache_remove k d).
    destruct n as [|n]; [destruct Hin|].
    rewrite IH by exact Hin. reflexivity.
Qed.

(** Removing a key that is not among the first [n]. *)
Lemma firstn_cache_remove_notin (k : Path) (d : list Path) :
  forall n, ~ In k (firstn n d) ->
            firstn n (cache_remove k d) = firstn n d.
Proof.
  induction d as [|a d IH]; intros n Hn; [reflexivity|].
  destruct n as [|n]; [reflexivity|]. cbn [firstn] in *.
  assert (E : path_eqb k a = false).
  { apply not_true_is_false. intros E. apply path_eqb_eq in E.
    apply Hn. left. congruence. }
  unfold cache_remove. cbn [List.filter]. rewrite E. cbn [negb firstn].
  f_equal. apply IH. intros H. apply Hn. right. exact H.
Qed.

(** One call, on a cache that holds the first [S m] files of [d]. *)
Lemma lru_step_firstn (m : nat) (k : Path) (d : list Path) :
  maxsize = S m ->
  List.NoDup d ->
  (if cache_mem k (firstn maxsize d) then cache_hit k (firstn maxsize d)
   else cache_miss k (firstn maxsize d))
  = firstn maxsize (k :: cache_remove k d).
Proof.
  intros Hm Hnd. unfold cache_hit, cache_miss. rewrite Hm.
  cbn [firstn]. fold (firstn (S m) d).
  destruct (cache_mem k (firstn (S m) d)) eqn:E.
  - f_equal. apply cache_remove_firstn_in; [exact Hnd|].
    apply cache_mem_In. exact E.
  - assert (Hn : ~ In k (firstn (S m) d)) by (apply cache_mem_false; exact E).
    f_equal. rewrite List.length_firstn.
    destruct (Nat.ltb_spec (Nat.min (S m) (length d)) (S m)) as [Hlt | Hge].
    + assert (Hall : firstn (S m) d = d) by (apply List.firstn_all2; lia).
      rewrite Hall in *. rewrite cache_remove_notin by exact Hn.
      symmetry. apply List.firstn_all2. lia.
    + rewrite List.removelast_firstn by lia.
      symmetry. apply firstn_cache_remove_notin.
      intros H. apply Hn. apply firstn_In_succ. exact H.
Qed.

Lemma run_all_snoc {A} (op : ManagedFile -> M A) (files : list ManagedFile)
    (f : ManagedFile) :
  forall st, run_all op (files ++ [f]) st = snd (op f (run_all op files st)).
Proof.
  induction files as [|g files IH]; intros st; [reflexivity|].
  simpl. apply IH.
Qed.

Section CacheContents.

Context {A : Type}.
Variable get : State -> list Path.
Variable set : list Path -> State -> State.
Variable body : ManagedFile -> M A.
Variable cached : ManagedFile -> M A.

Hypothesis cached_def :
  forall f, cached f = lru_cache get set (path_of f) (body f).
Hypothesis get_set : forall c st, get (set c st) = c.
Hypothesis log_set : forall c st, log (set c st) = log st.
Hypothesis body_get : forall f st, get (snd (body f st)) = get st.
Hypothesis body_log : forall f st,
  exists c, log (snd (body f st)) = log st ++ [c] /\ is_ffprobe c = true.

Lemma cached_holds_most_recent (st : State) (calls : list ManagedFile) :
  get st = [] ->
  get (run_all cached calls st)
  = most_recently_used maxsize (List.map path_of calls).
Proof.
  intros Hempty. induction calls as [|f calls IH] using rev_ind.
  - simpl. rewrite Hempty. reflexivity.
  - rewrite run_all_snoc, List.map_app. cbn [List.map].
    unfold most_recently_used in *. rewrite by_last_use_snoc.
    rewrite <- (lru_step_firstn (pred maxsize)) by
      (first [reflexivity | apply by_last_use_NoDup]).
    rewrite <- IH.
    destruct (cache_mem (path_of f) (get (run_all cached calls st))) eqn:E.
    + exact (proj2 (cached_hit get set body cached cached_def get_set log_set
                      f _ E)).
    + exact (proj2 (cached_miss get set body cached cached_def get_set log_set
                      body_get body_log f _ E)).
Qed.

Lemma cached_probes_again (st : State) (calls : list ManagedFile)
    (f : ManagedFile) :
  get st = [] ->
  ~ In (path_of f) (most_recently_used maxsize (List.map path_of calls)) ->
  length (probe_invocations (snd (cached f (run_all cached calls st))))
  = S (length (probe_invocations (run_all cached calls st))).
Proof.
  intros Hempty Hn. rewrite <- (cached_holds_most_recent st calls Hempty) in Hn.
  apply cache_mem_false in Hn.
  destruct (cached_miss get set body cached cached_def get_set log_set
              body_get body_log f _ Hn) as ((c & Hlog & Hp) & _).
  unfold probe_invocations. rewrite Hlog, filter_app_one, Hp, length_app.
  simpl. lia.
Qed.

End CacheContents.

Lemma is_apng_holds (w : World) (calls : list ManagedFile) (st : State) :
  is_apng_cache st = [] ->
  is_apng_cache (run_all (is_apng w) calls st)
  = most_recently_used maxsize (List.map path_of calls)
  /\ forall f,
       ~ In (path_of f) (most_recently_used maxsize (List.map path_of calls)) ->
       length (probe_invocations
                 (snd (is_apng w f (run_all (is_apng w) calls st))))
       = S (length (probe_invocations (run_all (is_apng w) calls st))).
Proof.
  intros H. split; [|intros f Hf; revert H Hf].
  - revert H. eapply (cached_holds_most_recent is_apng_cache set_is_apng_cache);
      [intros f; reflexivity | reflexivity | reflexivity
      | probe_body | probe_body].
  - eapply (cached_probes_again is_apng_cache set_is_apng_cache);
      [intros g; reflexivity | reflexivity | reflexivity
      | probe_body | probe_body].
Qed.

Lemma get_frame_rate_holds (w : World) (calls : list ManagedFile)
    (st : State) :
  frame_rate_cache st = [] ->
  frame_rate_cache (run_all (get_frame_rate w) calls st)
  = most_recently_used maxsize (List.map path_of calls)
  /\ forall f,
       ~ In (path_of f) (most_recently_used maxsize (List.map path_of calls)) ->
       length (probe_invocations
                 (snd (get_frame_rate w f (run_all (get_frame_rate w) calls st))))
       = S (length (probe_invocations (run_all (get_frame_rate w) calls st))).
Proof.
  intros H. split; [|intros f Hf; revert H Hf].
  - revert H.
    eapply (cached_holds_most_recent frame_rate_cache set_frame_rate_cache);
      [intros f; reflexivity | reflexivity | reflexivity
      | probe_body | probe_body].
  - eapply (cached_probes_again frame_rate_cache set_frame_rate_cache);
      [intros g; reflexivity | reflexivity | reflexivity
      | probe_body | probe_body].
Qed.

Lemma get_duration_holds (w : World) (calls : list ManagedFile) (st : State) :
  duration_cache st = [] ->
  duration_cache (run_all (get_duration w) calls st)
  = most_recently_used maxsize (List.map path_of calls)
  /\ forall f,
       ~ In (path_of f) (most_recently_used maxsize (List.map path_of calls)) ->
       length (probe_invocations
                 (snd (get_duration w f (run_all (get_duration w) calls st))))
       = S (length (probe_invocations (run_all (get_duration w) calls st))).
Proof.
  intros H. split; [|intros f Hf; revert H Hf].
  - revert H.
    eapply (cached_holds_most_recent duration_cache set_duration_cache);
      [intros f; reflexivity | reflexivity | reflexivity
      | probe_body | probe_body].
  - eapply (cached_probes_again duration_cache set_duration_cache);
      [intros g; reflexivity | reflexivity | reflexivity
      | probe_body | probe_body].
Qed.

(** C9, as the code has it.  Starting from empty caches, a sequence of calls
    of one cached probe operation that involves at most 128 distinct files
    runs exactly one external probe invocation per distinct file, however
    often each file occurs; and a call for a file that is in the cache runs
    no probe invocation at all.  After any sequence of calls, of however many
    files, the cache of the operation holds the 128 most recently used files
    and no other, the one used last first; a call for a file that is not
    among them, an evicted file included, runs the probe again. *)
Theorem cached_probes_once (w : World) (files : list ManagedFile) (st : State) :
  is_apng_cache st = [] ->
  frame_rate_cache st = [] ->
  duration_cache st = [] ->
  (length (nodup Path_eq_dec (List.map path_of files)) <= maxsize)%nat ->
  (length (probe_invocations (run_all (is_apng w) files st))
   = length (probe_invocations st)
     + length (nodup Path_eq_dec (List.map path_of files))
   /\ length (probe_invocations (run_all (get_frame_rate w) files st))
      = length (probe_invocations st)
        + length (nodup Path_eq_dec (List.map path_of files))
   /\ length (probe_invocations (run_all (get_duration w) files st))
      = length (probe_invocations st)
        + length (nodup Path_eq_dec (List.map path_of files)))%nat
  /\ (forall f st',
        (cache_mem (path_of f) (is_apng_cache st') = true ->
         log (snd (is_apng w f st')) = log st')
        /\ (cache_mem (path_of f) (frame_rate_cache st') = true ->
            log (snd (get_frame_rate w f st')) = log st')
        /\ (cache_mem (path_of f) (duration_cache st') = true ->
            log (snd (get_duration w f st')) = log st'))
  /\ (forall calls : list ManagedFile,
        let used := most_recently_used maxsize (List.map path_of calls) in
        (is_apng_cache (run_all (is_apng w) calls st) = used
         /\ frame_rate_cache (run_all (get_frame_rate w) calls st) = used
         /\ duration_cache (run_all (get_duration w) calls st) = used)
        /\ (forall f,
              ~ In (path_of f) used ->
              length (probe_invocations
                        (snd (is_apng w f (run_all (is_apng w) calls st))))
              = S (length (probe_invocations
                             (run_all (is_apng w) calls st)))
              /\ length (probe_invocations
                           (snd (get_frame_rate w f
                                   (run_all (get_frame_rate w) calls st))))
                 = S (length (probe_invocations
                                (run_all (get_frame_rate w) calls st)))
              /\ length (probe_invocations
                           (snd (get_duration w f
                                   (run_all (get_duration w) calls st))))
                 = S (length (probe_invocations
                                (run_all (get_duration w) calls st))))).
Proof.
  intros Ha Hf Hd Hcap. split; [split; [|split]|split].
  - rewrite is_apng_run_all; rewrite Ha, new_keys_nil_distinct;
      [reflexivity | simpl; lia].
  - rewrite get_frame_rate_run_all; rewrite Hf, new_keys_nil_distinct;
      [reflexivity | simpl; lia].
  - rewrite get_duration_run_all; rewrite Hd, new_keys_nil_distinct;
      [reflexivity | simpl; lia].
  - intros f st'. split; [|split]; intros Hm.
    + unfold is_apng, lru_cache. rewrite Hm. reflexivity.
    + unfold get_frame_rate, lru_cache. rewrite Hm. reflexivity.
    + unfold get_duration, lru_cache. rewrite Hm. reflexivity.
  - intros calls. cbv zeta.
    destruct (is_apng_holds w calls st Ha) as [Ca Pa].
    destruct (get_frame_rate_holds w calls st Hf) as [Cf Pf].
    destruct (get_duration_holds w calls st Hd) as [Cd Pd].
    split; [split; [exact Ca | split; [exact Cf | exact Cd]]|].
    intros f Hn. split; [exact (Pa f Hn) | split; [exact (Pf f Hn) | exact (Pd f Hn)]].
Qed.

Lemma cached_probes_once_witness :
  let w := world_of VIDEO [h264_stream; aac_stream] in
  let a := mkFile 0 "mp4" false in
  let b := mkFile 1 "mp4" false in
  (is_apng_cache initial_state = []
   /\ frame_rate_cache initial_state = []
   /\ duration_cache initial_state = []
   /\ (length (nodup Path_eq_dec (List.map path_of [a; b; a; a; b]))
       <= maxsize)%nat)
  /\ length (probe_invocations
               (run_all (get_duration w) [a; b; a; a; b] initial_state))
     = 2%nat
  /\ duration_cache (run_all (get_duration w) [a; b; a; a; b] initial_state)
     = [path_of b; path_of a].
Proof.
  cbv zeta.
  assert (Hcap : (length (nodup Path_eq_dec
                            (List.map path_of [mkFile 0 "mp4" false;
                                               mkFile 1 "mp4" false;
                                               mkFile 0 "mp4" false;
                                               mkFile 0 "mp4" false;
                                               mkFile 1 "mp4" false]))
                  <= maxsize)%nat) by (vm_compute; lia).
  split; [repeat split; exact Hcap|].
  destruct (cached_probes_once (world_of VIDEO [h264_stream; aac_stream])
              [mkFile 0 "mp4" false; mkFile 1 "mp4" false;
               mkFile 0 "mp4" false; mkFile 0 "mp4" false;
               mkFile 1 "mp4" false]
              initial_state eq_refl eq_refl eq_refl Hcap)
    as ((_ & _ & Hcount) & _ & Hused).
  split; [exact Hcount|].
  destruct (Hused [mkFile 0 "mp4" false; mkFile 1 "mp4" false;
                   mkFile 0 "mp4" false; mkFile 0 "mp4" false;
                   mkFile 1 "mp4" false]) as ((_ & _ & Hcache) & _).
  exact Hcache.
Defined.

(** C9 fails twice.  The second call for a file does not return what the
    first returned: it raises, because the coroutine the cache hands out has
    been awaited already.  And the cache keeps 128 files only: after calls
    for 129 files the first one has been evicted, and a further call for it
    runs the probe a second time. *)
Lemma cached_probe_repeated_call_differs :
  let w := world_of VIDEO [h264_stream; aac_stream] in
  let f := mkFile 0 "mp4" false in
  (fst (get_duration w f initial_state) = Return (10 # 1)
   /\ fst (get_duration w f (snd (get_duration w f initial_state)))
      = Raise (RuntimeError "cannot reuse already awaited coroutine")
   /\ fst (get_frame_rate w f (snd (get_frame_rate w f initial_state)))
      = Raise (RuntimeError "cannot reuse already awaited coroutine")
   /\ fst (is_apng w f (snd (is_apng w f initial_state)))
      = Raise (RuntimeError "cannot reuse already awaited coroutine"))
  /\ (length (nodup Path_eq_dec
                (List.map path_of (numbered_files 129 ++ [f]))) = 129
      /\ length (probe_invocations
                   (run_all (get_duration w) (numbered_files 129 ++ [f])
                      initial_state)) = 130)%nat.
Proof.
  cbv zeta. split.
  - repeat split.
  - split; vm_compute; reflexivity.
Qed.

(** * Properties of the context media resolver *)

Lemma process_results_appends (embed : Embed) (results : list TaskResult) :
  forall acc l,
    process_results embed results acc = Return l ->
    exists found, l = acc ++ found /\ Forall (embed_candidate embed) found.
Proof.
  induction results as [|r rs IH]; intros acc l H; simpl in H.
  - injection H as <-. exists []. rewrite app_nil_r. split; constructor.
  - assert (Hkeep : forall l0, process_results embed rs acc = Return l0 ->
              exists found, l0 = acc ++ found
                            /\ Forall (embed_candidate embed) found)
      by (intros l0 H0; exact (IH _ _ H0)).
    assert (Hadd : forall c l0, embed_candidate embed c ->
              process_results embed rs (acc ++ [c]) = Return l0 ->
              exists found, l0 = acc ++ found
                            /\ Forall (embed_candidate embed) found).
    { intros c l0 Hc H0. destruct (IH _ _ H0) as (found & -> & Hf).
      exists (c :: found). rewrite <- app_assoc. split; [reflexivity|].
      constructor; assumption. }
    destruct r as [[| |[url|]]|n| |]; try discriminate H.
    + exact (Hkeep _ H).
    + apply (Hadd (TenorUrl url) l); [left; eauto | exact H].
    + destruct (truthy (Length n));
        [apply (Hadd (Url (embed_url embed)) l); [right; reflexivity | exact H]
        | exact (Hkeep _ H)].
    + exact (Hkeep _ H).
    + apply (Hadd (Url (embed_url embed)) l); [right; reflexivity | exact H].
Qed.

(** C5, as the code has it.  The list [handlemessagesave] returns for one
    message is made of three consecutive parts: first what the embed stage
    found, then the URLs of the attachments that are not plain text, then
    the URLs of the stickers that are not lottie.  So every embed candidate
    precedes every attachment candidate, and every attachment candidate
    precedes every sticker candidate. *)
Theorem handlemessagesave_order (net : Net) (m : Message)
    (ignoreatts : option (list Attachment)) (l : list Candidate) :
  handlemessagesave net m ignoreatts = Return l ->
  exists origin from_embeds from_attachments from_stickers,
    thread_origin m = Return origin
    /\ l = from_embeds ++ from_attachments ++ from_stickers
    /\ process_embeds net origin [] = Return from_embeds
    /\ Forall (embed_stage_candidate origin) from_embeds
    /\ Forall (attachment_candidate origin) from_attachments
    /\ Forall (sticker_candidate origin) from_stickers.
Proof.
  unfold handlemessagesave. intros H.
  destruct (thread_origin m) as [origin|e]; [|discriminate H].
  destruct (process_embeds net origin []) as [le|e] eqn:He; [|discriminate H].
  injection H as <-.
  exists origin, le.
  exists (if nonempty (attachments origin) && attachments_gate origin ignoreatts
          then List.map (fun att => Url (att_url att))
                 (List.filter
                    (fun att => negb (txt_file_match (att_filename att)))
                    (attachments origin))
          else []).
  exists (if nonempty (stickers origin)
          then List.map (fun sticker => Url (sticker_url sticker))
                 (List.filter
                    (fun sticker => negb (is_lottie (sticker_format sticker)))
                    (stickers origin))
          else []).
  split; [reflexivity|]. split; [|split; [exact He|split; [|split]]].
  - unfold process_stickers, process_attachments.
    destruct (nonempty (attachments origin)
              && attachments_gate origin ignoreatts);
      destruct (nonempty (stickers origin));
      simpl; rewrite ?app_nil_r, <- ?app_assoc; reflexivity.
  - unfold process_embeds in He.
    destruct (rev (embeds origin)) as [|embed rest] eqn:Hrev.
    + injection He as <-. constructor.
    + apply process_results_appends in He.
      destruct He as (found & -> & Hf). simpl.
      assert (Hin : In embed (embeds origin)).
      { apply in_rev. rewrite Hrev. left. reflexivity. }
      eapply List.Forall_impl; [|exact Hf].
      intros c [Hc | Hc]; [left; exact Hc | right; eauto].
  - destruct (nonempty (attachments origin)
              && attachments_gate origin ignoreatts); [|constructor].
    apply List.Forall_forall. intros c Hc. apply in_map_iff in Hc.
    destruct Hc as (att & <- & Hatt). apply filter_In in Hatt.
    destruct Hatt as (Hin & Htxt). exists att.
    split; [exact Hin|]. split; [|reflexivity].
    apply negb_true_iff. exact Htxt.
  - destruct (nonempty (stickers origin)); [|constructor].
    apply List.Forall_forall. intros c Hc. apply in_map_iff in Hc.
    destruct Hc as (sticker & <- & Hs). apply filter_In in Hs.
    destruct Hs as (Hin & Hfmt). exists sticker.
    split; [exact Hin|]. split; [|reflexivity].
    intros E. rewrite E in Hfmt. discriminate Hfmt.
Qed.

Lemma handlemessagesave_order_witness :
  handlemessagesave net_ok mixed_message None
  = Return [Url "https://img.example/photo.jpg";
            Url "https://img.example/photo.jpg";
            Url "https://cdn.example/cat.png";
            Url "https://cdn.example/wave.png"]
  /\ exists origin from_embeds from_attachments from_stickers,
      thread_origin mixed_message = Return origin
      /\ [Url "https://img.example/photo.jpg";
          Url "https://img.example/photo.jpg";
          Url "https://cdn.example/cat.png";
          Url "https://cdn.example/wave.png"]
         = from_embeds ++ from_attachments ++ from_stickers
      /\ process_embeds net_ok origin [] = Return from_embeds
      /\ Forall (embed_stage_candidate origin) from_embeds
      /\ Forall (attachment_candidate origin) from_attachments
      /\ Forall (sticker_candidate origin) from_stickers.
Proof.
  split; [reflexivity|].
  apply (handlemessagesave_order net_ok mixed_message None). reflexivity.
Defined.

(** C5 fails: in the list returned for a message that has an image embed, an
    attachment and a sticker, the embed's URL comes first; neither the
    attachment candidate nor the sticker candidate precedes it. *)
Lemma handlemessagesave_embeds_first :
  exists l,
    handlemessagesave net_ok mixed_message None = Return l
    /\ nth_error l 0 = Some (Url (embed_url photo_embed))
    /\ nth_error l 2 = Some (Url (att_url cat_png))
    /\ nth_error l 3 = Some (Url (sticker_url wave_sticker))
    /\ ~ precedes (Url (att_url cat_png)) (Url (embed_url photo_embed)) l
    /\ ~ precedes (Url (sticker_url wave_sticker))
                  (Url (embed_url photo_embed)) l.
Proof.
  eexists. split; [reflexivity|]. repeat split.
  - intros H. specialize (H 2%nat 0%nat eq_refl eq_refl). lia.
  - intros H. specialize (H 3%nat 0%nat eq_refl eq_refl). lia.
Qed.

(** C4 fails.  With two attachments on the triggering message and the first
    of them in [ignore], [imagesearch] still returns the URL of the ignored
    one: the test on [ignoreatts] lets all attachments through as soon as one
    of them is not ignored.  Only when every attachment of the message is
    ignored are they left out. *)
Theorem imagesearch_returns_ignored_attachment :
  let m := mkMessage 10 default [] [cat_png; dog_png] [] None in
  let ctx := mkContext m [] in
  att_in cat_png [cat_png] = true
  /\ imagesearch net_ok ctx 2 (Some [cat_png])
     = Return (Files [Url (att_url cat_png); Url (att_url dog_png)])
  /\ imagesearch net_ok ctx 1 (Some [cat_png])
     = Return (Files [Url (att_url cat_png)])
  /\ imagesearch net_ok ctx 2 (Some [cat_png; dog_png]) = Return PyFalse.
Proof. cbv zeta. repeat split; vm_compute; reflexivity. Qed.

Lemma unseen_length (hist : list Message) :
  forall seen_messages, (length (unseen hist seen_messages) <= length hist)%nat.
Proof.
  induction hist as [|m rest IH]; intros seen; simpl; [lia|].
  destruct (bool_decide (msg_id m ∈ seen)); simpl.
  - specialize (IH seen). lia.
  - specialize (IH ({[msg_id m]} ∪ seen)). lia.
Qed.

(** The walk stops at 52 messages at most, however long the channel is. *)
Lemma bounded_walk_length (ctx : Context) (ignore : option (list Attachment)) :
  (length (bounded_walk ctx ignore) <= 52)%nat.
Proof.
  assert (H : forall seen, (length (unseen (history ctx 50) seen) <= 50)%nat).
  { intros seen. pose proof (unseen_length (history ctx 50) seen) as H.
    unfold history in *. rewrite length_firstn in H. lia. }
  unfold bounded_walk.
  destruct (reference (message ctx)) as [[|id|ref_msg]|]; simpl;
    rewrite ?length_map;
    try (specialize (H {[msg_id (message ctx)]}); lia);
    try (specialize (H ({[msg_id ref_msg]} ∪ {[msg_id (message ctx)]})); lia);
    lia.
Qed.

Lemma slice_to_enough (outfiles : list Candidate) (nargs : Z) :
  1 <= nargs -> enough outfiles nargs = true ->
  slice_to outfiles nargs <> []
  /\ Z.of_nat (length (slice_to outfiles nargs)) <= nargs.
Proof.
  unfold enough, slice_to. intros Hn He. apply Z.leb_le in He.
  replace (0 <=? nargs) with true by (symmetry; apply Z.leb_le; lia).
  split.
  - destruct outfiles as [|c cs]; [simpl in He; lia|].
    destruct (Z.to_nat nargs) eqn:E; [lia|]. discriminate.
  - rewrite length_firstn. lia.
Qed.

Lemma not_enough_nil (nargs : Z) : 1 <= nargs -> enough [] nargs = false.
Proof. intros H. unfold enough. simpl. apply Z.leb_gt. lia. Qed.

Lemma search_history_spec (net : Net) (nargs : Z) (hist : list Message) :
  1 <= nargs ->
  forall seen_messages outfiles,
    enough outfiles nargs = false ->
    (search_history net nargs hist seen_messages outfiles = Return PyFalse
     <-> outfiles = []
         /\ Forall (fun m => handlemessagesave net m None = Return [])
                   (unseen hist seen_messages))
    /\ (forall l,
          search_history net nargs hist seen_messages outfiles
          = Return (Files l) ->
          l <> [] /\ Z.of_nat (length l) <= nargs).
Proof.
  intros Hn. induction hist as [|m rest IH]; intros seen outfiles Hlt.
  - simpl. destruct outfiles as [|c cs]; simpl.
    + split; [split; [intros _; split; [reflexivity | constructor]
                     | reflexivity]|].
      intros l H. discriminate H.
    + split; [split; [discriminate | intros [H _]; discriminate H]|].
      intros l [= <-]. split; [discriminate|].
      unfold enough in Hlt. apply Z.leb_gt in Hlt. lia.
  - simpl. destruct (bool_decide (msg_id m ∈ seen)); [apply IH; exact Hlt|].
    destruct (handlemessagesave net m None) as [found|e] eqn:Hm.
    + destruct (enough (outfiles ++ found) nargs) eqn:He.
      * split.
        -- split; [discriminate|]. intros [-> Hall]. exfalso.
           inversion Hall as [|? ? Hfound _]; subst.
           rewrite Hm in Hfound. injection Hfound as ->.
           simpl in He. congruence.
        -- intros l [= <-]. apply slice_to_enough; assumption.
      * destruct (IH ({[msg_id m]} ∪ seen) (outfiles ++ found) He)
          as [Hiff Hfiles].
        split; [|exact Hfiles]. rewrite Hiff. split.
        -- intros [Happ Hall]. apply app_eq_nil in Happ.
           destruct Happ as [-> ->]. split; [reflexivity|].
           constructor; [exact Hm | exact Hall].
        -- intros [-> Hall]. inversion Hall as [|? ? Hfound Hrest]; subst.
           rewrite Hm in Hfound. injection Hfound as ->.
           split; [reflexivity | exact Hrest].
    + split.
      * split; [discriminate|]. intros [_ Hall].
        inversion Hall as [|? ? Hfound _]; subst. congruence.
      * intros l H. discriminate H.
Qed.

Lemma Forall_visit_messages (net : Net) (ms : list Message) :
  nothing_found net (List.map (fun m => VisitMessage m None) ms)
  <-> Forall (fun m => handlemessagesave net m None = Return []) ms.
Proof. unfold nothing_found. rewrite List.Forall_map. reflexivity. Qed.

(** C6.  For every count of at least 1: [imagesearch] returns [False]
    exactly when no stop of the whole bounded walk yields a candidate, and a
    list it returns is never empty and never longer than the count. *)
Theorem imagesearch_result (net : Net) (ctx : Context) (nargs : Z)
    (ignore : option (list Attachment)) :
  1 <= nargs ->
  (imagesearch net ctx nargs ignore = Return PyFalse
   <-> nothing_found net (bounded_walk ctx ignore))
  /\ (forall l, imagesearch net ctx nargs ignore = Return (Files l) ->
        l <> [] /\ Z.of_nat (length l) <= nargs).
Proof.
  intros Hn. unfold imagesearch, bounded_walk, nothing_found.
  destruct (handlemessagesave net (message ctx) ignore) as [found|e] eqn:H0.
  2:{ split; [split; [discriminate|]|intros l H; discriminate H].
      intros Hall. inversion Hall as [|? ? Hv _]; subst. simpl in Hv.
      congruence. }
  destruct (enough found nargs) eqn:He0.
  { split.
    - split; [discriminate|]. intros Hall. exfalso.
      inversion Hall as [|? ? Hv _]; subst. simpl in Hv.
      rewrite H0 in Hv. injection Hv as ->.
      rewrite not_enough_nil in He0 by exact Hn. discriminate He0.
    - intros l [= <-]. apply slice_to_enough; assumption. }
  assert (Hhead : forall rest,
            Forall (fun v => visit net v = Return [])
                   (VisitMessage (message ctx) ignore :: rest)
            <-> found = [] /\ Forall (fun v => visit net v = Return []) rest).
  { intros rest. split.
    - intros Hall. inversion Hall as [|? ? Hv Hrest]; subst. simpl in Hv.
      rewrite H0 in Hv. injection Hv as ->. split; [reflexivity | exact Hrest].
    - intros [-> Hrest]. constructor; [exact H0 | exact Hrest]. }
  destruct (reference (message ctx)) as [[|id|ref_msg]|].
  - destruct (search_history_spec net nargs (history ctx 50) Hn
                {[msg_id (message ctx)]} found He0) as [Hiff Hfiles].
    split; [|exact Hfiles].
    rewrite Hiff, Hhead.
    split; intros [-> Hall]; (split; [reflexivity|]);
      apply Forall_visit_messages; exact Hall.
  - split; [|intros l H; discriminate H].
    split; [discriminate|]. rewrite Hhead. intros [_ Hall].
    inversion Hall as [|? ? Hv _]; subst. discriminate Hv.
  - destruct (handlemessagesave net ref_msg None) as [found'|e] eqn:H1.
    2:{ split; [split; [discriminate|]|intros l H; discriminate H].
        rewrite Hhead. intros [_ Hall].
        inversion Hall as [|? ? Hv _]; subst. simpl in Hv. congruence. }
    destruct (enough (found ++ found') nargs) eqn:He1.
    { split.
      - split; [discriminate|]. rewrite Hhead. intros [-> Hall]. exfalso.
        inversion Hall as [|? ? Hv _]; subst. simpl in Hv.
        rewrite H1 in Hv. injection Hv as ->. simpl in He1. congruence.
      - intros l [= <-]. apply slice_to_enough; assumption. }
    destruct (search_history_spec net nargs (history ctx 50) Hn
                ({[msg_id ref_msg]} ∪ {[msg_id (message ctx)]})
                (found ++ found') He1) as [Hiff Hfiles].
    split; [|exact Hfiles].
    rewrite Hiff, Hhead. split.
    + intros [Happ Hall]. apply app_eq_nil in Happ. destruct Happ as [-> ->].
      split; [reflexivity|]. constructor; [exact H1|].
      apply Forall_visit_messages. exact Hall.
    + intros [-> Hall]. inversion Hall as [|? ? Hv Hrest]; subst.
      simpl in Hv. rewrite H1 in Hv. injection Hv as ->.
      split; [reflexivity|]. apply Forall_visit_messages. exact Hrest.
  - destruct (search_history_spec net nargs (history ctx 50) Hn
                {[msg_id (message ctx)]} found He0) as [Hiff Hfiles].
    split; [|exact Hfiles].
    rewrite Hiff, Hhead.
    split; intros [-> Hall]; (split; [reflexivity|]);
      apply Forall_visit_messages; exact Hall.
Qed.

Lemma imagesearch_result_witness :
  1 <= 1
  /\ (imagesearch net_ok command_context 1 None = Return PyFalse
      <-> nothing_found net_ok (bounded_walk command_context None))
  /\ (forall l, imagesearch net_ok command_context 1 None = Return (Files l) ->
        l <> [] /\ Z.of_nat (length l) <= 1).
Proof.
  split; [lia|].
  apply (imagesearch_result net_ok command_context 1 None). lia.
Defined.

Example imagesearch_history :
  imagesearch net_ok command_context 1 None
  = Return (Files [Url "https://img.example/photo.jpg"]).
Proof. vm_compute. reflexivity. Qed.

Example imagesearch_fewer_than_asked :
  imagesearch net_ok command_context 9 None
  = Return (Files [Url "https://img.example/photo.jpg";
                   Url "https://img.example/photo.jpg";
                   Url "https://cdn.example/cat.png";
                   Url "https://cdn.example/wave.png"]).
Proof. vm_compute. reflexivity. Qed.

Example tenor_url_fullmatch_slug :
  tenor_url_fullmatch "https://tenor.com/view/cat-dance-12345" = Some "12345"
  /\ tenor_url_fullmatch "http://tenor.com/view/12345/" = Some "12345"
  /\ tenor_url_fullmatch "https://tenor.com/view/cat-dance" = None.
Proof. repeat split. Qed.

Example txt_file_match_suffix :
  txt_file_match "traceback.TXT" = true /\ txt_file_match "cat.png" = false.
Proof. split; reflexivity. Qed.

(** * Further properties of the prober *)

Lemma va_fold (ss : list Stream) :
  forall v a,
    fold_left va_step ss (v, a)
    = (match v with Some _ => v | None => first_codec "video" ss end,
       match a with Some _ => a | None => first_codec "audio" ss end).
Proof.
  induction ss as [|s rest IH]; intros v a.
  - destruct v, a; reflexivity.
  - cbn [fold_left]. unfold va_step at 2.
    unfold first_codec, select_streams. cbn [List.filter].
    destruct (String.eqb (codec_type s) "video") eqn:Ev.
    + apply String.eqb_eq in Ev.
      assert (Ea : String.eqb (codec_type s) "audio" = false)
        by (rewrite Ev; reflexivity).
      rewrite Ea. destruct v as [v|]; cbn [is_None andb].
      * rewrite IH. reflexivity.
      * rewrite IH. reflexivity.
    + cbn [andb]. destruct (String.eqb (codec_type s) "audio") eqn:Ea.
      * destruct a as [a|]; cbn [is_None andb]; rewrite IH; reflexivity.
      * cbn [andb]. rewrite IH. reflexivity.
Qed.

(** X1.  On a file with at least one stream [va_codecs] reports the codec
    names of the first video stream and of the first audio stream, the same
    streams [get_vcodec] and [get_acodec] return; a type that is absent is
    reported as [None]. *)
Theorem va_codecs_first_streams (w : World) (filename : ManagedFile)
    (st : State) (ss : list Stream) :
  (forall c, exit_ok w c = true) ->
  streams w (path_of filename) = Some ss ->
  ss <> [] ->
  exists vc ac,
    fst (get_vcodec w filename st) = Return vc
    /\ fst (get_acodec w filename st) = Return ac
    /\ fst (va_codecs w filename st)
       = Return (Some (option_map codec_name vc, option_map codec_name ac)).
Proof.
  intros Hok Hss Hne.
  exists (match select_streams "video" ss with s :: _ => Some s | [] => None end).
  exists (match select_streams "audio" ss with s :: _ => Some s | [] => None end).
  split; [|split].
  - unfold get_vcodec, bind, run_command, json_streams. rewrite Hok, Hss.
    unfold ret at 1. destruct (select_streams "video" ss); reflexivity.
  - unfold get_acodec, bind, run_command, json_streams. rewrite Hok, Hss.
    unfold ret at 1. destruct (select_streams "audio" ss); reflexivity.
  - unfold va_codecs, bind, run_command, json_streams. rewrite Hok, Hss.
    unfold ret at 1. destruct ss as [|s0 ss0]; [congruence|].
    rewrite va_fold. unfold first_codec, ret.
    destruct (select_streams "video" (s0 :: ss0));
      destruct (select_streams "audio" (s0 :: ss0)); reflexivity.
Qed.

Lemma va_codecs_first_streams_witness :
  let w := world_of VIDEO [aac_stream; h264_stream; gif_stream] in
  let filename := mkFile 0 "mkv" false in
  ((forall c, exit_ok w c = true)
   /\ streams w (path_of filename) = Some [aac_stream; h264_stream; gif_stream]
   /\ [aac_stream; h264_stream; gif_stream] <> [])
  /\ exists vc ac,
      fst (get_vcodec w filename initial_state) = Return vc
      /\ fst (get_acodec w filename initial_state) = Return ac
      /\ fst (va_codecs w filename initial_state)
         = Return (Some (option_map codec_name vc, option_map codec_name ac)).
Proof.
  cbv zeta. split; [repeat split; discriminate|].
  apply (va_codecs_first_streams
           (world_of VIDEO [aac_stream; h264_stream; gif_stream])
           (mkFile 0 "mkv" false) initial_state
           [aac_stream; h264_stream; gif_stream]);
    [reflexivity | reflexivity | discriminate].
Defined.

Example va_codecs_mixed_streams :
  fst (va_codecs (world_of VIDEO [aac_stream; h264_stream; gif_stream])
         (mkFile 0 "mkv" false) initial_state)
  = Return (Some (Some "h264", Some "aac")).
Proof. reflexivity. Qed.

(** After a call the key is in the cache, whether the call hit or missed. *)
Lemma lru_cache_leaves_key {A} (get : State -> list Path)
    (set : list Path -> State -> State) (k : Path) (body : M A) (st : State) :
  (forall c s, get (set c s) = c) ->
  (forall s, get (snd (body s)) = get s) ->
  cache_mem k (get (snd (lru_cache get set k body st))) = true.
Proof.
  intros Hgs Hb. unfold lru_cache. destruct (cache_mem k (get st)).
  - simpl. rewrite Hgs. apply cache_mem_In. left. reflexivity.
  - rewrite Hb, Hgs. apply cache_mem_In. left. reflexivity.
Qed.

Ltac probe_keeps :=
  intros ?; cbv beta;
  rewrite probe_then_state by (intros ?; preserves_tac); reflexivity.

(** X2.  A cached probe operation cannot be called twice in a row for the
    same file: whatever the first call did (returned, or raised), the next
    call for that file raises [RuntimeError] and runs no probe. *)
Theorem cached_probe_second_call_raises (w : World) (filename : ManagedFile)
    (st : State) :
  let again := RuntimeError "cannot reuse already awaited coroutine" in
  (let st1 := snd (is_apng w filename st) in
   fst (is_apng w filename st1) = Raise again
   /\ log (snd (is_apng w filename st1)) = log st1)
  /\ (let st1 := snd (get_frame_rate w filename st) in
      fst (get_frame_rate w filename st1) = Raise again
      /\ log (snd (get_frame_rate w filename st1)) = log st1)
  /\ (let st1 := snd (get_duration w filename st) in
      fst (get_duration w filename st1) = Raise again
      /\ log (snd (get_duration w filename st1)) = log st1).
Proof.
  cbv zeta. split; [|split].
  - assert (H : cache_mem (path_of filename)
                  (is_apng_cache (snd (is_apng w filename st))) = true).
    { unfold is_apng at 1. apply lru_cache_leaves_key;
        [reflexivity | probe_keeps]. }
    set (st1 := snd (is_apng w filename st)) in *.
    unfold is_apng, lru_cache. rewrite H. split; reflexivity.
  - assert (H : cache_mem (path_of filename)
                  (frame_rate_cache (snd (get_frame_rate w filename st))) = true).
    { unfold get_frame_rate at 1. apply lru_cache_leaves_key;
        [reflexivity | probe_keeps]. }
    set (st1 := snd (get_frame_rate w filename st)) in *.
    unfold get_frame_rate, lru_cache. rewrite H. split; reflexivity.
  - assert (H : cache_mem (path_of filename)
                  (duration_cache (snd (get_duration w filename st))) = true).
    { unfold get_duration at 1. apply lru_cache_leaves_key;
        [reflexivity | probe_keeps]. }
    set (st1 := snd (get_duration w filename st)) in *.
    unfold get_duration, lru_cache. rewrite H. split; reflexivity.
Qed.

Lemma removelast_In {A} (x : A) (l : list A) :
  In x (removelast l) -> In x l.
Proof.
  induction l as [|a l IH]; [intros []|].
  destruct l as [|b l]; [intros []|].
  intros [<- | H]; [left; reflexivity | right; apply IH; exact H].
Qed.

Lemma removelast_NoDup {A} (l : list A) :
  List.NoDup l -> List.NoDup (removelast l).
Proof.
  induction l as [|a l IH]; intros H; [constructor|].
  destruct l as [|b l]; [constructor|].
  inversion H as [|? ? Ha Hl]; subst.
  change (List.NoDup (a :: removelast (b :: l))). constructor.
  - intros Hin. apply Ha. apply removelast_In. exact Hin.
  - apply IH. exact Hl.
Qed.

Lemma removelast_length {A} (l : list A) :
  length (removelast l) = (length l - 1)%nat.
Proof.
  induction l as [|a l IH]; [reflexivity|].
  destruct l as [|b l]; [reflexivity|].
  change (S (length (removelast (b :: l))) = (length (a :: b :: l) - 1)%nat).
  rewrite IH. simpl. lia.
Qed.

Lemma cache_hit_ok (k : Path) (c : list Path) :
  In k c -> cache_ok c -> cache_ok (cache_hit k c).
Proof.
  intros Hin [Hnd Hlen]. unfold cache_hit, cache_ok. split.
  - constructor.
    + unfold cache_remove. rewrite filter_In. intros [_ H].
      assert (E : path_eqb k k = true) by (apply path_eqb_eq; reflexivity).
      rewrite E in H. discriminate H.
    + apply List.NoDup_filter. exact Hnd.
  - simpl. pose proof (cache_remove_length k c Hin). lia.
Qed.

Lemma cache_miss_ok (k : Path) (c : list Path) :
  ~ In k c -> cache_ok c -> cache_ok (cache_miss k c).
Proof.
  intros Hnin [Hnd Hlen]. unfold cache_miss, cache_ok.
  destruct (length c <? maxsize)%nat eqn:E.
  - apply Nat.ltb_lt in E. split; [constructor; assumption | simpl; lia].
  - split.
    + constructor.
      * intros H. apply Hnin. apply removelast_In. exact H.
      * apply removelast_NoDup. exact Hnd.
    + simpl. rewrite removelast_length. unfold maxsize in *. lia.
Qed.

Lemma lru_cache_ok {A} (get : State -> list Path)
    (set : list Path -> State -> State) (k : Path) (body : M A) (st : State) :
  (forall c s, get (set c s) = c) ->
  (forall s, get (snd (body s)) = get s) ->
  cache_ok (get st) ->
  cache_ok (get (snd (lru_cache get set k body st))).
Proof.
  intros Hgs Hb Hok. unfold lru_cache.
  destruct (cache_mem k (get st)) eqn:E.
  - simpl. rewrite Hgs. apply cache_hit_ok; [apply cache_mem_In, E | exact Hok].
  - rewrite Hb, Hgs. apply cache_miss_ok; [apply cache_mem_false, E | exact Hok].
Qed.

(** X3.  Each cache stays within its 128 keys and never holds a key twice:
    a call of a cached probe operation, hit or miss, returning or raising,
    keeps both facts, and touches neither of the other two caches. *)
Theorem cached_probe_keeps_cache_ok (w : World) (filename : ManagedFile)
    (st : State) :
  cache_ok (is_apng_cache st) ->
  cache_ok (frame_rate_cache st) ->
  cache_ok (duration_cache st) ->
  (cache_ok (is_apng_cache (snd (is_apng w filename st)))
   /\ frame_rate_cache (snd (is_apng w filename st)) = frame_rate_cache st
   /\ duration_cache (snd (is_apng w filename st)) = duration_cache st)
  /\ (cache_ok (frame_rate_cache (snd (get_frame_rate w filename st)))
      /\ is_apng_cache (snd (get_frame_rate w filename st)) = is_apng_cache st
      /\ duration_cache (snd (get_frame_rate w filename st)) = duration_cache st)
  /\ (cache_ok (duration_cache (snd (get_duration w filename st)))
      /\ is_apng_cache (snd (get_duration w filename st)) = is_apng_cache st
      /\ frame_rate_cache (snd (get_duration w filename st))
         = frame_rate_cache st).
Proof.
  intros Ha Hf Hd.
  assert (Hother : forall {A} (get get' : State -> list Path)
            (set : list Path -> State -> State) (body : M A),
            (forall c s, get' (set c s) = get' s) ->
            (forall s, get' (snd (body s)) = get' s) ->
            get' (snd (lru_cache get set (path_of filename) body st)) = get' st).
  { intros A get get' set body Hs Hb. unfold lru_cache.
    destruct (cache_mem (path_of filename) (get st)).
    - simpl. apply Hs.
    - rewrite Hb. apply Hs. }
  split; [|split]; (split; [|split]).
  - unfold is_apng. apply lru_cache_ok; [reflexivity | probe_keeps | exact Ha].
  - unfold is_apng. apply Hother; [reflexivity | probe_keeps].
  - unfold is_apng. apply Hother; [reflexivity | probe_keeps].
  - unfold get_frame_rate.
    apply lru_cache_ok; [reflexivity | probe_keeps | exact Hf].
  - unfold get_frame_rate. apply Hother; [reflexivity | probe_keeps].
  - unfold get_frame_rate. apply Hother; [reflexivity | probe_keeps].
  - unfold get_duration.
    apply lru_cache_ok; [reflexivity | probe_keeps | exact Hd].
  - unfold get_duration. apply Hother; [reflexivity | probe_keeps].
  - unfold get_duration. apply Hother; [reflexivity | probe_keeps].
Qed.

Lemma cache_ok_nil : cache_ok [].
Proof. split; [constructor | simpl; unfold maxsize; lia]. Qed.

Lemma cached_probe_keeps_cache_ok_witness :
  let w := world_of VIDEO [h264_stream] in
  let filename := mkFile 0 "mp4" false in
  (cache_ok (is_apng_cache initial_state)
   /\ cache_ok (frame_rate_cache initial_state)
   /\ cache_ok (duration_cache initial_state))
  /\ cache_ok (duration_cache (snd (get_duration w filename initial_state))).
Proof.
  cbv zeta. split; [repeat split; try constructor; simpl; unfold maxsize; lia|].
  exact (proj1 (proj2 (proj2
           (cached_probe_keeps_cache_ok (world_of VIDEO [h264_stream])
              (mkFile 0 "mp4" false) initial_state
              cache_ok_nil cache_ok_nil cache_ok_nil)))).
Defined.

Lemma frame_delay_nonneg (control : FrameControl) :
  0 <= delay control -> 0 <= delay_den control ->
  (0 <= frame_delay control)%Q.
Proof.
  intros Hd Hden. unfold frame_delay, Qdiv.
  apply Qmult_le_0_compat.
  - change 0%Q with (inject_Z 0). rewrite <- Zle_Qle. exact Hd.
  - apply Qinv_le_0_compat. change 0%Q with (inject_Z 0). rewrite <- Zle_Qle.
    destruct (Z.eqb_spec (delay_den control) 0); lia.
Qed.

Lemma frame_delay_pos (control : FrameControl) :
  0 < delay control -> 0 <= delay_den control ->
  (0 < frame_delay control)%Q.
Proof.
  intros Hd Hden. unfold frame_delay, Qdiv.
  apply Qmult_lt_0_compat.
  - change 0%Q with (inject_Z 0). rewrite <- Zlt_Qlt. exact Hd.
  - apply Qinv_lt_0_compat. change 0%Q with (inject_Z 0). rewrite <- Zlt_Qlt.
    destruct (Z.eqb_spec (delay_den control) 0); lia.
Qed.

Lemma total_delay_nonneg (controls : list FrameControl) :
  Forall (fun control => 0 <= delay control < 65536
                         /\ 0 <= delay_den control < 65536) controls ->
  (0 <= total_delay controls)%Q.
Proof.
  induction 1 as [|c cs [Hd Hden] _ IH]; simpl; [apply Qle_refl|].
  pose proof (frame_delay_nonneg c (proj1 Hd) (proj1 Hden)) as Hc.
  remember (frame_delay c) as x. remember (total_delay cs) as y.
  clear - Hc IH. lra.
Qed.

Lemma total_delay_pos (controls : list FrameControl) :
  Forall (fun control => 0 <= delay control < 65536
                         /\ 0 <= delay_den control < 65536) controls ->
  Exists (fun control => 0 < delay control) controls ->
  (0 < total_delay controls)%Q.
Proof.
  intros Hall Hex. induction Hex as [c cs Hc | c cs _ IH];
    inversion Hall as [|? ? [Hd Hden] Hrest]; subst; simpl.
  - pose proof (frame_delay_pos c Hc (proj1 Hden)) as Hp.
    pose proof (total_delay_nonneg cs Hrest) as Hn.
    remember (frame_delay c) as x. remember (total_delay cs) as y.
    clear - Hp Hn. lra.
  - pose proof (frame_delay_nonneg c (proj1 Hd) (proj1 Hden)) as Hn.
    specialize (IH Hrest).
    remember (frame_delay c) as x. remember (total_delay cs) as y.
    clear - IH Hn. lra.
Qed.

(** X4.  For an animated PNG read for the first time, the frame rate the
    prober reports is the number of frames divided by the very duration it
    reports for the same file: both fallbacks sum the same frame delays.
    The delays and their denominators are 16-bit fields, and some frame has
    a delay that is not zero. *)
Theorem apng_rate_is_count_over_duration (w : World) (filename : ManagedFile)
    (st : State) (ss : list Stream) (s : Stream) (rest : list Stream)
    (controls : list FrameControl) :
  (forall c, exit_ok w c = true) ->
  cache_mem (path_of filename) (frame_rate_cache st) = false ->
  cache_mem (path_of filename) (duration_cache st) = false ->
  streams w (path_of filename) = Some ss ->
  select_streams "video" ss = s :: rest ->
  codec_name s = "apng" ->
  format_duration w (path_of filename) = NA ->
  apng_frames w (path_of filename) = Some (List.map Some controls) ->
  Forall (fun control => 0 <= delay control < 65536
                         /\ 0 <= delay_den control < 65536) controls ->
  Exists (fun control => 0 < delay control) controls ->
  exists duration,
    fst (get_duration w filename st) = Return duration
    /\ fst (get_frame_rate w filename st)
       = Return (inject_Z (Z.of_nat (length controls)) / duration)%Q.
Proof.
  intros Hok Hf Hd Hss Hsel Hc Hna Hfr Hall Hex.
  destruct (sum_delays_total controls 0) as (q & Hq & Heq).
  assert (Hqnz : Qeq_bool q 0 = false).
  { apply not_true_is_false. intros E. apply Qeq_bool_iff in E.
    pose proof (total_delay_pos controls Hall Hex) as Hp.
    rewrite E in Heq. remember (total_delay controls) as y.
    clear - Heq Hp. lra. }
  exists q. split.
  - unfold get_duration, lru_cache. rewrite Hd.
    unfold bind, run_command. rewrite Hok, Hna. unfold lift. simpl fst.
    unfold _get_apng_duration, open_apng. rewrite Hfr. exact Hq.
  - unfold get_frame_rate, lru_cache. rewrite Hf.
    unfold bind at 1, run_command. rewrite Hok.
    unfold bind, json_streams. rewrite Hss. unfold ret at 1. rewrite Hsel.
    rewrite Hc. simpl String.eqb. unfold lift. simpl fst.
    unfold _get_apng_framerate, open_apng. rewrite Hfr, Hq, Hqnz.
    rewrite length_map. reflexivity.
Qed.

Lemma apng_rate_is_count_over_duration_witness :
  let filename := mkFile 0 "png" false in
  let st := one_reserved "png" in
  let controls := [mkControl 1 5; mkControl 20 0] in
  ((forall c, exit_ok apng_world c = true)
   /\ cache_mem (path_of filename) (frame_rate_cache st) = false
   /\ cache_mem (path_of filename) (duration_cache st) = false
   /\ streams apng_world (path_of filename)
      = Some [mkStream "video" "apng" [10; 1] 64 64 None]
   /\ select_streams "video" [mkStream "video" "apng" [10; 1] 64 64 None]
      = [mkStream "video" "apng" [10; 1] 64 64 None]
   /\ format_duration apng_world (path_of filename) = NA
   /\ apng_frames apng_world (path_of filename)
      = Some (List.map Some controls)
   /\ Forall (fun control => 0 <= delay control < 65536
                             /\ 0 <= delay_den control < 65536) controls
   /\ Exists (fun control => 0 < delay control) controls)
  /\ exists duration,
      fst (get_duration apng_world filename st) = Return duration
      /\ fst (get_frame_rate apng_world filename st)
         = Return (inject_Z (Z.of_nat (length controls)) / duration)%Q.
Proof.
  cbv zeta.
  assert (Hall : Forall (fun control => 0 <= delay control < 65536
                                        /\ 0 <= delay_den control < 65536)
                   [mkControl 1 5; mkControl 20 0])
    by (repeat constructor; simpl; lia).
  assert (Hex : Exists (fun control => 0 < delay control)
                  [mkControl 1 5; mkControl 20 0])
    by (left; simpl; lia).
  split; [repeat split; first [exact Hall | exact Hex]|].
  apply (apng_rate_is_count_over_duration apng_world (mkFile 0 "png" false)
           (one_reserved "png")
           [mkStream "video" "apng" [10; 1] 64 64 None]
           (mkStream "video" "apng" [10; 1] 64 64 None) []
           [mkControl 1 5; mkControl 20 0]);
    try reflexivity; first [exact Hall | exact Hex].
Defined.

Lemma total_delay_zero (controls : list FrameControl) :
  Forall (fun control => delay control = 0) controls ->
  (total_delay controls == 0)%Q.
Proof.
  induction 1 as [|c cs Hc _ IH]; simpl; [reflexivity|].
  rewrite IH. unfold frame_delay. rewrite Hc.
  unfold Qdiv. change (inject_Z 0) with 0%Q. ring.
Qed.

(** X5.  An animated PNG whose frames all carry a zero delay (a file with no
    frame at all included) has duration 0, and asking for its frame rate
    raises [ZeroDivisionError]. *)
Theorem apng_zero_delays (w : World) (filename : ManagedFile) (st : State)
    (ss : list Stream) (s : Stream) (rest : list Stream)
    (controls : list FrameControl) :
  (forall c, exit_ok w c = true) ->
  cache_mem (path_of filename) (frame_rate_cache st) = false ->
  cache_mem (path_of filename) (duration_cache st) = false ->
  streams w (path_of filename) = Some ss ->
  select_streams "video" ss = s :: rest ->
  codec_name s = "apng" ->
  format_duration w (path_of filename) = NA ->
  apng_frames w (path_of filename) = Some (List.map Some controls) ->
  Forall (fun control => delay control = 0) controls ->
  fst (get_frame_rate w filename st) = Raise ZeroDivisionError
  /\ exists duration, fst (get_duration w filename st) = Return duration
                      /\ (duration == 0)%Q.
Proof.
  intros Hok Hf Hd Hss Hsel Hc Hna Hfr Hzero.
  destruct (sum_delays_total controls 0) as (q & Hq & Heq).
  assert (Hq0 : (q == 0)%Q).
  { rewrite Heq, (total_delay_zero controls Hzero). ring. }
  split.
  - unfold get_frame_rate, lru_cache. rewrite Hf.
    unfold bind at 1, run_command. rewrite Hok.
    unfold bind, json_streams. rewrite Hss. unfold ret at 1. rewrite Hsel.
    rewrite Hc. simpl String.eqb. unfold lift. simpl fst.
    unfold _get_apng_framerate, open_apng. rewrite Hfr, Hq.
    replace (Qeq_bool q 0) with true; [reflexivity|].
    symmetry. apply Qeq_bool_iff. exact Hq0.
  - exists q. split; [|exact Hq0].
    unfold get_duration, lru_cache. rewrite Hd.
    unfold bind, run_command. rewrite Hok, Hna. unfold lift. simpl fst.
    unfold _get_apng_duration, open_apng. rewrite Hfr. exact Hq.
Qed.

Lemma apng_zero_delays_witness :
  let filename := mkFile 0 "png" false in
  let st := one_reserved "png" in
  let controls := [mkControl 0 100; mkControl 0 0; mkControl 0 7] in
  ((forall c, exit_ok zero_delay_world c = true)
   /\ cache_mem (path_of filename) (frame_rate_cache st) = false
   /\ cache_mem (path_of filename) (duration_cache st) = false
   /\ streams zero_delay_world (path_of filename)
      = Some [mkStream "video" "apng" [0; 0] 64 64 None]
   /\ format_duration zero_delay_world (path_of filename) = NA
   /\ apng_frames zero_delay_world (path_of filename)
      = Some (List.map Some controls)
   /\ Forall (fun control => delay control = 0) controls)
  /\ fst (get_frame_rate zero_delay_world filename st) = Raise ZeroDivisionError
  /\ exists duration,
      fst (get_duration zero_delay_world filename st) = Return duration
      /\ (duration == 0)%Q.
Proof.
  cbv zeta.
  assert (Hz : Forall (fun control => delay control = 0)
                 [mkControl 0 100; mkControl 0 0; mkControl 0 7])
    by (repeat constructor).
  split; [repeat split; exact Hz|].
  apply (apng_zero_delays zero_delay_world (mkFile 0 "png" false)
           (one_reserved "png")
           [mkStream "video" "apng" [0; 0] 64 64 None]
           (mkStream "video" "apng" [0; 0] 64 64 None) []
           [mkControl 0 100; mkControl 0 0; mkControl 0 7]);
    try reflexivity; exact Hz.
Defined.

(** X6.  A call of [frame_n] that raises has run its one probe.  If it
    raised before the encoder was started (the probe failed, the frame count
    could not be read, or the frame does not exist), nothing has been
    reserved.  If the encoder was started and failed, the mkv reserved for
    the frame stays on the ledger. *)
Theorem frame_n_failure_ledger (w : World) (video : ManagedFile) (n : Z)
    (st : State) (e : exn) :
  fst (frame_n w video n st) = Raise e ->
  length (probe_invocations (snd (frame_n w video n st)))
  = S (length (probe_invocations st))
  /\ ((encoder_invocations (snd (frame_n w video n st))
       = encoder_invocations st
       /\ ledger (snd (frame_n w video n st)) = ledger st
       /\ next_id (snd (frame_n w video n st)) = next_id st)
      \/ (exists framecount,
            let c := extract_command video
                       (if n =? -1 then framecount - 1 else n)
                       (mkFile (next_id st) "mkv" false) in
            nb_read_packets w (path_of video) = Some framecount
            /\ -1 <= n < framecount
            /\ exit_ok w c = false
            /\ e = CommandError c
            /\ encoder_invocations (snd (frame_n w video n st))
               = encoder_invocations st ++ [c]
            /\ ledger (snd (frame_n w video n st))
               = (next_id st, "mkv") :: ledger st)).
Proof.
  remember (frame_n w video n st) as r eqn:Hr.
  unfold frame_n, count_frames, bind, run_command in Hr.
  destruct (exit_ok w _) eqn:Hprobe in Hr.
  - destruct (nb_read_packets w (path_of video)) as [framecount|] eqn:Hn.
    + unfold ret at 1 in Hr.
      destruct ((-1 <=? n) && (n <? framecount)) eqn:Hguard; cbn [negb] in Hr.
      * apply andb_true_iff in Hguard. destruct Hguard as [H1 H2].
        apply Z.leb_le in H1. apply Z.ltb_lt in H2.
        unfold reserve_tempfile in Hr. cbv beta iota zeta in Hr.
        simpl next_id in Hr.
        match type of Hr with
        | context [exit_ok w ?c] => destruct (exit_ok w c) eqn:Hrun
        end; subst r; cbn [fst snd]; intros [= <-].
        split.
        { unfold probe_invocations. simpl. rewrite !filter_app_one. simpl.
          rewrite app_nil_r, length_app. simpl. lia. }
        right. exists framecount. cbv zeta.
        split; [reflexivity|]. split; [lia|].
        split; [exact Hrun|]. split; [reflexivity|].
        split; [|reflexivity].
        unfold encoder_invocations. simpl. rewrite !filter_app_one. simpl.
        rewrite app_nil_r. reflexivity.
      * unfold raise in Hr. subst r. cbn [fst snd]. intros _. split.
        { unfold probe_invocations. simpl. rewrite filter_app_one. simpl.
          rewrite length_app. simpl. lia. }
        left. unfold encoder_invocations. simpl. rewrite filter_app_one.
        simpl. rewrite app_nil_r. repeat split.
    + unfold raise in Hr. subst r. cbn [fst snd]. intros _. split.
      { unfold probe_invocations. simpl. rewrite filter_app_one. simpl.
        rewrite length_app. simpl. lia. }
      left. unfold encoder_invocations. simpl. rewrite filter_app_one.
      simpl. rewrite app_nil_r. repeat split.
  - subst r. cbn [fst snd]. intros _. split.
    { unfold probe_invocations. simpl. rewrite filter_app_one. simpl.
      rewrite length_app. simpl. lia. }
    left. unfold encoder_invocations. simpl. rewrite filter_app_one.
    simpl. rewrite app_nil_r. repeat split.
Qed.

Lemma frame_n_failure_ledger_witness :
  let video := mkFile 0 "mp4" false in
  let st := one_reserved "mp4" in
  let c := extract_command video 7 (mkFile 1 "mkv" false) in
  fst (frame_n encoder_down_world video 7 st) = Raise (CommandError c)
  /\ ledger (snd (frame_n encoder_down_world video 7 st))
     = [(1%nat, "mkv"); (0%nat, "mp4")]
  /\ length (probe_invocations (snd (frame_n encoder_down_world video 7 st)))
     = 1%nat.
Proof.
  cbv zeta.
  assert (H : fst (frame_n encoder_down_world (mkFile 0 "mp4" false) 7
                     (one_reserved "mp4"))
              = Raise (CommandError
                         (extract_command (mkFile 0 "mp4" false) 7
                            (mkFile 1 "mkv" false)))) by reflexivity.
  split; [exact H|].
  destruct (frame_n_failure_ledger encoder_down_world (mkFile 0 "mp4" false)
              7 (one_reserved "mp4") _ H) as [Hprobe Hcase].
  split; [reflexivity | exact Hprobe].
Defined.

(** * Further properties of the transcode operations *)

(** X7.  What [toapng] returns is a new apng handle with [lock_codec] set,
    and [allreencode] hands that handle back untouched, in any world: the
    animated PNG is never re-encoded on the way out. *)
Theorem toapng_then_allreencode (w w' : World) (video : ManagedFile)
    (st : State) :
  (forall c, exit_ok w c = true) ->
  exists st1,
    toapng w video st = (Return (mkFile (next_id st) "apng" true), st1)
    /\ ledger st1 = (next_id st, "apng") :: ledger st
    /\ allreencode w' (mkFile (next_id st) "apng" true) st1
       = (Return (mkFile (next_id st) "apng" true), st1).
Proof.
  intros Hok. unfold toapng, bind, reserve_tempfile, run_command.
  rewrite Hok. eexists. split; [reflexivity|]. split; reflexivity.
Qed.

Lemma toapng_then_allreencode_witness :
  let w := world_of VIDEO [h264_stream] in
  (forall c, exit_ok w c = true)
  /\ exists st1,
      toapng w (mkFile 0 "mp4" false) (one_reserved "mp4")
      = (Return (mkFile 1 "apng" true), st1)
      /\ ledger st1 = [(1%nat, "apng"); (0%nat, "mp4")]
      /\ allreencode w (mkFile 1 "apng" true) st1
         = (Return (mkFile 1 "apng" true), st1).
Proof.
  cbv zeta. split; [reflexivity|].
  apply (toapng_then_allreencode (world_of VIDEO [h264_stream])
           (world_of VIDEO [h264_stream]) (mkFile 0 "mp4" false)
           (one_reserved "mp4")).
  reflexivity.
Defined.

(** X8.  For a file that [file.mediatype()] gives as IMAGE, VIDEO or AUDIO,
    [forcereencode] with the encoder succeeding reserves one file (png, mp4
    or m4a), runs one encoder invocation that reads the input and writes the
    new file, and returns the new handle, not the input. *)
Theorem forcereencode_fresh (w : World) (file : ManagedFile) (st : State) :
  (forall c, exit_ok w c = true) ->
  issued st file ->
  In (mediatype w file) [IMAGE; VIDEO; AUDIO] ->
  exists c,
    fresh_output st (forced_extension (mediatype w file)) c
      (forcereencode w file st)
    /\ In (File file) (args c)
    /\ List.last (args c) (Lit EmptyString)
       = File (mkFile (next_id st) (forced_extension (mediatype w file)) false)
    /\ fst (forcereencode w file st) <> Return file.
Proof.
  intros Hok Hiss Hmt. unfold forcereencode.
  destruct (mediatype w file); simpl in Hmt;
    try (exfalso; intuition discriminate);
    unfold bind, reserve_tempfile, run_command; rewrite Hok;
    eexists; (split; [|split; [|split]]);
    try (unfold fresh_output, encoder_invocations; simpl;
         rewrite filter_app_one; simpl; repeat split; reflexivity);
    try (simpl; tauto);
    try reflexivity;
    simpl; intros [= E]; exact (issued_fresh _ _ _ Hiss E).
Qed.

Lemma forcereencode_fresh_witness :
  let w := world_of AUDIO [aac_stream] in
  let file := mkFile 0 "m4a" false in
  let st := one_reserved "m4a" in
  ((forall c, exit_ok w c = true)
   /\ issued st file
   /\ In (mediatype w file) [IMAGE; VIDEO; AUDIO])
  /\ exists c,
      fresh_output st (forced_extension (mediatype w file)) c
        (forcereencode w file st)
      /\ In (File file) (args c)
      /\ List.last (args c) (Lit EmptyString)
         = File (mkFile (next_id st)
                   (forced_extension (mediatype w file)) false)
      /\ fst (forcereencode w file st) <> Return file.
Proof.
  cbv zeta.
  assert (H1 : issued (one_reserved "m4a") (mkFile 0 "m4a" false))
    by (unfold issued; simpl; lia).
  assert (H2 : In (mediatype (world_of AUDIO [aac_stream])
                     (mkFile 0 "m4a" false)) [IMAGE; VIDEO; AUDIO])
    by (simpl; tauto).
  split; [split; [reflexivity | split; [exact H1 | exact H2]]|].
  apply (forcereencode_fresh (world_of AUDIO [aac_stream])
           (mkFile 0 "m4a" false) (one_reserved "m4a"));
    [reflexivity | exact H1 | exact H2].
Defined.

(** X9.  [audio_reencode] never copies the audio stream: whatever the codec
    of the file, AAC included, and even without an audio stream, the one
    encoder invocation it runs asks for a re-encode to AAC at quality 2. *)
Theorem audio_reencode_never_copies (w : World) (audio : ManagedFile)
    (st : State) (ss : list Stream) :
  (forall c, exit_ok w c = true) ->
  streams w (path_of audio) = Some ss ->
  fresh_output st "m4a"
    (audio_command audio (mkFile (next_id st) "m4a" false))
    (audio_reencode w audio st)
  /\ has_lit "copy"
       (args (audio_command audio (mkFile (next_id st) "m4a" false))) = false.
Proof.
  intros Hok Hss. split; [|reflexivity].
  unfold audio_reencode, get_acodec, bind, run_command, json_streams.
  rewrite Hok, Hss. unfold ret at 1.
  assert (Hnever : forall o, py_eq_str (of_stream o) "aac" = false)
    by (intros [d|]; reflexivity).
  destruct (select_streams "audio" ss) as [|s rest]; unfold ret at 1;
    rewrite Hnever; simpl; rewrite Hok;
    unfold fresh_output, audio_command, encoder_invocations; simpl;
    rewrite !filter_app_one; simpl; rewrite app_nil_r; repeat split.
Qed.

Lemma audio_reencode_never_copies_witness :
  let w := world_of AUDIO [aac_stream] in
  let audio := mkFile 0 "m4a" false in
  let st := one_reserved "m4a" in
  ((forall c, exit_ok w c = true)
   /\ streams w (path_of audio) = Some [aac_stream]
   /\ first_codec "audio" [aac_stream] = Some "aac")
  /\ fresh_output st "m4a" (audio_command audio (mkFile 1 "m4a" false))
       (audio_reencode w audio st)
  /\ has_lit "copy" (args (audio_command audio (mkFile 1 "m4a" false)))
     = false.
Proof.
  cbv zeta. split; [repeat split|].
  apply (audio_reencode_never_copies (world_of AUDIO [aac_stream])
           (mkFile 0 "m4a" false) (one_reserved "m4a") [aac_stream]);
    reflexivity.
Defined.

(** X10.  The encoder command of [video_reencode] carries [-c:v copy]
    exactly when the first video stream is h264 and [-c:a copy] exactly when
    the first audio stream is aac.  For a stream that is not canonical (or
    absent) the codec flag comes twice in a row, [-c:v -c:v libx264 ...] and
    [-c:a -c:a aac ...]: [H264_FLAGS] and [AUDIO_FLAGS] start with the flag
    the command has put before them.  Whatever the encoder makes of the
    command, one mp4 has been reserved and that one invocation made; the new
    handle is returned when the encoder exits with status 0, and the call
    raises otherwise. *)
Theorem video_reencode_codec_flags (w : World) (video : ManagedFile)
    (st : State) (ss : list Stream) :
  (forall c, is_ffprobe c = true -> exit_ok w c = true) ->
  In (mediatype w video) [VIDEO; GIF] ->
  streams w (path_of video) = Some ss ->
  ss <> [] ->
  exists c,
    ledger (snd (video_reencode w video st)) = (next_id st, "mp4") :: ledger st
    /\ encoder_invocations (snd (video_reencode w video st))
       = encoder_invocations st ++ [c]
    /\ fst (video_reencode w video st)
       = (if exit_ok w c then Return (mkFile (next_id st) "mp4" false)
          else Raise (CommandError c))
    /\ (adjacent "-c:v" "copy" (args c) = true
        <-> first_codec "video" ss = Some "h264")
    /\ (adjacent "-c:v" "-c:v" (args c) = true
        <-> first_codec "video" ss <> Some "h264")
    /\ (adjacent "-c:a" "copy" (args c) = true
        <-> first_codec "audio" ss = Some "aac")
    /\ (adjacent "-c:a" "-c:a" (args c) = true
        <-> first_codec "audio" ss <> Some "aac").
Proof.
  intros Hok Hmt Hss Hne.
  assert (Hnames : forall o s,
            py_eq_str (of_name o) s = true <-> o = Some s).
  { intros [t|] s; simpl; [|split; discriminate].
    rewrite String.eqb_eq.
    split; [intros ->; reflexivity | intros [= ->]; reflexivity]. }
  assert (Hrun : video_reencode w video st
    = (let '(vcodec, acodec) :=
         (first_codec "video" ss, first_codec "audio" ss) in
       let vcode :=
         if py_eq_str (of_name vcodec) "h264" then ["copy"]
         else H264_FLAGS
              ++ ["-vf";
                  "scale=ceil(iw/2)*2:ceil(ih/2)*2,premultiply=inplace=1"] in
       let acode :=
         if py_eq_str (of_name acodec) "aac" then ["copy"] else AUDIO_FLAGS in
       let* outname := reserve_tempfile "mp4" in
       let* _ := run_command w "ffmpeg"
           (lits COMMON_FLAGS ++ [Lit "-i"; File video]
            ++ [Lit "-c:v"] ++ lits vcode
            ++ [Lit "-c:a"] ++ lits acode
            ++ lits VIDEO_FLAGS ++ [File outname]) in
       ret outname)
        (set_log (log st ++ [mkCommand "ffprobe"
           (lits ["-v"; "panic"; "-show_entries";
                  "stream=codec_name,codec_type";
                  "-print_format"; "json"] ++ [File video])]) st)).
  { unfold video_reencode.
    assert (Hmt' : mediatype w video = VIDEO \/ mediatype w video = GIF)
      by (destruct Hmt as [H | [H | []]]; [left | right]; symmetry; exact H).
    destruct ss as [|s0 ss0]; [congruence|].
    destruct Hmt' as [-> | ->];
      unfold va_codecs, bind, run_command, json_streams;
      rewrite Hok by reflexivity; rewrite Hss; unfold ret at 1 2;
      rewrite va_fold; reflexivity. }
  rewrite Hrun. clear Hrun. cbv zeta.
  pose proof (Hnames (first_codec "video" ss) "h264") as Hv.
  pose proof (Hnames (first_codec "audio" ss) "aac") as Ha.
  destruct (py_eq_str (of_name (first_codec "video" ss)) "h264");
    destruct (py_eq_str (of_name (first_codec "audio" ss)) "aac");
    unfold bind, reserve_tempfile, run_command;
    cbv beta iota zeta; simpl next_id;
    match goal with
    | |- context [exit_ok w ?c] => exists c; destruct (exit_ok w c)
    end;
    (split; [reflexivity|]);
    (split; [unfold encoder_invocations; simpl;
             rewrite !filter_app_one; simpl; rewrite app_nil_r; reflexivity|]);
    (split; [reflexivity|]);
    simpl; intuition congruence.
Qed.

Lemma video_reencode_codec_flags_witness :
  let w := world_of VIDEO [vp9_stream; aac_stream] in
  let video := mkFile 0 "webm" false in
  let st := one_reserved "webm" in
  ((forall c, is_ffprobe c = true -> exit_ok w c = true)
   /\ In (mediatype w video) [VIDEO; GIF]
   /\ streams w (path_of video) = Some [vp9_stream; aac_stream]
   /\ [vp9_stream; aac_stream] <> [])
  /\ exists c,
      ledger (snd (video_reencode w video st))
      = (next_id st, "mp4") :: ledger st
      /\ encoder_invocations (snd (video_reencode w video st))
         = encoder_invocations st ++ [c]
      /\ fst (video_reencode w video st)
         = (if exit_ok w c then Return (mkFile (next_id st) "mp4" false)
            else Raise (CommandError c))
      /\ (adjacent "-c:v" "copy" (args c) = true
          <-> first_codec "video" [vp9_stream; aac_stream] = Some "h264")
      /\ (adjacent "-c:v" "-c:v" (args c) = true
          <-> first_codec "video" [vp9_stream; aac_stream] <> Some "h264")
      /\ (adjacent "-c:a" "copy" (args c) = true
          <-> first_codec "audio" [vp9_stream; aac_stream] = Some "aac")
      /\ (adjacent "-c:a" "-c:a" (args c) = true
          <-> first_codec "audio" [vp9_stream; aac_stream] <> Some "aac").
Proof.
  cbv zeta.
  assert (H0 : forall c, is_ffprobe c = true ->
                 exit_ok (world_of VIDEO [vp9_stream; aac_stream]) c = true)
    by (intros c _; reflexivity).
  assert (H1 : In (mediatype (world_of VIDEO [vp9_stream; aac_stream])
                     (mkFile 0 "webm" false)) [VIDEO; GIF])
    by (simpl; tauto).
  split; [split; [exact H0 | split; [exact H1 | split;
                                      [reflexivity | discriminate]]]|].
  apply (video_reencode_codec_flags
           (world_of VIDEO [vp9_stream; aac_stream])
           (mkFile 0 "webm" false) (one_reserved "webm")
           [vp9_stream; aac_stream]);
    [exact H0 | exact H1 | reflexivity | discriminate].
Defined.

Example video_reencode_vp9_aac :
  encoder_invocations
    (snd (video_reencode (world_of VIDEO [vp9_stream; aac_stream])
            (mkFile 0 "webm" false) (one_reserved "webm")))
  = [mkCommand "ffmpeg"
       [Lit "-hide_banner"; Lit "-y"; Lit "-i"; File (mkFile 0 "webm" false);
        Lit "-c:v"; Lit "-c:v"; Lit "libx264"; Lit "-pix_fmt"; Lit "yuv420p";
        Lit "-preset"; Lit "ultrafast"; Lit "-vf";
        Lit "scale=ceil(iw/2)*2:ceil(ih/2)*2,premultiply=inplace=1";
        Lit "-c:a"; Lit "copy";
        Lit "-movflags"; Lit "+faststart"; Lit "-max_muxing_queue_size";
        Lit "9999"; File (mkFile 1 "mp4" false)]].
Proof. reflexivity. Qed.

(** X11.  [mediatoimage] copies the frame instead of encoding it exactly when
    the codec of the first video stream is the requested image type; either
    way it reserves one file of that type and runs one encoder invocation. *)
Theorem mediatoimage_copies_same_codec (w : World) (media : ManagedFile)
    (imagetype : string) (st : State) (ss : list Stream) (s : Stream)
    (rest : list Stream) :
  (forall c, exit_ok w c = true) ->
  streams w (path_of media) = Some ss ->
  select_streams "video" ss = s :: rest ->
  imagetype <> "copy" ->
  exists codec,
    fresh_output st imagetype
      (image_command media codec (mkFile (next_id st) imagetype false))
      (mediatoimage w media imagetype st)
    /\ (codec = "copy" <-> codec_name s = imagetype)
    /\ (codec <> "copy" -> codec = imagetype).
Proof.
  intros Hok Hss Hsel Hty.
  exists (if String.eqb (codec_name s) imagetype then "copy" else imagetype).
  split.
  - unfold mediatoimage, get_vcodec, bind, reserve_tempfile, run_command,
      json_streams, subscript_codec_name.
    rewrite Hok, Hss. unfold ret. cbv beta iota. rewrite Hsel.
    cbv beta iota. rewrite Hok.
    unfold fresh_output, image_command, encoder_invocations.
    simpl. rewrite !filter_app_one. simpl. rewrite app_nil_r.
    repeat split.
  - destruct (String.eqb (codec_name s) imagetype) eqn:E.
    + apply String.eqb_eq in E. split; [tauto | congruence].
    + apply String.eqb_neq in E. split; [split; congruence | reflexivity].
Qed.

Lemma mediatoimage_copies_same_codec_witness :
  let w := world_of IMAGE [png_stream] in
  let media := mkFile 0 "png" false in
  let st := one_reserved "png" in
  ((forall c, exit_ok w c = true)
   /\ streams w (path_of media) = Some [png_stream]
   /\ select_streams "video" [png_stream] = [png_stream]
   /\ "png" <> "copy")
  /\ exists codec,
      fresh_output st "png"
        (image_command media codec (mkFile (next_id st) "png" false))
        (mediatoimage w media "png" st)
      /\ (codec = "copy" <-> codec_name png_stream = "png")
      /\ (codec <> "copy" -> codec = "png").
Proof.
  cbv zeta. split; [repeat split; discriminate|].
  apply (mediatoimage_copies_same_codec (world_of IMAGE [png_stream])
           (mkFile 0 "png" false) "png" (one_reserved "png")
           [png_stream] png_stream []);
    [reflexivity | reflexivity | reflexivity | discriminate].
Defined.

(** X12.  [mediatoimage] reserves its output before it looks at the input:
    on a file without a video stream it raises [TypeError] with a file
    reserved already and the encoder not run. *)
Theorem mediatoimage_no_video_stream (w : World) (media : ManagedFile)
    (imagetype : string) (st : State) (ss : list Stream) :
  (forall c, exit_ok w c = true) ->
  streams w (path_of media) = Some ss ->
  select_streams "video" ss = [] ->
  fst (mediatoimage w media imagetype st) = Raise TypeError
  /\ ledger (snd (mediatoimage w media imagetype st))
     = (next_id st, imagetype) :: ledger st
  /\ next_id (snd (mediatoimage w media imagetype st)) = S (next_id st)
  /\ encoder_invocations (snd (mediatoimage w media imagetype st))
     = encoder_invocations st.
Proof.
  intros Hok Hss Hsel.
  assert (Hrun : exists a,
            mediatoimage w media imagetype st
            = (Raise TypeError,
               mkState (S (next_id st)) ((next_id st, imagetype) :: ledger st)
                       (log st ++ [mkCommand "ffprobe" a])
                       (is_apng_cache st) (frame_rate_cache st)
                       (duration_cache st))).
  { unfold mediatoimage, get_vcodec, bind, reserve_tempfile, run_command,
      json_streams, subscript_codec_name.
    rewrite Hok, Hss. unfold ret, raise. cbv beta iota. rewrite Hsel.
    cbv beta iota. eexists. reflexivity. }
  destruct Hrun as (a & ->). simpl. repeat split.
  unfold encoder_invocations. simpl. rewrite filter_app_one. simpl.
  apply app_nil_r.
Qed.

Lemma mediatoimage_no_video_stream_witness :
  let w := world_of AUDIO [aac_stream] in
  let media := mkFile 0 "m4a" false in
  let st := one_reserved "m4a" in
  ((forall c, exit_ok w c = true)
   /\ streams w (path_of media) = Some [aac_stream]
   /\ select_streams "video" [aac_stream] = [])
  /\ fst (mediatoimage w media "png" st) = Raise TypeError
  /\ ledger (snd (mediatoimage w media "png" st))
     = (next_id st, "png") :: ledger st
  /\ next_id (snd (mediatoimage w media "png" st)) = S (next_id st)
  /\ encoder_invocations (snd (mediatoimage w media "png" st))
     = encoder_invocations st.
Proof.
  cbv zeta. split; [repeat split|].
  apply (mediatoimage_no_video_stream (world_of AUDIO [aac_stream])
           (mkFile 0 "m4a" false) "png" (one_reserved "m4a") [aac_stream]);
    reflexivity.
Defined.

Lemma videotogif_leaves_key (w : World) (video : ManagedFile) (st : State)
    (ss : list Stream) (s : Stream) (rest : list Stream) :
  (forall c, exit_ok w c = true) ->
  streams w (path_of video) = Some ss ->
  select_streams "video" ss = s :: rest ->
  codec_name s <> "gif" ->
  cache_mem (path_of video) (frame_rate_cache (snd (videotogif w video st)))
  = true.
Proof.
  intros Hok Hss Hsel Hgif. apply String.eqb_neq in Hgif.
  unfold videotogif, get_vcodec, bind, run_command, json_streams,
    subscript_codec_name, reserve_tempfile.
  rewrite Hok, Hss. unfold ret. cbv beta iota. rewrite Hsel.
  cbv beta iota. rewrite Hgif. cbv beta iota.
  match goal with
  | |- context [get_frame_rate w video ?s0] =>
      assert (H : cache_mem (path_of video)
                    (frame_rate_cache (snd (get_frame_rate w video s0)))
                  = true)
        by (unfold get_frame_rate; apply lru_cache_leaves_key;
            [reflexivity | probe_keeps]);
      destruct (get_frame_rate w video s0) as [[fps|e] stc]
  end; simpl in H.
  - rewrite Hok. simpl. exact H.
  - simpl. exact H.
Qed.

(** X13.  [videotogif] reads the frame rate through the cached probe, after
    it has reserved its output.  For a file that is not a gif and whose
    frame rate is in the cache, the call reserves a gif, then raises
    [RuntimeError] without running the encoder.  Every conversion of such a
    file, and every read of its frame rate, leaves it in the cache: a second
    conversion made before 128 other files have pushed it out fails in this
    way. *)
Theorem videotogif_cached_rate_raises (w : World) (video : ManagedFile)
    (ss : list Stream) (s : Stream) (rest : list Stream) :
  (forall c, exit_ok w c = true) ->
  streams w (path_of video) = Some ss ->
  select_streams "video" ss = s :: rest ->
  codec_name s <> "gif" ->
  (forall st,
     cache_mem (path_of video) (frame_rate_cache st) = true ->
     fst (videotogif w video st)
     = Raise (RuntimeError "cannot reuse already awaited coroutine")
     /\ ledger (snd (videotogif w video st)) = (next_id st, "gif") :: ledger st
     /\ encoder_invocations (snd (videotogif w video st))
        = encoder_invocations st)
  /\ (forall st,
        cache_mem (path_of video)
          (frame_rate_cache (snd (videotogif w video st))) = true)
  /\ (forall st,
        cache_mem (path_of video)
          (frame_rate_cache (snd (get_frame_rate w video st))) = true).
Proof.
  intros Hok Hss Hsel Hgif. split; [|split].
  - intros st Hkey. apply String.eqb_neq in Hgif.
    assert (Hrun : exists a c,
              videotogif w video st
              = (Raise (RuntimeError "cannot reuse already awaited coroutine"),
                 mkState (S (next_id st)) ((next_id st, "gif") :: ledger st)
                         (log st ++ [mkCommand "ffprobe" a])
                         (is_apng_cache st) c (duration_cache st))).
    { unfold videotogif, get_vcodec, bind, run_command, json_streams,
        subscript_codec_name, reserve_tempfile.
      rewrite Hok, Hss. unfold ret. cbv beta iota. rewrite Hsel.
      cbv beta iota. rewrite Hgif. cbv beta iota.
      unfold get_frame_rate, lru_cache. simpl frame_rate_cache.
      rewrite Hkey. eexists. eexists. reflexivity. }
    destruct Hrun as (a & c & ->). simpl. repeat split.
    unfold encoder_invocations. simpl. rewrite filter_app_one. simpl.
    apply app_nil_r.
  - intros st. exact (videotogif_leaves_key w video st ss s rest
                        Hok Hss Hsel Hgif).
  - intros st. unfold get_frame_rate. apply lru_cache_leaves_key;
      [reflexivity | probe_keeps].
Qed.

Lemma videotogif_cached_rate_raises_witness :
  let w := world_of VIDEO [h264_stream] in
  let video := mkFile 0 "mp4" false in
  let st := one_reserved "mp4" in
  ((forall c, exit_ok w c = true)
   /\ streams w (path_of video) = Some [h264_stream]
   /\ select_streams "video" [h264_stream] = [h264_stream]
   /\ codec_name h264_stream <> "gif")
  /\ fst (videotogif w video st) = Return (mkFile 1 "gif" false)
  /\ fst (videotogif w video (snd (videotogif w video st)))
     = Raise (RuntimeError "cannot reuse already awaited coroutine")
  /\ ledger (snd (videotogif w video (snd (videotogif w video st))))
     = (next_id (snd (videotogif w video st)), "gif")
       :: ledger (snd (videotogif w video st))
  /\ encoder_invocations (snd (videotogif w video (snd (videotogif w video st))))
     = encoder_invocations (snd (videotogif w video st)).
Proof.
  cbv zeta. split; [repeat split; discriminate|].
  split; [reflexivity|].
  destruct (videotogif_cached_rate_raises (world_of VIDEO [h264_stream])
              (mkFile 0 "mp4" false) [h264_stream] h264_stream []
              (fun _ => eq_refl) eq_refl eq_refl ltac:(discriminate))
    as (Hraise & Hkept & _).
  exact (Hraise _ (Hkept (one_reserved "mp4"))).
Defined.

(** After 128 reads of the frame rate of other files the file is out of the
    cache, and a second conversion goes through. *)
Example videotogif_after_eviction :
  let w := world_of VIDEO [h264_stream] in
  let video := mkFile 500 "mp4" false in
  let st1 := snd (videotogif w video initial_state) in
  let st2 := run_all (get_frame_rate w) (numbered_files 128) st1 in
  cache_mem (path_of video) (frame_rate_cache st1) = true
  /\ cache_mem (path_of video) (frame_rate_cache st2) = false
  /\ exists outname, fst (videotogif w video st2) = Return outname.
Proof.
  cbv zeta. split; [reflexivity|]. split; [vm_compute; reflexivity|].
  eexists. vm_compute. reflexivity.
Qed.

(** ** Reservations and invocations *)

Lemma extends_by_refl (n : nat) (st : State) : extends_by n st st.
Proof.
  split; [exists []; simpl; repeat split; lia | exists []; symmetry; apply app_nil_r].
Qed.

Lemma extends_by_trans (n : nat) (st st1 st2 : State) :
  extends_by 0 st st1 -> extends_by n st1 st2 -> extends_by n st st2.
Proof.
  intros [(new1 & Hl1 & Hn1 & Hk1) (more1 & Hm1)]
         [(new2 & Hl2 & Hn2 & Hk2) (more2 & Hm2)].
  assert (new1 = []) by (destruct new1; [reflexivity | simpl in Hk1; lia]).
  subst new1. simpl in *. split.
  - exists new2. rewrite Hl2, Hl1, Hn2, Hn1. repeat split; lia.
  - exists (more1 ++ more2). rewrite Hm2, Hm1, app_assoc. reflexivity.
Qed.

Lemma extends_by_weaken (n : nat) (st st' : State) :
  extends_by 0 st st' -> extends_by n st st'.
Proof.
  intros [(new & Hl & Hn & Hk) Hm]. split; [|exact Hm].
  exists new. repeat split; [exact Hl | exact Hn | lia].
Qed.

Lemma ram_ret {A} (n : nat) (a : A) : reserves_at_most n (ret a).
Proof. intros st. apply extends_by_refl. Qed.

Lemma ram_raise {A} (n : nat) (e : exn) : reserves_at_most n (@raise A e).
Proof. intros st. apply extends_by_refl. Qed.

Lemma ram_lift {A} (n : nat) (o : outcome A) : reserves_at_most n (lift o).
Proof. intros st. apply extends_by_refl. Qed.

Lemma ram_json_streams (n : nat) (w : World) (f : ManagedFile) :
  reserves_at_most n (json_streams w f).
Proof.
  intros st. rewrite preserves_json_streams. apply extends_by_refl.
Qed.

Lemma ram_subscript (n : nat) (x : option Stream) :
  reserves_at_most n (subscript_codec_name x).
Proof. intros st. destruct x; apply extends_by_refl. Qed.

Lemma ram_run_command (n : nat) (w : World) (p : string) (a : list Arg) :
  reserves_at_most n (run_command w p a).
Proof.
  intros st. unfold run_command.
  destruct (exit_ok w (mkCommand p a)); simpl;
    (split; [exists []; simpl; repeat split; lia
            | exists [mkCommand p a]; reflexivity]).
Qed.

Lemma ram_bind {A B} (n : nat) (m : M A) (k : A -> M B) :
  reserves_at_most 0 m -> (forall a, reserves_at_most n (k a)) ->
  reserves_at_most n (bind m k).
Proof.
  intros Hm Hk st. unfold bind. specialize (Hm st).
  destruct (m st) as [[a|e] st1]; simpl in Hm.
  - eapply extends_by_trans; [exact Hm | apply Hk].
  - simpl. apply extends_by_weaken. exact Hm.
Qed.

Lemma ram_bind_reserve {B} (n : nat) (ext : string)
    (k : ManagedFile -> M B) :
  (forall f, reserves_at_most n (k f)) ->
  reserves_at_most (S n) (bind (reserve_tempfile ext) k).
Proof.
  intros Hk st. unfold bind, reserve_tempfile. cbv beta iota zeta.
  match goal with
  | |- extends_by _ _ (snd (k ?f ?s)) =>
      destruct (Hk f s) as [(new & Hl & Hn & Hlen) (more & Hm)];
      set (st' := snd (k f s)) in *
  end.
  cbn [next_id ledger log] in Hl, Hn, Hm. unfold path_of in Hl.
  cbn [file_id extension] in Hl. split.
  - exists (new ++ [(next_id st, ext)]).
    rewrite Hl, Hn, length_app, <- app_assoc. simpl. repeat split; lia.
  - exists more. exact Hm.
Qed.

Lemma ram_lru_cache {A} (n : nat) (get : State -> list Path)
    (set : list Path -> State -> State) (k : Path) (body : M A) :
  (forall c s, next_id (set c s) = next_id s /\ ledger (set c s) = ledger s
               /\ log (set c s) = log s) ->
  reserves_at_most n body ->
  reserves_at_most n (lru_cache get set k body).
Proof.
  intros Hset Hb st. unfold lru_cache.
  assert (Hs : forall c, extends_by 0 st (set c st)).
  { intros c. destruct (Hset c st) as (H1 & H2 & H3). split.
    - exists []. simpl. rewrite H1, H2. repeat split; lia.
    - exists []. rewrite H3. symmetry. apply app_nil_r. }
  destruct (cache_mem k (get st)); simpl.
  - apply extends_by_weaken. apply Hs.
  - eapply extends_by_trans; [apply Hs | apply Hb].
Qed.

Ltac ram_step :=
  first
    [ apply ram_ret | apply ram_raise | apply ram_lift
    | apply ram_json_streams | apply ram_subscript | apply ram_run_command
    | apply ram_lru_cache; [intros ? ?; repeat split|]
    | apply ram_bind_reserve; intros ?
    | apply ram_bind; [|intros ?]
    | match goal with
      | |- reserves_at_most _ (match ?x with _ => _ end) => destruct x
      | |- reserves_at_most _ (if ?x then _ else _) => destruct x
      | |- reserves_at_most _ (let _ := _ in _) => cbv zeta
      end ].

Ltac ram := repeat ram_step.

Lemma ram_get_vcodec n w f : reserves_at_most n (get_vcodec w f).
Proof. unfold get_vcodec. ram. Qed.

Lemma ram_get_acodec n w f : reserves_at_most n (get_acodec w f).
Proof. unfold get_acodec. ram. Qed.

Lemma ram_va_codecs n w f : reserves_at_most n (va_codecs w f).
Proof. unfold va_codecs. ram. Qed.

Lemma ram_count_frames n w f : reserves_at_most n (count_frames w f).
Proof. unfold count_frames. ram. Qed.

Lemma ram_get_resolution n w f : reserves_at_most n (get_resolution w f).
Proof. unfold get_resolution. ram. Qed.

Lemma ram_is_apng n w f : reserves_at_most n (is_apng w f).
Proof. unfold is_apng. ram. Qed.

Lemma ram_get_frame_rate n w f : reserves_at_most n (get_frame_rate w f).
Proof. unfold get_frame_rate. ram. Qed.

Lemma ram_get_duration n w f : reserves_at_most n (get_duration w f).
Proof. unfold get_duration. ram. Qed.

Ltac ram_ops :=
  repeat first
    [ apply ram_get_vcodec | apply ram_get_acodec | apply ram_va_codecs
    | apply ram_count_frames | apply ram_get_frame_rate
    | ram_step ].

Lemma ram_videotogif w f : reserves_at_most 1 (videotogif w f).
Proof. unfold videotogif. ram_ops. Qed.

Lemma ram_video_reencode w f : reserves_at_most 1 (video_reencode w f).
Proof. unfold video_reencode. ram_ops. Qed.

Lemma ram_audio_reencode w f : reserves_at_most 1 (audio_reencode w f).
Proof. unfold audio_reencode. ram_ops. Qed.

Lemma ram_mediatoimage w f t : reserves_at_most 1 (mediatoimage w f t).
Proof. unfold mediatoimage. ram_ops. Qed.

(** X14.  No operation of the prober or of the converters ever takes a file
    off the ledger or a line off the invocation log.  The probes reserve
    nothing; every converter, and [frame_n], reserves at most one file per
    call, numbered by the counter, whatever it returns or raises. *)
Theorem operations_reserve_at_most_one (w : World) (file : ManagedFile)
    (imagetype : string) (n : Z) :
  (reserves_at_most 0 (get_vcodec w file)
   /\ reserves_at_most 0 (get_acodec w file)
   /\ reserves_at_most 0 (va_codecs w file)
   /\ reserves_at_most 0 (count_frames w file)
   /\ reserves_at_most 0 (get_resolution w file)
   /\ reserves_at_most 0 (is_apng w file)
   /\ reserves_at_most 0 (get_frame_rate w file)
   /\ reserves_at_most 0 (get_duration w file))
  /\ (reserves_at_most 1 (allreencode w file)
      /\ reserves_at_most 1 (forcereencode w file)
      /\ reserves_at_most 1 (videotogif w file)
      /\ reserves_at_most 1 (video_reencode w file)
      /\ reserves_at_most 1 (audio_reencode w file)
      /\ reserves_at_most 1 (mediatoimage w file imagetype)
      /\ reserves_at_most 1 (toapng w file)
      /\ reserves_at_most 1 (giftomp4 w file)
      /\ reserves_at_most 1 (toaudio w file)
      /\ reserves_at_most 1 (frame_n w file n)).
Proof.
  repeat match goal with |- _ /\ _ => split end;
    try first [ apply ram_get_vcodec | apply ram_get_acodec
              | apply ram_va_codecs | apply ram_count_frames
              | apply ram_get_resolution | apply ram_is_apng
              | apply ram_get_frame_rate | apply ram_get_duration
              | apply ram_videotogif | apply ram_video_reencode
              | apply ram_audio_reencode | apply ram_mediatoimage ].
  - unfold allreencode.
    destruct (lock_codec file); [apply ram_ret|].
    cbv zeta. destruct (mediatype w file);
      first [ apply ram_mediatoimage | apply ram_video_reencode
            | apply ram_audio_reencode | apply ram_videotogif
            | apply ram_raise ].
  - unfold forcereencode. cbv zeta.
    destruct (mediatype w file);
      first [ apply ram_videotogif | apply ram_raise | ram ].
  - unfold toapng. ram.
  - unfold giftomp4. ram.
  - unfold toaudio. ram.
  - unfold frame_n. ram_ops.
Qed.

Lemma ram0_keeps {A} (m : M A) :
  reserves_at_most 0 m ->
  forall st, ledger (snd (m st)) = ledger st
             /\ next_id (snd (m st)) = next_id st.
Proof.
  intros H st. destruct (H st) as [(new & Hl & Hn & Hk) _].
  assert (new = []) by (destruct new; [reflexivity | simpl in Hk; lia]).
  subst new. simpl in *. split; [exact Hl | lia].
Qed.

Lemma ro_ret (f : ManagedFile) : returns_only f (ret f).
Proof. intros st out st' [= <- <-]. repeat split. Qed.

Lemma ro_raise (f : ManagedFile) (e : exn) : returns_only f (raise e).
Proof. intros st out st' H. discriminate H. Qed.

Lemma ro_bind {A} (f : ManagedFile) (m : M A) (k : A -> M ManagedFile) :
  reserves_at_most 0 m -> (forall a, returns_only f (k a)) ->
  returns_only f (bind m k).
Proof.
  intros Hm Hk st out st' H. unfold bind in H.
  destruct (ram0_keeps m Hm st) as [Hl Hn].
  destruct (m st) as [[a|e] st1]; [|discriminate H]. simpl in Hl, Hn.
  destruct (Hk a st1 out st' H) as (-> & Hl' & Hn').
  repeat split; congruence.
Qed.

Lemma iof_ret (file : ManagedFile) : input_or_fresh file (ret file).
Proof. intros st out st' [= <- <-]. left. repeat split. Qed.

Lemma iof_raise (file : ManagedFile) (e : exn) :
  input_or_fresh file (raise e).
Proof. intros st out st' H. discriminate H. Qed.

Lemma iof_bind {A} (file : ManagedFile) (m : M A) (k : A -> M ManagedFile) :
  reserves_at_most 0 m -> (forall a, input_or_fresh file (k a)) ->
  input_or_fresh file (bind m k).
Proof.
  intros Hm Hk st out st' H. unfold bind in H.
  destruct (ram0_keeps m Hm st) as [Hl Hn].
  destruct (m st) as [[a|e] st1]; [|discriminate H]. simpl in Hl, Hn.
  destruct (Hk a st1 out st' H) as [(-> & Hl' & Hn') | (ext & -> & Hl' & Hn')].
  - left. repeat split; congruence.
  - right. exists ext. rewrite Hl', Hn', Hl, Hn. repeat split.
Qed.

Lemma iof_bind_reserve (file : ManagedFile) (ext : string)
    (k : ManagedFile -> M ManagedFile) :
  (forall f, returns_only f (k f)) ->
  input_or_fresh file (bind (reserve_tempfile ext) k).
Proof.
  intros Hk st out st' H. unfold bind, reserve_tempfile in H.
  cbv beta iota zeta in H.
  apply Hk in H. destruct H as (-> & Hl & Hn).
  right. exists ext. rewrite Hl, Hn. repeat split.
Qed.

Ltac ro :=
  repeat first
    [ apply ro_ret | apply ro_raise
    | apply ro_bind; [solve [ram_ops] | intros ?]
    | match goal with
      | |- returns_only _ (match ?x with _ => _ end) => destruct x
      | |- returns_only _ (if ?x then _ else _) => destruct x
      | |- returns_only _ (let _ := _ in _) => cbv zeta
      end ].

Ltac iof :=
  repeat first
    [ apply iof_ret | apply iof_raise
    | apply iof_bind_reserve; intros ?; solve [ro]
    | apply iof_bind; [solve [ram_ops] | intros ?]
    | match goal with
      | |- input_or_fresh _ (match ?x with _ => _ end) => destruct x
      | |- input_or_fresh _ (if ?x then _ else _) => destruct x
      | |- input_or_fresh _ (let _ := _ in _) => cbv zeta
      end ].

Lemma iof_videotogif w f : input_or_fresh f (videotogif w f).
Proof. unfold videotogif. iof. Qed.

Lemma iof_video_reencode w f : input_or_fresh f (video_reencode w f).
Proof. unfold video_reencode. iof. Qed.

Lemma iof_audio_reencode w f : input_or_fresh f (audio_reencode w f).
Proof. unfold audio_reencode. iof. Qed.

Lemma iof_mediatoimage w f t : input_or_fresh f (mediatoimage w f t).
Proof. unfold mediatoimage. iof. Qed.

(** X15.  The handle a converter returns is either its input, and then the
    call has reserved nothing, or the handle of the one file the call has
    reserved itself, unlocked and numbered by the counter.  No converter
    returns a handle that some other call has reserved. *)
Theorem converters_return_input_or_fresh (w : World) (file : ManagedFile)
    (imagetype : string) (n : Z) :
  input_or_fresh file (allreencode w file)
  /\ input_or_fresh file (forcereencode w file)
  /\ input_or_fresh file (videotogif w file)
  /\ input_or_fresh file (video_reencode w file)
  /\ input_or_fresh file (audio_reencode w file)
  /\ input_or_fresh file (mediatoimage w file imagetype)
  /\ input_or_fresh file (giftomp4 w file)
  /\ input_or_fresh file (toaudio w file)
  /\ input_or_fresh file (frame_n w file n).
Proof.
  repeat match goal with |- _ /\ _ => split end;
    try first [ apply iof_videotogif | apply iof_video_reencode
              | apply iof_audio_reencode | apply iof_mediatoimage ].
  - unfold allreencode.
    destruct (lock_codec file); [apply iof_ret|].
    cbv zeta. destruct (mediatype w file);
      first [ apply iof_mediatoimage | apply iof_video_reencode
            | apply iof_audio_reencode | apply iof_videotogif
            | apply iof_raise ].
  - unfold forcereencode. cbv zeta.
    destruct (mediatype w file);
      first [ apply iof_videotogif | apply iof_raise | iof ].
  - unfold giftomp4. iof.
  - unfold toaudio. iof.
  - unfold frame_n. iof.
Qed.

(** * Further properties of the context media resolver *)




Example embed_tasks_tenor :
  embed_tasks net_ok
    (mkEmbed "gifv" "https://tenor.com/view/cat-dance-12345" EmptyString)
  = [FetchTask
       "https://tenor.googleapis.com/v2/posts?ids=12345&key=KEY&limit=1"].
Proof. reflexivity. Qed.

Lemma split_on_dash_free (s : list ascii) :
  dash_free s -> split_on "-"%char s = [s].
Proof.
  unfold dash_free. induction s as [|a s IH]; intros H; [reflexivity|].
  simpl. destruct (Ascii.eqb a "-"%char) eqn:E.
  - apply Ascii.eqb_eq in E. exfalso. apply H. left. congruence.
  - rewrite IH; [reflexivity|]. intros Hin. apply H. right. exact Hin.
Qed.

Lemma split_on_word (word rest : list ascii) :
  dash_free word ->
  split_on "-"%char (word ++ "-"%char :: rest)
  = word :: split_on "-"%char rest.
Proof.
  unfold dash_free. induction word as [|a word IH]; intros H.
  - reflexivity.
  - simpl. destruct (Ascii.eqb a "-"%char) eqn:E.
    + apply Ascii.eqb_eq in E. exfalso. apply H. left. congruence.
    + rewrite IH; [reflexivity|]. intros Hin. apply H. right. exact Hin.
Qed.

Lemma split_on_slug (words : list (list ascii)) (id : list ascii) :
  Forall dash_free words -> dash_free id ->
  split_on "-"%char (slug words id) = words ++ [id].
Proof.
  intros Hw Hid. unfold slug. induction Hw as [|word words Hword _ IH].
  - simpl. apply split_on_dash_free. exact Hid.
  - simpl. rewrite <- !app_assoc. simpl. rewrite split_on_word by exact Hword.
    rewrite IH. reflexivity.
Qed.

Lemma digits_dash_free (d : list ascii) :
  forallb digit d = true -> dash_free d.
Proof.
  intros H Hin. rewrite forallb_forall in H. specialize (H _ Hin).
  discriminate H.
Qed.

Lemma match_slug_slug (words : list (list ascii)) (id : list ascii) :
  id <> [] -> forallb digit id = true ->
  Forall (fun word => word <> [] /\ dash_free word) words ->
  match_slug (slug words id) = Some (string_of_list_ascii id).
Proof.
  intros Hne Hd Hw. unfold match_slug.
  rewrite split_on_slug.
  - rewrite rev_app_distr. simpl rev. cbn [app]. rewrite Hd.
    replace (nonempty id) with true by (destruct id; [congruence|reflexivity]).
    replace (forallb nonempty (rev words)) with true; [reflexivity|].
    symmetry. apply forallb_forall. intros word Hin. apply in_rev in Hin.
    rewrite List.Forall_forall in Hw. destruct (Hw _ Hin) as [Hn _].
    destruct word; [congruence | reflexivity].
  - eapply List.Forall_impl; [|exact Hw]. intros word [_ H]. exact H.
  - apply digits_dash_free. exact Hd.
Qed.

Lemma slug_ends_with_digit (words : list (list ascii)) (id : list ascii) :
  id <> [] -> forallb digit id = true ->
  exists c body, rev (slug words id) = c :: body /\ digit c = true.
Proof.
  intros Hne Hd. unfold slug. rewrite rev_app_distr.
  destruct (rev id) as [|c body] eqn:E.
  - exfalso. apply Hne. rewrite <- (rev_involutive id), E. reflexivity.
  - exists c. eexists. split; [reflexivity|].
    rewrite forallb_forall in Hd. apply Hd. apply in_rev. rewrite E.
    left. reflexivity.
Qed.

Lemma tenor_url_roundtrip_aux (words : list (list ascii)) (id : list ascii) :
  id <> [] ->
  forallb digit id = true ->
  Forall (fun word => word <> [] /\ dash_free word) words ->
  let path := slug words id in
  tenor_url_fullmatch
    ("https://tenor.com/view/" ++ string_of_list_ascii path)%string
  = Some (string_of_list_ascii id)
  /\ tenor_url_fullmatch
       ("http://tenor.com/view/" ++ string_of_list_ascii path)%string
     = Some (string_of_list_ascii id)
  /\ tenor_url_fullmatch
       ("https://tenor.com/view/"
        ++ string_of_list_ascii (path ++ ["/"%char]))%string
     = Some (string_of_list_ascii id)
  /\ tenor_url_fullmatch
       ("http://tenor.com/view/"
        ++ string_of_list_ascii (path ++ ["/"%char]))%string
     = Some (string_of_list_ascii id).
Proof.
  intros Hne Hd Hw. cbv zeta.
  pose proof (match_slug_slug words id Hne Hd Hw) as Hm.
  destruct (slug_ends_with_digit words id Hne Hd) as (c & body & Hrev & Hc).
  assert (Hplain :
    match rev (list_ascii_of_string (string_of_list_ascii (slug words id))) with
    | "/"%char :: body => match_slug (rev body)
    | _ => match_slug
             (list_ascii_of_string (string_of_list_ascii (slug words id)))
    end = Some (string_of_list_ascii id)).
  { rewrite list_ascii_of_string_of_list_ascii, Hrev.
    destruct c as [[] [] [] [] [] [] [] []];
      first [discriminate Hc | exact Hm]. }
  assert (Hslash :
    match rev (list_ascii_of_string
                 (string_of_list_ascii (slug words id ++ ["/"%char]))) with
    | "/"%char :: body => match_slug (rev body)
    | _ => match_slug
             (list_ascii_of_string
                (string_of_list_ascii (slug words id ++ ["/"%char])))
    end = Some (string_of_list_ascii id)).
  { rewrite list_ascii_of_string_of_list_ascii, rev_app_distr. simpl rev.
    cbn [app]. rewrite rev_involutive. exact Hm. }
  repeat split; first [exact Hplain | exact Hslash].
Qed.

(** X17.  The permalink pattern accepts what it is meant to accept, and gives
    back the id: a path made of non-empty dash-free words, each followed by
    a dash, and a final non-empty run of digits, after either scheme and
    with or without a closing slash, matches with that run as the id. *)
Theorem tenor_url_roundtrip (words : list (list ascii)) (id : list ascii) :
  id <> [] ->
  forallb digit id = true ->
  Forall (fun word => word <> [] /\ dash_free word) words ->
  let path := slug words id in
  tenor_url_fullmatch
    ("https://tenor.com/view/" ++ string_of_list_ascii path)%string
  = Some (string_of_list_ascii id)
  /\ tenor_url_fullmatch
       ("http://tenor.com/view/" ++ string_of_list_ascii path)%string
     = Some (string_of_list_ascii id)
  /\ tenor_url_fullmatch
       ("https://tenor.com/view/"
        ++ string_of_list_ascii (path ++ ["/"%char]))%string
     = Some (string_of_list_ascii id)
  /\ tenor_url_fullmatch
       ("http://tenor.com/view/"
        ++ string_of_list_ascii (path ++ ["/"%char]))%string
     = Some (string_of_list_ascii id).
Proof. exact (tenor_url_roundtrip_aux words id). Qed.

Lemma tenor_url_roundtrip_witness :
  let words := [list_ascii_of_string "cat"; list_ascii_of_string "dance"] in
  let id := list_ascii_of_string "12345" in
  (id <> []
   /\ forallb digit id = true
   /\ Forall (fun word => word <> [] /\ dash_free word) words)
  /\ tenor_url_fullmatch
       ("https://tenor.com/view/" ++ string_of_list_ascii (slug words id))%string
     = Some (string_of_list_ascii id).
Proof.
  cbv zeta.
  assert (H1 : list_ascii_of_string "12345" <> []) by discriminate.
  assert (H3 : Forall (fun word => word <> [] /\ dash_free word)
                 [list_ascii_of_string "cat"; list_ascii_of_string "dance"]).
  { repeat constructor; try discriminate;
      (intros H; simpl in H; intuition discriminate). }
  split; [split; [exact H1 | split; [reflexivity | exact H3]]|].
  exact (proj1 (tenor_url_roundtrip
                  [list_ascii_of_string "cat"; list_ascii_of_string "dance"]
                  (list_ascii_of_string "12345") H1 eq_refl H3)).
Defined.

Lemma ends_with_txt (l : list ascii) :
  match rev l with
  | "t"%char :: "x"%char :: "t"%char :: "."%char :: _ => true
  | _ => false
  end = true
  <-> exists stem, l = stem ++ dot_txt.
Proof.
  split.
  - intros H. destruct (rev l) as [|c1 [|c2 [|c3 [|c4 body]]]] eqn:E;
      try (destruct c1 as [[] [] [] [] [] [] [] []]; discriminate H);
      try (destruct c1 as [[] [] [] [] [] [] [] []]; try discriminate H;
           destruct c2 as [[] [] [] [] [] [] [] []]; discriminate H);
      try (destruct c1 as [[] [] [] [] [] [] [] []]; try discriminate H;
           destruct c2 as [[] [] [] [] [] [] [] []]; try discriminate H;
           destruct c3 as [[] [] [] [] [] [] [] []]; discriminate H).
    + discriminate H.
    + destruct c1 as [[] [] [] [] [] [] [] []]; try discriminate H;
        destruct c2 as [[] [] [] [] [] [] [] []]; try discriminate H;
        destruct c3 as [[] [] [] [] [] [] [] []]; try discriminate H;
        destruct c4 as [[] [] [] [] [] [] [] []]; try discriminate H.
      exists (rev body). rewrite <- (rev_involutive l), E. simpl.
      rewrite <- !app_assoc. reflexivity.
  - intros [stem ->]. rewrite rev_app_distr. reflexivity.
Qed.

Lemma one_line_forallb (s : list ascii) :
  one_line s <-> forallb (fun c => negb (Ascii.eqb c newline)) s = true.
Proof.
  unfold one_line. rewrite forallb_forall. split.
  - intros H c Hin. apply negb_true_iff, Ascii.eqb_neq. intros ->.
    contradiction.
  - intros H Hin. specialize (H _ Hin).
    rewrite Ascii.eqb_refl in H. discriminate H.
Qed.

(** X18.  For a file name without a line break, the plain-text test of
    [handlemessagesave] holds exactly of the names that end in ".txt" in
    any mix of upper and lower case; nothing is required of what comes
    before, which may be empty. *)
Theorem txt_file_match_suffix_iff (filename : string) :
  one_line (list_ascii_of_string filename) ->
  txt_file_match filename = true
  <-> exists stem,
        List.map lower (list_ascii_of_string filename) = stem ++ dot_txt.
Proof.
  intros Hline. unfold txt_file_match, dot_star_txt.
  set (s := list_ascii_of_string filename) in *.
  pose proof (proj1 (one_line_forallb s) Hline) as Hall.
  rewrite Hall. cbn [andb].
  assert (Hlast : match rev s with
                  | c :: body =>
                      Ascii.eqb c newline
                      && (forallb (fun c => negb (Ascii.eqb c newline))
                            (rev body)
                          && match rev (List.map lower (rev body)) with
                             | "t"%char :: "x"%char :: "t"%char :: "."%char :: _
                               => true
                             | _ => false
                             end)
                  | [] => false
                  end = false).
  { destruct (rev s) as [|c body] eqn:E; [reflexivity|].
    replace (Ascii.eqb c newline) with false; [reflexivity|].
    symmetry. apply Ascii.eqb_neq. intros ->. apply Hline.
    apply in_rev. rewrite E. left. reflexivity. }
  rewrite Hlast, orb_false_r. apply ends_with_txt.
Qed.

Lemma txt_file_match_suffix_iff_witness :
  one_line (list_ascii_of_string "Traceback.TxT")
  /\ (txt_file_match "Traceback.TxT" = true
      <-> exists stem,
            List.map lower (list_ascii_of_string "Traceback.TxT")
            = stem ++ dot_txt).
Proof.
  assert (H : one_line (list_ascii_of_string "Traceback.TxT")).
  { apply one_line_forallb. reflexivity. }
  split; [exact H|].
  apply (txt_file_match_suffix_iff "Traceback.TxT"). exact H.
Defined.

Lemma gate_true_all (m : Message) (ign : list Attachment) :
  existsb (fun att => negb (att_in att ign)) (attachments m)
  = negb (forallb (fun att => att_in att ign) (attachments m)).
Proof.
  induction (attachments m) as [|a l IH]; [reflexivity|].
  simpl. rewrite IH. destruct (att_in a ign); reflexivity.
Qed.

(** X19.  The list of attachments to ignore works on a message as a whole.
    If every attachment of the message is on the list, the message is
    treated as if it had no attachment; if at least one is not, the list
    has no effect at all and the message is treated as if none had been
    given. *)
Theorem ignoreatts_all_or_nothing (net : Net) (m : Message)
    (ign : list Attachment) :
  msg_type m <> thread_starter_message ->
  (forallb (fun att => att_in att ign) (attachments m) = true ->
   handlemessagesave net m (Some ign)
   = handlemessagesave net (without_attachments m) None)
  /\ (forallb (fun att => att_in att ign) (attachments m) = false ->
      handlemessagesave net m (Some ign) = handlemessagesave net m None).
Proof.
  intros Hty.
  assert (Ho : thread_origin m = Return m).
  { unfold thread_origin. destruct (msg_type m); congruence. }
  assert (Ho' : thread_origin (without_attachments m)
                = Return (without_attachments m)).
  { unfold thread_origin, without_attachments. destruct m as [i t e a s r].
    simpl in *. destruct t; congruence. }
  split; intros Hall.
  - unfold handlemessagesave. rewrite Ho, Ho'.
    assert (He : process_embeds net (without_attachments m) []
                 = process_embeds net m []) by (destruct m; reflexivity).
    rewrite He. destruct (process_embeds net m []) as [found|e]; [|reflexivity].
    f_equal. unfold process_attachments, attachments_gate.
    rewrite gate_true_all, Hall. rewrite andb_false_r.
    destruct m; reflexivity.
  - unfold handlemessagesave. rewrite Ho.
    destruct (process_embeds net m []) as [found|e]; [|reflexivity].
    f_equal. f_equal. unfold process_attachments, attachments_gate.
    rewrite gate_true_all, Hall. cbn [negb]. rewrite andb_true_r.
    reflexivity.
Qed.

Lemma ignoreatts_all_or_nothing_witness :
  let m := mkMessage 10 default [] [cat_png; dog_png] [wave_sticker] None in
  msg_type m <> thread_starter_message
  /\ forallb (fun att => att_in att [cat_png])
       (attachments m) = false
  /\ handlemessagesave net_ok m (Some [cat_png])
     = handlemessagesave net_ok m None.
Proof.
  cbv zeta.
  assert (H : msg_type (mkMessage 10 default [] [cat_png; dog_png]
                          [wave_sticker] None)
              <> thread_starter_message) by discriminate.
  split; [exact H|]. split; [reflexivity|].
  apply (proj2 (ignoreatts_all_or_nothing net_ok
                  (mkMessage 10 default [] [cat_png; dog_png]
                     [wave_sticker] None) [cat_png] H)).
  reflexivity.
Defined.

Lemma last_of_rev {A} (l : list A) (x d : A) (rest : list A) :
  rev l = x :: rest -> List.last l d = x.
Proof.
  intros H. rewrite <- (rev_involutive l), H. simpl. apply List.last_last.
Qed.

(** X20.  Whatever embeds a message has, the only plain URL its embed stage
    ever returns is that of the last embed of the message: each check that
    passes, for whichever embed it was made, adds the URL of the last one. *)
Theorem process_embeds_last_embed_only (net : Net) (m : Message)
    (l : list Candidate) (dflt : Embed) :
  process_embeds net m [] = Return l ->
  Forall (fun c => (exists url, c = TenorUrl url)
                   \/ c = Url (embed_url (List.last (embeds m) dflt))) l.
Proof.
  unfold process_embeds. intros H.
  destruct (rev (embeds m)) as [|embed rest] eqn:E.
  - injection H as <-. constructor.
  - apply process_results_appends in H. destruct H as (found & -> & Hf).
    rewrite (last_of_rev _ _ dflt _ E). exact Hf.
Qed.

Lemma process_embeds_last_embed_only_witness :
  process_embeds net_ok two_embed_message []
  = Return [Url "https://news.example/article"]
  /\ Forall (fun c => (exists url, c = TenorUrl url)
                      \/ c = Url (embed_url
                                    (List.last (embeds two_embed_message)
                                       clip_embed)))
       [Url "https://news.example/article"].
Proof.
  split; [reflexivity|].
  apply (process_embeds_last_embed_only net_ok two_embed_message
           [Url "https://news.example/article"] clip_embed).
  reflexivity.
Defined.

(** X21.  For a message whose only embed is an image, the embed URL is
    returned once for each of the two length checks (of the URL and of the
    thumbnail) that passes, so twice when both do; for a video or audio
    embed, once if its one check passes.  A check passes when it returns a
    non-zero length, and also when it raises. *)
Theorem single_embed_candidates (net : Net) (m : Message) (embed : Embed) :
  embeds m = [embed] ->
  let once (url : string) :=
    if check_passes (contentlength net url) then [Url (embed_url embed)]
    else [] in
  (embed_type embed = "image" ->
   process_embeds net m []
   = Return (once (embed_url embed) ++ once (thumbnail_url embed)))
  /\ (embed_type embed = "video" \/ embed_type embed = "audio" ->
      process_embeds net m [] = Return (once (embed_url embed))).
Proof.
  intros He. cbv zeta. unfold process_embeds. rewrite He. simpl rev.
  cbn [app flat_map]. rewrite app_nil_r. unfold embed_tasks.
  split.
  - intros Hty. rewrite Hty. simpl String.eqb. cbn [existsb orb].
    cbv iota. unfold gather. cbn [List.map run_task].
    destruct (contentlength net (embed_url embed)) as [[n1|]|];
      destruct (contentlength net (thumbnail_url embed)) as [[n2|]|];
      simpl; try destruct (n1 =? 0); try destruct (n2 =? 0); reflexivity.
  - intros [Hty | Hty]; rewrite Hty; simpl String.eqb; cbn [existsb orb];
      cbv iota; unfold gather; cbn [List.map run_task];
      destruct (contentlength net (embed_url embed)) as [[n1|]|];
      simpl; try destruct (n1 =? 0); reflexivity.
Qed.

Lemma single_embed_candidates_witness :
  let m := mkMessage 21 default [clip_embed] [] [] None in
  (embeds m = [clip_embed]
   /\ (embed_type clip_embed = "video" \/ embed_type clip_embed = "audio"))
  /\ process_embeds net_down m []
     = Return (if check_passes (contentlength net_down (embed_url clip_embed))
               then [Url (embed_url clip_embed)] else []).
Proof.
  cbv zeta. split; [split; [reflexivity | left; reflexivity]|].
  apply (proj2 (single_embed_candidates net_down
                  (mkMessage 21 default [clip_embed] [] [] None)
                  clip_embed eq_refl)).
  left. reflexivity.
Defined.

Example failed_check_is_accepted :
  handlemessagesave net_down (mkMessage 21 default [clip_embed] [] [] None) None
  = Return [Url "https://video.example/clip.mp4"].
Proof. reflexivity. Qed.

Lemma enough_false_lt (l : list Candidate) (nargs : Z) :
  enough l nargs = false <-> Z.of_nat (length l) < nargs.
Proof. unfold enough. rewrite Z.leb_gt. reflexivity. Qed.

Lemma enough_true_le (l : list Candidate) (nargs : Z) :
  enough l nargs = true <-> nargs <= Z.of_nat (length l).
Proof. unfold enough. rewrite Z.leb_le. reflexivity. Qed.

Lemma first_candidates_enough (nargs : Z) (l more : list Candidate) :
  1 <= nargs -> enough l nargs = true ->
  Files (slice_to l nargs) = first_candidates nargs (l ++ more).
Proof.
  intros Hn He. apply enough_true_le in He. unfold first_candidates, slice_to.
  replace (0 <=? nargs) with true by (symmetry; apply Z.leb_le; lia).
  destruct l as [|c l]; [simpl in He; lia|]. cbn [app nonempty].
  f_equal. change (c :: l ++ more) with ((c :: l) ++ more).
  rewrite firstn_app.
  replace (Z.to_nat nargs - length (c :: l))%nat with 0%nat by lia.
  simpl firstn at 2. rewrite app_nil_r. reflexivity.
Qed.

Lemma first_candidates_short (nargs : Z) (l : list Candidate) :
  enough l nargs = false ->
  (if nonempty l then Files l else PyFalse) = first_candidates nargs l.
Proof.
  intros He. apply enough_false_lt in He. unfold first_candidates.
  destruct l as [|c l]; [reflexivity|]. cbn [nonempty]. f_equal.
  symmetry. apply firstn_all2. lia.
Qed.

Lemma search_history_collect (net : Net) (nargs : Z) (hist : list Message) :
  1 <= nargs ->
  forall seen_messages outfiles more,
    enough outfiles nargs = false ->
    collect net (List.map (fun m => VisitMessage m None)
                   (unseen hist seen_messages)) = Return more ->
    search_history net nargs hist seen_messages outfiles
    = Return (first_candidates nargs (outfiles ++ more)).
Proof.
  intros Hn. induction hist as [|m rest IH]; intros seen outfiles more He Hc.
  - simpl in Hc. injection Hc as <-. simpl. rewrite app_nil_r.
    f_equal. apply first_candidates_short. exact He.
  - simpl. simpl in Hc. destruct (bool_decide (msg_id m ∈ seen)).
    + apply IH; assumption.
    + simpl in Hc.
      destruct (handlemessagesave net m None) as [found|e]; [|discriminate Hc].
      destruct (collect net
                  (List.map (fun m => VisitMessage m None)
                     (unseen rest ({[msg_id m]} ∪ seen))))
        as [more'|e] eqn:Hrest; [|discriminate Hc].
      injection Hc as <-. rewrite app_assoc.
      destruct (enough (outfiles ++ found) nargs) eqn:He'.
      * f_equal. apply first_candidates_enough; assumption.
      * apply IH; [exact He' | exact Hrest].
Qed.

(** X22.  When no message of the bounded walk makes [handlemessagesave]
    raise, [imagesearch] with a count of at least 1 returns the first
    [nargs] candidates of the walk taken in its order: those of the
    triggering message, then those of the reply target, then those of the
    history from the newest message on; and [False] if there are none. *)
Theorem imagesearch_first_of_walk (net : Net) (ctx : Context) (nargs : Z)
    (ignore : option (list Attachment)) (all : list Candidate) :
  1 <= nargs ->
  collect net (bounded_walk ctx ignore) = Return all ->
  imagesearch net ctx nargs ignore = Return (first_candidates nargs all).
Proof.
  intros Hn Hc. unfold imagesearch. unfold bounded_walk in Hc.
  cbn [collect visit] in Hc.
  destruct (handlemessagesave net (message ctx) ignore) as [found|e];
    [|discriminate Hc].
  destruct (enough found nargs) eqn:He0.
  { destruct (collect net _) as [more|e]; [|discriminate Hc].
    injection Hc as <-. f_equal. apply first_candidates_enough; assumption. }
  destruct (reference (message ctx)) as [[|id|ref_msg]|].
  - destruct (collect net _) as [more|e] eqn:Hrest; [|discriminate Hc].
    injection Hc as <-.
    apply search_history_collect; assumption.
  - simpl in Hc. discriminate Hc.
  - cbn [collect visit] in Hc.
    destruct (handlemessagesave net ref_msg None) as [found'|e];
      [|discriminate Hc].
    destruct (collect net _) as [more|e] eqn:Hrest; [|discriminate Hc].
    injection Hc as <-. rewrite app_assoc.
    destruct (enough (found ++ found') nargs) eqn:He1.
    + f_equal. apply first_candidates_enough; assumption.
    + apply search_history_collect; assumption.
  - destruct (collect net _) as [more|e] eqn:Hrest; [|discriminate Hc].
    injection Hc as <-.
    apply search_history_collect; assumption.
Qed.

Lemma imagesearch_first_of_walk_witness :
  (1 <= 3
   /\ collect net_ok (bounded_walk command_context None)
      = Return [Url "https://img.example/photo.jpg";
                Url "https://img.example/photo.jpg";
                Url "https://cdn.example/cat.png";
                Url "https://cdn.example/wave.png"])
  /\ imagesearch net_ok command_context 3 None
     = Return (Files [Url "https://img.example/photo.jpg";
                      Url "https://img.example/photo.jpg";
                      Url "https://cdn.example/cat.png"]).
Proof.
  assert (H : collect net_ok (bounded_walk command_context None)
              = Return [Url "https://img.example/photo.jpg";
                        Url "https://img.example/photo.jpg";
                        Url "https://cdn.example/cat.png";
                        Url "https://cdn.example/wave.png"])
    by (vm_compute; reflexivity).
  split; [split; [lia | exact H]|].
  apply (imagesearch_first_of_walk net_ok command_context 3 None _
           ltac:(lia) H).
Defined.

Lemma search_history_unseen (net : Net) (nargs : Z) (hist : list Message) :
  forall (seen_messages : gset Z) (outfiles : list Candidate),
    search_history net nargs hist seen_messages outfiles
    = search_history net nargs (unseen hist seen_messages) seen_messages
        outfiles.
Proof.
  induction hist as [|m rest IH]; intros seen outfiles; [reflexivity|].
  simpl. destruct (bool_decide (msg_id m ∈ seen)) eqn:E.
  - apply IH.
  - simpl. rewrite E.
    destruct (handlemessagesave net m None) as [found|e]; [|reflexivity].
    destruct (enough (outfiles ++ found) nargs); [reflexivity|]. apply IH.
Qed.

(** X23.  The loop of [imagesearch] over the history skips exactly the
    messages whose id has been seen: it behaves as a loop over the messages
    it does not skip, among which no id occurs twice and none is the id of
    a message seen before, the triggering message and the reply target
    included. *)
Theorem unseen_visits_once (hist : list Message) :
  forall seen_messages : gset Z,
    (forall net nargs outfiles,
       search_history net nargs hist seen_messages outfiles
       = search_history net nargs (unseen hist seen_messages) seen_messages
           outfiles)
    /\ List.NoDup (List.map msg_id (unseen hist seen_messages))
    /\ Forall (fun m => msg_id m ∉ seen_messages) (unseen hist seen_messages)
    /\ Forall (fun m => In m hist) (unseen hist seen_messages).
Proof.
  intros seen. split.
  { intros net nargs outfiles. apply search_history_unseen. }
  revert seen.
  induction hist as [|m rest IH]; intros seen; simpl.
  - repeat split; constructor.
  - destruct (bool_decide (msg_id m ∈ seen)) eqn:E.
    + destruct (IH seen) as (H1 & H2 & H3). repeat split; try assumption.
      eapply List.Forall_impl; [|exact H3]. intros a Ha. right. exact Ha.
    + apply bool_decide_eq_false in E.
      destruct (IH ({[msg_id m]} ∪ seen)) as (H1 & H2 & H3).
      repeat split.
      * simpl. constructor; [|exact H1].
        intros Hin. apply in_map_iff in Hin. destruct Hin as (m' & Hid & Hm').
        rewrite List.Forall_forall in H2. specialize (H2 _ Hm').
        apply H2. rewrite Hid. apply elem_of_union. left.
        apply elem_of_singleton. reflexivity.
      * constructor; [exact E|].
        eapply List.Forall_impl; [|exact H2]. intros a Ha Hs.
        apply Ha. apply elem_of_union. right. exact Hs.
      * constructor; [left; reflexivity|].
        eapply List.Forall_impl; [|exact H3]. intros a Ha. right. exact Ha.
Qed.

(** X24.  With a count of 0 or less only the triggering message is looked
    at: [imagesearch] returns at once, with an empty list for a count of 0
    and, for a count of [-k], with what the message yields short of its last
    [k] candidates; it never returns [False]. *)
Theorem imagesearch_nonpositive_count (net : Net) (ctx : Context) (nargs : Z)
    (ignore : option (list Attachment)) (found : list Candidate) :
  nargs <= 0 ->
  handlemessagesave net (message ctx) ignore = Return found ->
  (nargs = 0 -> imagesearch net ctx nargs ignore = Return (Files []))
  /\ (nargs < 0 ->
      imagesearch net ctx nargs ignore
      = Return (Files (firstn (length found - Z.to_nat (- nargs)) found))).
Proof.
  intros Hn Hf.
  assert (Hrun : imagesearch net ctx nargs ignore
                 = Return (Files (slice_to found nargs))).
  { unfold imagesearch. rewrite Hf.
    replace (enough found nargs) with true; [reflexivity|].
    symmetry. apply enough_true_le. lia. }
  rewrite Hrun. split.
  - intros ->. reflexivity.
  - intros Hneg. f_equal. f_equal. unfold slice_to.
    replace (0 <=? nargs) with false by (symmetry; apply Z.leb_gt; lia).
    f_equal. lia.
Qed.

Lemma imagesearch_nonpositive_count_witness :
  let ctx := mkContext mixed_message [] in
  (-1 <= 0
   /\ handlemessagesave net_ok (message ctx) None
      = Return [Url "https://img.example/photo.jpg";
                Url "https://img.example/photo.jpg";
                Url "https://cdn.example/cat.png";
                Url "https://cdn.example/wave.png"])
  /\ imagesearch net_ok ctx (-1) None
     = Return (Files [Url "https://img.example/photo.jpg";
                      Url "https://img.example/photo.jpg";
                      Url "https://cdn.example/cat.png"]).
Proof.
  cbv zeta. split; [split; [lia | reflexivity]|].
  apply (proj2 (imagesearch_nonpositive_count net_ok
                  (mkContext mixed_message []) (-1) None _
                  ltac:(lia) eq_refl)).
  lia.
Defined.

Lemma handletenor_no_gifv (api : TenorApi) (m : Message) (gif : bool)
    (sent : list string) :
  first_embed_gifv m = false ->
  handletenor api m gif sent = (Return TenorNone, sent).
Proof.
  unfold first_embed_gifv, handletenor. destruct (embeds m) as [|embed rest];
    [reflexivity|]. intros ->. reflexivity.
Qed.

Lemma handletenor_gifv (api : TenorApi) (m : Message) (gif : bool)
    (sent : list string) :
  first_embed_gifv m = true ->
  fst (handletenor api m gif sent) <> Return TenorNone.
Proof.
  unfold first_embed_gifv, handletenor. destruct (embeds m) as [|embed rest];
    [discriminate|]. intros ->.
  destruct (api_fetch api _) as [[|error| |gif_url mp4_url|]|e];
    try discriminate.
  destruct (if gif then gif_url else mp4_url); discriminate.
Qed.



Lemma tenor_history_find (api : TenorApi) (hist : list Message) (gif : bool)
    (sent : list string) :
  tenor_history api hist gif sent
  = match List.find first_embed_gifv hist with
    | Some m => handletenor api m gif sent
    | None => (Return TenorFalse, sent)
    end.
Proof.
  induction hist as [|m rest IH]; [reflexivity|]. simpl.
  destruct (first_embed_gifv m) eqn:Hg.
  - pose proof (handletenor_gifv api m gif sent Hg) as Hne.
    destruct (handletenor api m gif sent) as [[[| |url]|e] sent'];
      try reflexivity. simpl in Hne. congruence.
  - rewrite handletenor_no_gifv by exact Hg. exact IH.
Qed.

(** X26.  When the triggering message is not a reply, [tenorsearch] settles
    on the newest of the 50 most recent messages whose first embed is of
    type gifv, and returns what [handletenor] makes of that one message: a
    lookup error on it ends the search with [False], older messages are not
    tried.  If there is no such message the result is [False], with nothing
    fetched or sent.  In no case is the result [None]. *)
Theorem tenorsearch_first_gifv (api : TenorApi) (ctx : Context)
    (recent : list Message) (gif : bool) (sent : list string) :
  reference (message ctx) = None ->
  tenorsearch api ctx recent gif sent
  = match List.find first_embed_gifv (firstn 50 recent) with
    | Some m => handletenor api m gif sent
    | None => (Return TenorFalse, sent)
    end
  /\ fst (tenorsearch api ctx recent gif sent) <> Return TenorNone.
Proof.
  intros Href. unfold tenorsearch. rewrite Href.
  rewrite tenor_history_find. split; [reflexivity|].
  destruct (List.find first_embed_gifv (firstn 50 recent)) as [m|] eqn:E.
  - apply List.find_some in E. destruct E as [_ Hg].
    apply handletenor_gifv. exact Hg.
  - discriminate.
Qed.

Lemma tenorsearch_first_gifv_witness :
  let ctx := mkContext (mkMessage 32 default [] [] [] None) [] in
  let older := mkMessage 29 default
                 [mkEmbed "gifv" "https://tenor.com/view/older-777" EmptyString]
                 [] [] None in
  reference (message ctx) = None
  /\ tenorsearch api_error ctx [message ctx; mixed_message; tenor_message; older]
       false []
     = (Return TenorFalse, ["!! Tenor Error! `rate limited`"])
  /\ fst (tenorsearch api_error ctx
            [message ctx; mixed_message; tenor_message; older] false [])
     <> Return TenorNone.
Proof.
  cbv zeta. split; [reflexivity|].
  destruct (tenorsearch_first_gifv api_error
              (mkContext (mkMessage 32 default [] [] [] None) [])
              [mkMessage 32 default [] [] [] None; mixed_message;
               tenor_message;
               mkMessage 29 default
                 [mkEmbed "gifv" "https://tenor.com/view/older-777"
                          EmptyString] [] [] None]
              false [] eq_refl) as [H1 H2].
  split; [exact (eq_trans H1 eq_refl) | exact H2].
Defined.

(** * Properties of safe_reply *)

Lemma string_length_of_list (l : list ascii) :
  String.length (string_of_list_ascii l) = length l.
Proof. induction l as [|c l IH]; simpl; [reflexivity | rewrite IH; reflexivity]. Qed.

Lemma string_length_to_list (s : string) :
  length (list_ascii_of_string s) = String.length s.
Proof. induction s as [|c s IH]; simpl; [reflexivity | rewrite IH; reflexivity]. Qed.

Lemma string_length_append (a b : string) :
  String.length (a ++ b)%string = (String.length a + String.length b)%nat.
Proof. induction a as [|c a IH]; simpl; [reflexivity | rewrite IH; reflexivity]. Qed.

Lemma string_append_empty (a : string) : (a ++ EmptyString)%string = a.
Proof.
  induction a as [|c a IH]; [reflexivity|].
  change (String c (a ++ EmptyString)%string = String c a). rewrite IH.
  reflexivity.
Qed.

Lemma str_slice_to_length (s : string) (n : Z) :
  0 <= n ->
  Z.of_nat (String.length (str_slice_to s n))
  = Z.min n (Z.of_nat (String.length s)).
Proof.
  intros Hn. unfold str_slice_to, slice_to.
  replace (0 <=? n) with true by (symmetry; apply Z.leb_le; exact Hn).
  rewrite string_length_of_list, length_firstn, string_length_to_list. lia.
Qed.

Lemma str_slice_to_all (s : string) (n : Z) :
  Z.of_nat (String.length s) <= n -> str_slice_to s n = s.
Proof.
  intros Hn. unfold str_slice_to, slice_to.
  replace (0 <=? n) with true by (symmetry; apply Z.leb_le; lia).
  rewrite firstn_all2 by (rewrite string_length_to_list; lia).
  apply string_of_list_ascii_of_string.
Qed.

(** X27.  The message [safe_reply] sends when the reply cannot be made
    starts with the mention of the author and, the mention being at most
    2000 characters long, is never longer than 2000 characters: the text is
    cut to what is left after the mention, and kept whole when it fits.
    The message is sent exactly when fetching the message or replying to it
    raised [NotFound] or another [HTTPException]. *)
Theorem fallback_content_fits (author : string) (args : list (option string)) :
  (String.length author <= 2000)%nat ->
  (String.length (fallback_content author args) <= 2000)%nat
  /\ (exists tail, fallback_content author args = (author ++ tail)%string)
  /\ (forall text rest,
        args = Some text :: rest ->
        (String.length author + String.length text <= 2000)%nat ->
        fallback_content author args = (author ++ text)%string)
  /\ (forall fetched replied,
        safe_reply fetched replied author args
        = SentInstead (fallback_content author args)
        <-> caught fetched = true
            \/ (fetched = ApiOk /\ caught replied = true)).
Proof.
  intros Hlen. split; [|split; [|split]].
  - unfold fallback_content. destruct args as [|a rest]; [exact Hlen|].
    rewrite string_length_append.
    pose proof (str_slice_to_length (or_empty a)
                  (2000 - Z.of_nat (String.length author)) ltac:(lia)).
    lia.
  - unfold fallback_content. destruct args as [|a rest].
    + exists EmptyString. symmetry. apply string_append_empty.
    + eexists. reflexivity.
  - intros text rest -> Hfit. unfold fallback_content. simpl or_empty.
    rewrite str_slice_to_all by lia. reflexivity.
  - intros fetched replied. unfold safe_reply.
    destruct fetched, replied; simpl; split;
      try (intros H; discriminate H);
      try (intros _; reflexivity);
      try (intros _; left; reflexivity);
      try (intros _; right; split; reflexivity);
      intros [H | [H1 H2]]; discriminate.
Qed.

Lemma fallback_content_fits_witness :
  (String.length "<@123456789012345678>" <= 2000)%nat
  /\ (String.length
        (fallback_content "<@123456789012345678>" [Some "done"]) <= 2000)%nat
  /\ fallback_content "<@123456789012345678>" [Some "done"]
     = "<@123456789012345678>done".
Proof.
  assert (H : (String.length "<@123456789012345678>" <= 2000)%nat)
    by (simpl; lia).
  split; [exact H|].
  destruct (fallback_content_fits "<@123456789012345678>" [Some "done"] H)
    as (H1 & _ & H3 & _).
  split; [exact H1|].
  apply (H3 "done" [] eq_refl). simpl. lia.
Defined.

Lemma list_ascii_of_append (a b : string) :
  list_ascii_of_string (a ++ b)%string
  = list_ascii_of_string a ++ list_ascii_of_string b.
Proof.
  induction a as [|c a IH]; [reflexivity|].
  change (c :: list_ascii_of_string (a ++ b)%string
          = c :: (list_ascii_of_string a ++ list_ascii_of_string b)).
  rewrite IH. reflexivity.
Qed.

Lemma last_piece_slug (p : string) (words : list (list ascii))
    (fin : list ascii) :
  dash_free (list_ascii_of_string p) ->
  Forall dash_free words ->
  dash_free fin ->
  last_piece (p ++ string_of_list_ascii (slug words fin))
  = match words with
    | [] => (p ++ string_of_list_ascii fin)%string
    | _ :: _ => string_of_list_ascii fin
    end.
Proof.
  intros Hp Hw Hfin. unfold last_piece.
  rewrite list_ascii_of_append, list_ascii_of_string_of_list_ascii.
  destruct words as [|word words].
  - change (slug [] fin) with fin.
    rewrite split_on_dash_free.
    + change (List.last [list_ascii_of_string p ++ fin] [])
        with (list_ascii_of_string p ++ fin).
      rewrite <- (list_ascii_of_string_of_list_ascii fin) at 1.
      rewrite <- list_ascii_of_append.
      apply string_of_list_ascii_of_string.
    + intros H. apply in_app_or in H. destruct H as [H | H];
        [exact (Hp H) | exact (Hfin H)].
  - inversion Hw as [|? ? Hword Hrest]; subst.
    replace (list_ascii_of_string p ++ slug (word :: words) fin)
      with (slug ((list_ascii_of_string p ++ word) :: words) fin)
      by (unfold slug; simpl; rewrite <- !app_assoc; reflexivity).
    rewrite split_on_slug.
    + change ((list_ascii_of_string p ++ word) :: words ++ [fin])
        with (((list_ascii_of_string p ++ word) :: words) ++ [fin]).
      rewrite List.last_last. reflexivity.
    + constructor; [|exact Hrest].
      intros H. apply in_app_or in H. destruct H as [H | H];
        [exact (Hp H) | exact (Hword H)].
    + exact Hfin.
Qed.

Lemma slug_closing_slash (words : list (list ascii)) (id : list ascii) :
  slug words id ++ ["/"%char] = slug words (id ++ ["/"%char]).
Proof. unfold slug. rewrite <- app_assoc. reflexivity. Qed.

Lemma longer_string_differs (a b : string) :
  (String.length b < String.length a)%nat -> a <> b.
Proof. intros H ->. lia. Qed.

(** X28.  The two ways the module cuts the id out of a gif-host permalink
    agree exactly when the path has a word before the id and the URL has no
    closing slash.  On a permalink of the form the pattern of
    [handlemessagesave] accepts (words that end in a dash, then an id of
    the digits 0 to 9, under either scheme, with or without a closing
    slash) the pattern gives the id; [handletenor] looks up that same id
    for a URL with at least one word and no closing slash, the id with the
    slash after it when the URL ends in a slash, and the whole URL when the
    path is the id alone. *)
Theorem tenor_id_extraction_agreement (words : list (list ascii))
    (id : list ascii) (prefix : string) :
  id <> [] ->
  forallb digit id = true ->
  Forall (fun word => word <> [] /\ dash_free word) words ->
  In prefix ["https://tenor.com/view/"; "http://tenor.com/view/"]%string ->
  let url := (prefix ++ string_of_list_ascii (slug words id))%string in
  let url_slash :=
    (prefix ++ string_of_list_ascii (slug words id ++ ["/"%char]))%string in
  (tenor_url_fullmatch url = Some (string_of_list_ascii id)
   /\ tenor_url_fullmatch url_slash = Some (string_of_list_ascii id))
  /\ (last_piece url = string_of_list_ascii id <-> words <> [])
  /\ last_piece url_slash <> string_of_list_ascii id
  /\ (words <> [] ->
      last_piece url_slash = string_of_list_ascii (id ++ ["/"%char]))
  /\ (words = [] ->
      last_piece url = url /\ last_piece url_slash = url_slash).
Proof.
  intros Hne Hd Hw Hprefix. cbv zeta.
  assert (Hid : dash_free id) by (apply digits_dash_free; exact Hd).
  assert (Hids : dash_free (id ++ ["/"%char])).
  { intros H. apply in_app_or in H. destruct H as [H | [H | []]];
      [exact (Hid H) | discriminate H]. }
  assert (Hwords : Forall dash_free words).
  { eapply List.Forall_impl; [|exact Hw]. intros a [_ H]. exact H. }
  assert (Hp : dash_free (list_ascii_of_string prefix)
               /\ (0 < String.length prefix)%nat).
  { destruct Hprefix as [<- | [<- | []]]; (split; [|simpl; lia]);
      intros H; simpl in H; intuition discriminate. }
  destruct Hp as [Hp Hlen].
  pose proof (last_piece_slug prefix words id Hp Hwords Hid) as Hplain.
  pose proof (last_piece_slug prefix words (id ++ ["/"%char])
                Hp Hwords Hids) as Hslash.
  rewrite <- slug_closing_slash in Hslash.
  assert (Hlong : (String.length (string_of_list_ascii id)
                   < String.length
                       (string_of_list_ascii (id ++ ["/"%char])))%nat).
  { rewrite !string_length_of_list, length_app. simpl. lia. }
  split.
  { destruct (tenor_url_roundtrip_aux words id Hne Hd Hw)
      as (H1 & H2 & H3 & H4).
    destruct Hprefix as [<- | [<- | []]]; split; assumption. }
  destruct words as [|word words].
  - split; [|split; [|split]].
    + rewrite Hplain. split; [|congruence].
      intros E. exfalso. revert E. apply longer_string_differs.
      rewrite string_length_append. lia.
    + rewrite Hslash. apply longer_string_differs.
      rewrite string_length_append. lia.
    + congruence.
    + intros _. split; [exact Hplain | exact Hslash].
  - split; [|split; [|split]].
    + rewrite Hplain. split; [discriminate | reflexivity].
    + rewrite Hslash. apply longer_string_differs. exact Hlong.
    + intros _. exact Hslash.
    + discriminate.
Qed.

Lemma tenor_id_extraction_agreement_witness :
  let words := [list_ascii_of_string "cat"; list_ascii_of_string "dance"] in
  let id := list_ascii_of_string "12345" in
  (id <> []
   /\ forallb digit id = true
   /\ Forall (fun word => word <> [] /\ dash_free word) words
   /\ In "https://tenor.com/view/"%string
        ["https://tenor.com/view/"; "http://tenor.com/view/"]%string)
  /\ tenor_url_fullmatch "https://tenor.com/view/cat-dance-12345/"
     = Some "12345"%string
  /\ last_piece "https://tenor.com/view/cat-dance-12345/" = "12345/"%string.
Proof.
  cbv zeta.
  assert (H1 : list_ascii_of_string "12345" <> []) by discriminate.
  assert (H3 : Forall (fun word => word <> [] /\ dash_free word)
                 [list_ascii_of_string "cat"; list_ascii_of_string "dance"]).
  { repeat constructor; try discriminate;
      (intros H; simpl in H; intuition discriminate). }
  assert (H4 : In "https://tenor.com/view/"%string
                 ["https://tenor.com/view/"; "http://tenor.com/view/"]%string)
    by (left; reflexivity).
  split; [split; [exact H1 | split; [reflexivity | split; [exact H3 | exact H4]]]|].
  destruct (tenor_id_extraction_agreement
              [list_ascii_of_string "cat"; list_ascii_of_string "dance"]
              (list_ascii_of_string "12345") "https://tenor.com/view/"
              H1 eq_refl H3 H4)
    as ((_ & Hmatch) & _ & _ & Hslash & _).
  split; [exact Hmatch|].
  apply Hslash. discriminate.
Defined.

(** A permalink that is the id alone: the pattern gives the id, the last
    piece after a dash is the whole URL. *)
Example bare_id_permalink :
  tenor_url_fullmatch "https://tenor.com/view/12345" = Some "12345"%string
  /\ last_piece "https://tenor.com/view/12345"
     = "https://tenor.com/view/12345"%string.
Proof. split; reflexivity. Qed.
